(** * 3d-tiles-tools: implicit bounding volume derivation, property table
      builder and binary metadata entity model

    A shallow embedding of
    - [src/traversal/cesium/BoundingVolumeDerivation.ts],
    - [src/metadata/binary/BinaryPropertyTables.ts] (the buffer builders),
    - [src/metadata/binary/BinaryMetadataEntityModel.ts],
    followed by the properties that the specification states about them.

    JavaScript numbers are IEEE-754 binary64 values; they are embedded as
    Rocq's primitive [float], whose operations are exactly the binary64
    ones.  Thrown exceptions are embedded in the [result] type. *)

From Stdlib Require Import ZArith List Bool Lia Floats Ascii String DecimalString.
From stdpp Require Import base gmap strings.
Import ListNotations.

Local Open Scope Z_scope.

(* ===================================================================== *)
(** ** JavaScript values and exceptions                                   *)
(* ===================================================================== *)

Module JS.

(** The exceptions that the embedded code, or a function it calls, throws. *)
Inductive Error : Type :=
| MetadataError (message : string)
| DeveloperError (message : string)
| IndexError
| RangeError
| SyntaxError
| TypeError.

(** A computation that returns a value or throws. *)
Inductive result (A : Type) : Type :=
| Ok (value : A)
| Throw (error : Error).
Arguments Ok {A} value.
Arguments Throw {A} error.

Definition bind {A B : Type} (r : result A) (k : A -> result B) : result B :=
  match r with
  | Ok a => k a
  | Throw e => Throw e
  end.

(** [array[i]] on an array of numbers.  An index past the end reads
    [undefined], which arithmetic converts to NaN; NaN stands for it here.
    (Only the two heights of a root region of fewer than six numbers are
    read without arithmetic: a quadtree child carries them on.) *)
Definition index (array : list float) (i : nat) : float :=
  nth i array nan.

(** The mathematical integer value of a finite number, truncated toward
    zero (ECMAScript's [truncate]); NaN and the infinities give 0, as in
    [ToInt32] and [ToUint32]. *)
Definition truncate (n : float) : Z :=
  match Prim2SF n with
  | S754_finite s m e =>
      let v := Z.shiftl (Z.pos m) e in
      if s then - v else v
  | _ => 0
  end.

(** [ToInt32] of ECMAScript: truncate, wrap modulo 2^32, read as signed. *)
Definition ToInt32 (n : float) : Z :=
  let v := truncate n mod 2 ^ 32 in
  if 2 ^ 31 <=? v then v - 2 ^ 32 else v.

(** [BigInt(n)] for a number [n]: a RangeError unless [n] is an integer. *)
Definition BigInt (n : float) : result Z :=
  match Prim2SF n with
  | S754_zero _ => Ok 0
  | S754_finite s m e =>
      if (0 <=? e) || (Z.pos m mod 2 ^ (- e) =? 0)
      then Ok (truncate n)
      else Throw RangeError
  | _ => Throw RangeError
  end.

(** [n % d] on numbers (ECMAScript's Number::remainder).  For a finite
    dividend and a finite divisor other than zero the result is exact: it
    has the sign of the dividend and a magnitude below that of the divisor. *)
Definition remainder (n d : float) : float :=
  match Prim2SF n, Prim2SF d with
  | S754_nan, _ => nan
  | _, S754_nan => nan
  | S754_infinity _, _ => nan
  | _, S754_zero _ => nan
  | S754_zero _, _ => n
  | S754_finite _ _ _, S754_infinity _ => n
  | S754_finite sn mn en, S754_finite _ md ed =>
      let e := Z.min en ed in
      let r := (Z.pos mn * 2 ^ (en - e)) mod (Z.pos md * 2 ^ (ed - e)) in
      if r =? 0 then (if sn then - 0 else 0)%float
      else SF2Prim (binary_normalize prec emax (if sn then - r else r) e false)
  end.

(** [Number.MAX_VALUE], the largest finite number. *)
Definition MAX_VALUE : float := 0x1.fffffffffffffp+1023%float.

(** A string value: its UTF-16 code units.  A name or a message of the
    code, written as a Rocq string, stands for the string whose code units
    are the codes of its characters. *)
Definition JSString : Type := list Z.

Definition str (s : string) : JSString :=
  map (fun c => Z.of_nat (nat_of_ascii c)) (list_ascii_of_string s).

(** [s === t] on strings. *)
Definition sameString (s t : JSString) : bool := bool_decide (s = t).

(** The members that every plain object inherits from [Object.prototype]. *)
Definition objectPrototype : list string :=
  ["constructor"; "__defineGetter__"; "__defineSetter__"; "hasOwnProperty";
   "__lookupGetter__"; "__lookupSetter__"; "isPrototypeOf"; "propertyIsEnumerable";
   "toString"; "valueOf"; "__proto__"; "toLocaleString"]%string.

(** What [object[key]] finds on a plain object that is used as a
    dictionary: a property of the object itself, or else a member that is
    inherited from [Object.prototype] (a function, or for [__proto__] the
    prototype object: never [undefined] and never falsy), or else
    [undefined]. *)
Inductive Member (A : Type) : Type :=
| Own (value : A)
| Inherited (name : string)
| Undefined.
Arguments Own {A} value.
Arguments Inherited {A} name.
Arguments Undefined {A}.

Definition member {A : Type} (object : gmap string A) (key : string) : Member A :=
  match object !! key with
  | Some value => Own value
  | None => if bool_decide (key ∈ objectPrototype) then Inherited key else Undefined
  end.


End JS.

Import JS.

Coercion str : string >-> JSString.

#[global] Instance result_bind : MBind result := fun A B k r => JS.bind r k.
#[global] Instance result_ret : MRet result := @JS.Ok.
#[global] Instance result_fmap : FMap result :=
  fun A B f r => JS.bind r (fun a => JS.Ok (f a)).

(* ===================================================================== *)
(** ** The parts of CesiumJS that the derivation uses                     *)
(* ===================================================================== *)

(** [Cartesian3], [Matrix3] (column-major storage) and [Rectangle] as
    CesiumJS defines them.  The scratch objects that the TypeScript code
    passes as [result] arguments only receive the value; no function here
    reads its result argument before all of its inputs are read, so the
    functions are embedded as pure ones.  An entry of a matrix is absent
    ([undefined]) when it was unpacked from past the end of an array:
    arithmetic reads it as NaN, and [Matrix3.clone] replaces it by 0. *)
Module Cesium.

Local Open Scope float_scope.

Definition PI : float := 0x1.921fb54442d18p+1.
Definition TWO_PI : float := 2 * PI.
Definition EPSILON14 : float := 0x1.6849b86a12b9bp-47.

Record Cartesian3 : Type := mkCartesian3 { cx : float; cy : float; cz : float }.

Record Matrix3 : Type := mkMatrix3 {
  m0 : option float; m1 : option float; m2 : option float;
  m3 : option float; m4 : option float; m5 : option float;
  m6 : option float; m7 : option float; m8 : option float }.

(** An entry in arithmetic: [undefined] converts to NaN. *)
Definition num (entry : option float) : float := default nan entry.

Record Rectangle : Type := mkRectangle {
  west : float; south : float; east : float; north : float }.

Definition Cartesian3_fromElements (x y z : float) : Cartesian3 :=
  mkCartesian3 x y z.

Definition Cartesian3_unpack (array : list float) (startingIndex : nat) : Cartesian3 :=
  mkCartesian3 (index array startingIndex)
               (index array (startingIndex + 1))
               (index array (startingIndex + 2)).

Definition Cartesian3_add (left right : Cartesian3) : Cartesian3 :=
  mkCartesian3 (cx left + cx right) (cy left + cy right) (cz left + cz right).

Definition Cartesian3_pack (value : Cartesian3) : list float :=
  [cx value; cy value; cz value].

Definition Matrix3_unpack (array : list float) (startingIndex : nat) : Matrix3 :=
  let a k := array !! (startingIndex + k)%nat in
  mkMatrix3 (a 0%nat) (a 1%nat) (a 2%nat) (a 3%nat) (a 4%nat)
            (a 5%nat) (a 6%nat) (a 7%nat) (a 8%nat).

(** [Matrix3.clone] without a result argument: a new matrix, whose
    constructor replaces an absent entry by 0. *)
Definition Matrix3_clone (matrix : Matrix3) : Matrix3 :=
  let a entry := Some (default 0 entry) in
  mkMatrix3 (a (m0 matrix)) (a (m1 matrix)) (a (m2 matrix))
            (a (m3 matrix)) (a (m4 matrix)) (a (m5 matrix))
            (a (m6 matrix)) (a (m7 matrix)) (a (m8 matrix)).

Definition Matrix3_multiplyByVector (matrix : Matrix3) (cartesian : Cartesian3)
  : Cartesian3 :=
  let vX := cx cartesian in
  let vY := cy cartesian in
  let vZ := cz cartesian in
  mkCartesian3
    (num (m0 matrix) * vX + num (m3 matrix) * vY + num (m6 matrix) * vZ)
    (num (m1 matrix) * vX + num (m4 matrix) * vY + num (m7 matrix) * vZ)
    (num (m2 matrix) * vX + num (m5 matrix) * vY + num (m8 matrix) * vZ).

Definition Matrix3_multiplyByScale (matrix : Matrix3) (scale : Cartesian3) : Matrix3 :=
  let a entry factor := Some (num entry * factor) in
  mkMatrix3 (a (m0 matrix) (cx scale)) (a (m1 matrix) (cx scale)) (a (m2 matrix) (cx scale))
            (a (m3 matrix) (cy scale)) (a (m4 matrix) (cy scale)) (a (m5 matrix) (cy scale))
            (a (m6 matrix) (cz scale)) (a (m7 matrix) (cz scale)) (a (m8 matrix) (cz scale)).

(** [Matrix3.pack] into the new array; the entries of a scaled matrix are
    all present. *)
Definition Matrix3_pack (value : Matrix3) : list float :=
  [num (m0 value); num (m1 value); num (m2 value);
   num (m3 value); num (m4 value); num (m5 value);
   num (m6 value); num (m7 value); num (m8 value)].

Definition Rectangle_unpack (array : list float) (startingIndex : nat) : Rectangle :=
  mkRectangle (index array startingIndex)
              (index array (startingIndex + 1))
              (index array (startingIndex + 2))
              (index array (startingIndex + 3)).

(** [Rectangle.computeWidth]: the width wraps across the anti-meridian. *)
Definition Rectangle_width (rectangle : Rectangle) : float :=
  let e := east rectangle in
  let w := west rectangle in
  let e := if e <? w then e + TWO_PI else e in
  e - w.

Definition Rectangle_height (rectangle : Rectangle) : float :=
  north rectangle - south rectangle.

(** [CesiumMath.sign], [CesiumMath.mod], [CesiumMath.zeroToTwoPi] and
    [CesiumMath.negativePiToPi] as CesiumJS defines them in [Core/Math.js]
    (version 1.103, the oldest that the package admits; the checks of its
    debug build only reject an [undefined] argument and a zero divisor,
    which these calls never pass). *)
Definition CesiumMath_sign (value : float) : float :=
  if (value =? 0) || is_nan value then value
  else if 0 <? value then 1 else -1.

Definition CesiumMath_mod (m n : float) : float :=
  if (CesiumMath_sign m =? CesiumMath_sign n) && (abs m <? abs n) then m
  else remainder (remainder m n + n) n.

Definition zeroToTwoPi (angle : float) : float :=
  if (0 <=? angle) && (angle <=? TWO_PI) then angle
  else
    let mod_ := CesiumMath_mod angle TWO_PI in
    if (abs mod_ <? EPSILON14) && (EPSILON14 <? abs angle) then TWO_PI else mod_.

Definition negativePiToPi (angle : float) : float :=
  if (- PI <=? angle) && (angle <=? PI) then angle
  else zeroToTwoPi (angle + PI) - PI.

End Cesium.

Import Cesium.

(* ===================================================================== *)
(** ** BoundingVolumeDerivation.ts                                        *)
(* ===================================================================== *)

(** Functions that the derivation calls and whose code is outside the
    embedded files: [Math.pow] (which ECMAScript leaves
    implementation-approximated), and the S2 cell and Hilbert curve
    helpers of [S2Cell.ts] and [HilbertOrder.ts].  The derivation is
    parameterised by them. *)
Class Externals : Type := {
  Math_pow : float -> float -> float;
  S2Cell_getIdFromToken : string -> result Z;
  S2Cell_fromFacePositionLevel : Z -> Z -> float -> result Z;
  S2Cell_getTokenFromId : Z -> string;
  HilbertOrder_encode2D : float -> float -> float -> result float
}.

(** [structure/extensions/BoundingVolumeS2] *)
Record BoundingVolumeS2 : Type := mkBoundingVolumeS2 {
  token : string;
  minimumHeight : float;
  maximumHeight : float }.

(** An entry of an [extensions] dictionary: the S2 bounding volume object,
    or an object of another shape, one that has none of the members of an
    S2 bounding volume (identified by its JSON text). *)
Inductive ExtensionObject : Type :=
| ExtS2 (s2 : BoundingVolumeS2)
| ExtOther (json : string).

(** [structure/BoundingVolume]: every member is optional. *)
Record BoundingVolume : Type := mkBoundingVolume {
  box : option (list float);
  region : option (list float);
  sphere : option (list float);
  extensions : option (gmap string ExtensionObject) }.

Module BoundingVolumeDerivation.

Local Open Scope float_scope.

Definition S2_EXTENSION : string := "3DTILES_bounding_volume_S2".

(** [hasExtension(json, extensionName)], as the extension object it
    yields when truthy (an object is always truthy). *)
Definition hasExtension (json : BoundingVolume) (extensionName : string)
  : option ExtensionObject :=
  match extensions json with
  | Some exts => exts !! extensionName
  | None => None
  end.

(** [deriveBoundingBox]: the root box at level 0; otherwise the twelve
    numbers packed from the derived center and half-axes. *)
Definition deriveBoundingBox `{Externals} (rootBox : list float)
    (level x y : float) (z : option float) : list float :=
  if level =? 0 then rootBox
  else
    let rootCenter := Cartesian3_unpack rootBox 0 in
    let rootHalfAxes := Matrix3_unpack rootBox 3 in
    let tileScale := Math_pow 2 (- level) in
    let modelSpaceX := -1 + (2 * x + 1) * tileScale in
    let modelSpaceY := -1 + (2 * y + 1) * tileScale in
    let modelSpaceZ0 := 0 in
    let scaleFactors0 := Cartesian3_fromElements tileScale tileScale 1 in
    let '(modelSpaceZ, scaleFactors) :=
      match z with
      | Some zv =>
          (-1 + (2 * zv + 1) * tileScale,
           mkCartesian3 (cx scaleFactors0) (cy scaleFactors0) tileScale)
      | None => (modelSpaceZ0, scaleFactors0)
      end in
    let center := Cartesian3_fromElements modelSpaceX modelSpaceY modelSpaceZ in
    let center := Matrix3_multiplyByVector rootHalfAxes center in
    let center := Cartesian3_add center rootCenter in
    let halfAxes := Matrix3_clone rootHalfAxes in
    let halfAxes := Matrix3_multiplyByScale halfAxes scaleFactors in
    Cartesian3_pack center ++ Matrix3_pack halfAxes.

(** [deriveBoundingRegion]: a copy of the root region at level 0;
    otherwise the six numbers of the child region. *)
Definition deriveBoundingRegion `{Externals} (rootRegion : list float)
    (level x y : float) (z : option float) : list float :=
  if level =? 0 then rootRegion
  else
    let rectangle := Rectangle_unpack rootRegion 0 in
    let rootMinimumHeight := index rootRegion 4 in
    let rootMaximumHeight := index rootRegion 5 in
    let tileScale := Math_pow 2 (- level) in
    let childWidth := tileScale * Rectangle_width rectangle in
    let west := negativePiToPi (west rectangle + x * childWidth) in
    let east := negativePiToPi (west + childWidth) in
    let childHeight := tileScale * Rectangle_height rectangle in
    let south := negativePiToPi (south rectangle + y * childHeight) in
    let north := negativePiToPi (south + childHeight) in
    let '(minimumHeight, maximumHeight) :=
      match z with
      | Some zv =>
          let childThickness := tileScale * (rootMaximumHeight - rootMinimumHeight) in
          let minimumHeight := rootMinimumHeight + zv * childThickness in
          (minimumHeight, minimumHeight + childThickness)
      | None => (rootMinimumHeight, rootMaximumHeight)
      end in
    [west; south; east; north; minimumHeight; maximumHeight].

(** [deriveBoundingVolumeS2].  The face, [Number(baseCellId >> 61n)], is
    kept as the integer it is; [face % 2 === 0] tests its parity. *)
Definition deriveBoundingVolumeS2 `{Externals} (boundingVolumeS2 : BoundingVolumeS2)
    (level x y : float) (z : option float) : result BoundingVolumeS2 :=
  if level =? 0 then Ok boundingVolumeS2
  else
    baseCellId ← S2Cell_getIdFromToken (token boundingVolumeS2);
    let face := Z.shiftr baseCellId 61 in
    position ←
      (if face mod 2 =? 0
       then HilbertOrder_encode2D level x y
       else HilbertOrder_encode2D level y x)%Z;
    bigPosition ← BigInt position;
    cellId ← S2Cell_fromFacePositionLevel face bigPosition level;
    let '(minHeight, maxHeight) :=
      match z with
      | Some zv =>
          let lower := (Z.land (ToInt32 zv) 1 =? 0)%Z in
          let midpointHeight :=
            (maximumHeight boundingVolumeS2 + minimumHeight boundingVolumeS2) / 2 in
          (if lower then minimumHeight boundingVolumeS2 else midpointHeight,
           if lower then midpointHeight else maximumHeight boundingVolumeS2)
      | None => (minimumHeight boundingVolumeS2, maximumHeight boundingVolumeS2)
      end in
    Ok (mkBoundingVolumeS2 (S2Cell_getTokenFromId cellId) minHeight maxHeight).

(** The object literals that [deriveBoundingVolume] returns. *)
Definition s2Volume (s2 : ExtensionObject) : BoundingVolume :=
  mkBoundingVolume None None None (Some {[ S2_EXTENSION := s2 ]}).
Definition regionVolume (r : list float) : BoundingVolume :=
  mkBoundingVolume None (Some r) None None.
Definition boxVolume (b : list float) : BoundingVolume :=
  mkBoundingVolume (Some b) None None None.

(** [deriveBoundingVolume]: [Ok None] is the [undefined] that is returned
    for a volume from which nothing can be derived.  An object of another
    shape under the S2 key is cast unchecked: at level 0 it is handed
    back; otherwise its [token] is [undefined], and [S2Cell.getIdFromToken],
    which starts by taking the length of the token, throws a TypeError. *)
Definition deriveBoundingVolume `{Externals} (rootBoundingVolume : BoundingVolume)
    (implicitCoordinates : list float) : result (option BoundingVolume) :=
  let level := index implicitCoordinates 0 in
  let x := index implicitCoordinates 1 in
  let y := index implicitCoordinates 2 in
  let z := if (3 <? length implicitCoordinates)%nat
           then Some (index implicitCoordinates 3) else None in
  match hasExtension rootBoundingVolume S2_EXTENSION with
  | Some (ExtS2 boundingVolumeS2) =>
      childBoundingVolumeS2 ← deriveBoundingVolumeS2 boundingVolumeS2 level x y z;
      Ok (Some (s2Volume (ExtS2 childBoundingVolumeS2)))
  | Some (ExtOther json) =>
      if level =? 0 then Ok (Some (s2Volume (ExtOther json)))
      else Throw TypeError
  | None =>
      match region rootBoundingVolume with
      | Some rootRegion =>
          Ok (Some (regionVolume (deriveBoundingRegion rootRegion level x y z)))
      | None =>
          match box rootBoundingVolume with
          | Some rootBox =>
              Ok (Some (boxVolume (deriveBoundingBox rootBox level x y z)))
          | None => Ok None
          end
      end
  end.

End BoundingVolumeDerivation.

(* ===================================================================== *)
(** ** Metadata structures                                                *)
(* ===================================================================== *)

(** A number of the metadata code paths embedded below.  The numbers that
    these paths compute with are array lengths, positions and sums of
    them: integers far below 2^53, on which JavaScript's arithmetic is
    exact, or NaN (from an [undefined] operand). *)
Inductive number : Type :=
| Int (z : Z)
| NaN.

(** The JSON representation of a column ([values: any]): nested arrays
    over strings, numbers, booleans and [null]. *)
Inductive Leaf : Type :=
| LString (s : JSString)
| LNumber (n : number)
| LBool (b : bool)
| LNull.

#[warnings="-register-all"]
Inductive JValue : Type :=
| JLeaf (leaf : Leaf)
| JArray (elements : list JValue).

(** [structure/Metadata/EnumValue], [MetadataEnum], [ClassProperty],
    [Schema] and [structure/PropertyTableProperty]: the members that the
    embedded code reads. *)
Record EnumValue : Type := mkEnumValue {
  enumValueName : string;
  enumValueValue : Z }.

Record MetadataEnum : Type := mkMetadataEnum {
  enumValueType : option string;
  enumValues : list EnumValue }.

Record ClassProperty : Type := mkClassProperty {
  propertyType : string;
  componentType : option string;
  enumType : option string;
  isArray : bool;
  count : option Z }.

Record Schema : Type := mkSchema {
  enums : option (gmap string MetadataEnum) }.

Record PropertyTableProperty (Value : Type) : Type := mkPropertyTableProperty {
  values : nat;
  arrayOffsets : option nat;
  stringOffsets : option nat;
  offset : option Value;
  scale : option Value }.
Arguments mkPropertyTableProperty {Value}.
Arguments values {Value}.
Arguments arrayOffsets {Value}.
Arguments stringOffsets {Value}.
Arguments offset {Value}.
Arguments scale {Value}.

(** A Node.js [Buffer]: a sequence of bytes, each an integer in 0..255. *)
Definition Buffer : Type := list Z.

(** Conversions between strings and numbers: the JavaScript built-ins
    [Number(s)] (restricted to the numbers above), [BigInt(s)], and
    [String(n)] for an integer [n] (Number::toString, which prints the
    decimal digits of an integer below 10^21 in magnitude and uses
    exponent notation from there on). *)
Class StringCoercions : Type := {
  Number_ofString : JSString -> number;
  BigInt_ofString : JSString -> result Z;
  Number_toString : Z -> JSString
}.

(* ===================================================================== *)
(** ** Typed arrays                                                       *)
(* ===================================================================== *)

Module TypedArrays.

(** The [width] little-endian bytes of a non-negative integer. *)
Fixpoint leBytes (width : nat) (v : Z) : list Z :=
  match width with
  | O => []
  | S width' => v mod 256 :: leBytes width' (v / 256)
  end.

(** The integer that little-endian bytes denote. *)
Fixpoint leValue (bytes : list Z) : Z :=
  match bytes with
  | [] => 0
  | b :: rest => b + 256 * leValue rest
  end.

(** An element of an integer typed array of [width] bytes: the number is
    wrapped modulo 2^(8 width); NaN is stored as 0.  Signed and unsigned
    arrays store the same bytes. *)
Definition intElement (width : nat) (n : number) : list Z :=
  match n with
  | Int z => leBytes width (z mod 2 ^ (8 * Z.of_nat width))
  | NaN => leBytes width 0
  end.

(** The bit pattern of a floating-point datum of precision [prec] and
    exponent bound [emax] (binary32: 24 and 128; binary64: 53 and 1024). *)
Definition ieeeBits (prec emax : Z) (x : spec_float) : Z :=
  let manBits := prec - 1 in
  let signBit (s : bool) := if s then 2 * emax * 2 ^ manBits else 0 in
  match x with
  | S754_zero s => signBit s
  | S754_infinity s => signBit s + (2 * emax - 1) * 2 ^ manBits
  | S754_nan => (2 * emax - 1) * 2 ^ manBits + 2 ^ (manBits - 1)
  | S754_finite s m e =>
      if Z.pos m <? 2 ^ manBits then signBit s + Z.pos m
      else signBit s + (e - (3 - emax - prec) + 1) * 2 ^ manBits
           + (Z.pos m - 2 ^ manBits)
  end.

(** An element of a [Float32Array] or [Float64Array]: the number rounded
    to the format. *)
Definition floatElement (width : nat) (prec emax : Z) (n : number) : list Z :=
  match n with
  | Int z => leBytes width (ieeeBits prec emax (binary_normalize prec emax z 0 false))
  | NaN => leBytes width (ieeeBits prec emax S754_nan)
  end.

(** The entries of a buffer read as unsigned little-endian integers of
    [width] bytes, as [Buffer.readUIntLE] reads them.  [count] bounds the
    number of entries that are read. *)
Fixpoint entries (width : nat) (count : nat) (buffer : Buffer) : list Z :=
  match count with
  | O => []
  | S count' =>
      match buffer with
      | [] => []
      | _ => leValue (take width buffer) :: entries width count' (drop width buffer)
      end
  end.

End TypedArrays.

(* ===================================================================== *)
(** ** BinaryPropertyTables.ts: the buffer builders                       *)
(* ===================================================================== *)

Module BinaryPropertyTables.

Import TypedArrays.

(** [flattenFully]: the leaves of a value, in order.  (On a value that
    is not an array the TypeScript function returns the value itself;
    [concat] then appends it as one element.) *)
Fixpoint flattenFully (value : JValue) : list Leaf :=
  match value with
  | JLeaf leaf => [leaf]
  | JArray elements =>
      (fix each (vs : list JValue) : list Leaf :=
         match vs with
         | [] => []
         | v :: rest => flattenFully v ++ each rest
         end) elements
  end.

(** [flatten]: a shallow copy of the array. *)
Definition flatten (values : list JValue) : list JValue := values.

(** ECMAScript's ToString, ToBoolean and ToNumber on a leaf. *)
Definition ToString `{StringCoercions} (leaf : Leaf) : JSString :=
  match leaf with
  | LString s => s
  | LNumber (Int z) => Number_toString z
  | LNumber NaN => "NaN"
  | LBool true => "true"
  | LBool false => "false"
  | LNull => "null"
  end.

Definition ToBoolean (leaf : Leaf) : bool :=
  match leaf with
  | LString [] => false
  | LString (_ :: _) => true
  | LNumber (Int z) => negb (z =? 0)
  | LNumber NaN => false
  | LBool b => b
  | LNull => false
  end.

Definition ToNumber `{StringCoercions} (leaf : Leaf) : number :=
  match leaf with
  | LString s => Number_ofString s
  | LNumber n => n
  | LBool b => Int (if b then 1 else 0)
  | LNull => Int 0
  end.

(** [BigInt(v)] on a leaf. *)
Definition ToBigInt `{StringCoercions} (leaf : Leaf) : result Z :=
  match leaf with
  | LString s => BigInt_ofString s
  | LNumber (Int z) => Ok z
  | LNumber NaN => Throw RangeError
  | LBool b => Ok (if b then 1 else 0)
  | LNull => Throw TypeError
  end.

(** The text of an element in [Array.prototype.join]: the empty string
    for [null], and ToString otherwise. *)
Definition joinText `{StringCoercions} (leaf : Leaf) : JSString :=
  match leaf with
  | LNull => []
  | _ => ToString leaf
  end.

(** Surrogate code units, and the UTF-8 bytes of a code point. *)
Definition isHighSurrogate (unit : Z) : bool := (55296 <=? unit) && (unit <=? 56319).
Definition isLowSurrogate (unit : Z) : bool := (56320 <=? unit) && (unit <=? 57343).

Definition utf8 (codePoint : Z) : list Z :=
  if codePoint <? 128 then [codePoint mod 128]
  else if codePoint <? 2048 then
    [192 + (codePoint / 64) mod 32; 128 + codePoint mod 64]
  else if codePoint <? 65536 then
    [224 + (codePoint / 4096) mod 16; 128 + (codePoint / 64) mod 64;
     128 + codePoint mod 64]
  else
    [240 + (codePoint / 262144) mod 8; 128 + (codePoint / 4096) mod 64;
     128 + (codePoint / 64) mod 64; 128 + codePoint mod 64].

(** The bytes of U+FFFD, which replaces a surrogate that has no partner. *)
Definition replacement : list Z := [239; 191; 189].

(** The bytes of a string: [TextEncoder.encode].  A high surrogate that is
    followed by a low one is encoded together with it, as the code point
    of the pair. *)
Fixpoint encode (s : JSString) : list Z :=
  match s with
  | [] => []
  | unit :: rest =>
      if isHighSurrogate unit then
        match rest with
        | next :: rest' =>
            if isLowSurrogate next
            then utf8 (65536 + (unit - 55296) * 1024 + (next - 56320)) ++ encode rest'
            else replacement ++ encode rest
        | [] => replacement
        end
      else if isLowSurrogate unit then replacement ++ encode rest
      else utf8 unit ++ encode rest
  end.

Fixpoint mapM {A B : Type} (f : A -> result B) (l : list A) : result (list B) :=
  match l with
  | [] => Ok []
  | a :: rest => b ← f a; bs ← mapM f rest; Ok (b :: bs)
  end.

Definition createBufferInternal `{StringCoercions} (values : list JValue)
    (componentType : option string) : result Buffer :=
  let flatValues := flattenFully (JArray values) in
  let ints (width : nat) := Ok (concat (map (fun v => intElement width (ToNumber v)) flatValues)) in
  let bigints :=
    zs ← mapM ToBigInt flatValues;
    Ok (concat (map (fun z => intElement 8 (Int z)) zs)) in
  match componentType with
  | Some "INT8" => ints 1%nat
  | Some "UINT8" => ints 1%nat
  | Some "INT16" => ints 2%nat
  | Some "UINT16" => ints 2%nat
  | Some "INT32" => ints 4%nat
  | Some "UINT32" => ints 4%nat
  | Some "INT64" => bigints
  | Some "UINT64" => bigints
  | Some "FLOAT32" =>
      Ok (concat (map (fun v => floatElement 4 24 128 (ToNumber v)) flatValues))
  | Some "FLOAT64" =>
      Ok (concat (map (fun v => floatElement 8 53 1024 (ToNumber v)) flatValues))
  | Some other => Throw (MetadataError (other ++ " is not a valid component type"))
  | None => Throw (MetadataError "undefined is not a valid component type")
  end%string.

Definition createBuffer `{StringCoercions} (values : list JValue)
    (componentType : option string) : result Buffer :=
  createBufferInternal values componentType.

Definition createStringBufferInternal `{StringCoercions} (inputValues : list JValue)
  : list Z :=
  let values := flattenFully (JArray inputValues) in
  encode (concat (map joinText values)).

Definition createStringBuffer `{StringCoercions} (values : list JValue) : Buffer :=
  createStringBufferInternal values.

(** The loop of [createBooleanBufferInternal]: bit [i mod 8] of byte
    [i / 8] is set when value [i] is truthy. *)
Fixpoint setBits (values : list Leaf) (i : nat) (typedArray : list Z) : list Z :=
  match values with
  | [] => typedArray
  | v :: rest =>
      let byteIndex := (i / 8)%nat in
      let bitIndex := Z.of_nat (i mod 8) in
      let typedArray :=
        if ToBoolean v
        then alter (fun byte => Z.lor byte (Z.shiftl 1 bitIndex)) byteIndex typedArray
        else typedArray in
      setBits rest (S i) typedArray
  end.

Definition createBooleanBufferInternal (inputValues : list JValue) : list Z :=
  let values := flattenFully (JArray inputValues) in
  let length := ((length values + 7) / 8)%nat in
  setBits values 0 (replicate length 0).

Definition createBooleanBuffer (values : list JValue) : Buffer :=
  createBooleanBufferInternal values.

(** [valueNames.indexOf(valueName)]: the first position of a name that is
    strictly equal to the value, or -1. *)
Fixpoint indexOfFrom (names : list string) (name : JSString) (i : Z) : Z :=
  match names with
  | [] => -1
  | n :: rest => if sameString n name then i else indexOfFrom rest name (i + 1)
  end.

Definition indexOf (valueNames : list string) (valueName : Leaf) : Z :=
  match valueName with
  | LString s => indexOfFrom valueNames s 0
  | _ => -1
  end.

(** [createValuesBuffer].  The enums of the schema are a plain object:
    for an enum type that names an inherited member, the member passes
    the check [!metadataEnum], and calling [metadataEnum.values.map],
    which is not a function, throws a TypeError. *)
Definition createValuesBuffer `{StringCoercions} (classProperty : ClassProperty)
    (schema : Schema) (values : list JValue) : result Buffer :=
  let type := propertyType classProperty in
  let componentType := componentType classProperty in
  let enumType := enumType classProperty in
  let flattenedValues := flatten values in
  if String.eqb type "STRING" then Ok (createStringBuffer flattenedValues)
  else if String.eqb type "BOOLEAN" then Ok (createBooleanBuffer flattenedValues)
  else
    match enumType with
    | Some enumType =>
        let flattenedValues := flattenFully (JArray flattenedValues) in
        match enums schema with
        | None => Throw (MetadataError "The schema does not define any enums")
        | Some metadataEnums =>
            match member metadataEnums enumType with
            | Undefined =>
                Throw (MetadataError ("The schema does not define enum " ++ enumType))
            | Inherited _ => Throw TypeError
            | Own metadataEnum =>
                let valueNames := map enumValueName (enumValues metadataEnum) in
                let componentType :=
                  Some (default "UINT16"%string (enumValueType metadataEnum)) in
                let flattenedValues :=
                  map (fun valueName => JLeaf (LNumber (Int (indexOf valueNames valueName))))
                      flattenedValues in
                createBuffer flattenedValues componentType
            end
        end
    | None => createBuffer flattenedValues componentType
    end.

(** The loop shared by the two offset builders: [offsets[i]] is the sum
    of the first [i] lengths, and the total is stored last. *)
Definition addNumber (a b : number) : number :=
  match a, b with
  | Int x, Int y => Int (x + y)
  | _, _ => NaN
  end.

Fixpoint offsetsFrom (offset : number) (lengths : list number) : list number :=
  match lengths with
  | [] => [offset]
  | l :: rest => offset :: offsetsFrom (addNumber offset l) rest
  end.

(** [values[i].length]: the number of elements of an array, the number of
    code units of a string, [undefined] (NaN in the sum) for a number or a
    boolean, and a TypeError for [null]. *)
Definition lengthOf (value : JValue) : result number :=
  match value with
  | JArray elements => Ok (Int (Z.of_nat (length elements)))
  | JLeaf (LString s) => Ok (Int (Z.of_nat (length s)))
  | JLeaf LNull => Throw TypeError
  | JLeaf _ => Ok NaN
  end.

Definition createStringOffsetBuffer `{StringCoercions} (values : list JValue)
    (offsetType : option string) : result Buffer :=
  let strings := flattenFully (JArray values) in
  let offsets :=
    offsetsFrom (Int 0)
      (map (fun s => Int (Z.of_nat (length (encode (ToString s))))) strings) in
  let offsetType := Some (default "UINT32"%string offsetType) in
  createBuffer (map (fun n => JLeaf (LNumber n)) offsets) offsetType.

Definition createArrayOffsetBuffer `{StringCoercions} (values : list JValue)
    (offsetType : option string) : result Buffer :=
  lengths ← mapM lengthOf values;
  let offsets := offsetsFrom (Int 0) lengths in
  let offsetType := Some (default "UINT32"%string offsetType) in
  createBuffer (map (fun n => JLeaf (LNumber n)) offsets) offsetType.

(** [createPropertyTableProperty]: the buffers are appended to
    [bufferViewsData]; the result is the property and the extended array. *)
Definition createPropertyTableProperty `{StringCoercions} (classProperty : ClassProperty)
    (schema : Schema) (values : list JValue)
    (arrayOffsetType stringOffsetType : option string)
    (bufferViewsData : list Buffer)
  : result (PropertyTableProperty JValue * list Buffer) :=
  valuesBuffer ← createValuesBuffer classProperty schema values;
  let valuesBufferView := length bufferViewsData in
  let bufferViewsData := bufferViewsData ++ [valuesBuffer] in
  let isVariableLengthArray :=
    isArray classProperty && negb (bool_decide (is_Some (count classProperty))) in
  '(arrayOffsetsView, bufferViewsData) ←
    (if isVariableLengthArray
     then arrayOffsetBuffer ← createArrayOffsetBuffer values arrayOffsetType;
          Ok (Some (length bufferViewsData), bufferViewsData ++ [arrayOffsetBuffer])
     else Ok (None, bufferViewsData));
  '(stringOffsetsView, bufferViewsData) ←
    (if String.eqb (propertyType classProperty) "STRING"
     then stringOffsetBuffer ← createStringOffsetBuffer values stringOffsetType;
          Ok (Some (length bufferViewsData), bufferViewsData ++ [stringOffsetBuffer])
     else Ok (None, bufferViewsData));
  Ok (mkPropertyTableProperty valuesBufferView arrayOffsetsView stringOffsetsView
        None None,
      bufferViewsData).

End BinaryPropertyTables.

(* ===================================================================== *)
(** ** Property models                                                    *)
(* ===================================================================== *)

(** The [PropertyModel] interface: one operation, which may throw. *)
Module PropertyModel.
Record t (Value : Type) : Type := make {
  getPropertyValue : Z -> result Value }.
Arguments make {Value}.
Arguments getPropertyValue {Value}.
End PropertyModel.

Module BinaryPropertyModels.

Import TypedArrays.

(** The width in bytes of an offset type. *)
Definition byteSizeForOffsetType (offsetType : string) : option nat :=
  if String.eqb offsetType "UINT8" then Some 1%nat
  else if String.eqb offsetType "UINT16" then Some 2%nat
  else if String.eqb offsetType "UINT32" then Some 4%nat
  else if String.eqb offsetType "UINT64" then Some 8%nat
  else None.

(** Modelled from the spec: the numeric primitive decode of
    [NumericBuffers.ts], which is not among the source files, for the
    unsigned offset types (section 4.2: the value at [index * width]
    bytes, little-endian; section 4.1: an [IndexError] when the index is
    negative or the read would pass the end of the buffer). *)
Definition getNumericFromBuffer (buffer : Buffer) (index : Z) (offsetType : string)
  : result Z :=
  match byteSizeForOffsetType offsetType with
  | Some width =>
      let byteOffset := index * Z.of_nat width in
      if (0 <=? index) && (byteOffset + Z.of_nat width <=? Z.of_nat (length buffer))
      then Ok (leValue (take width (drop (Z.to_nat byteOffset) buffer)))
      else Throw IndexError
  | None => Throw (MetadataError (offsetType ++ " is not a valid offset type"))
  end.

(** Modelled from the spec: [BinaryPropertyModels.computeSlice], which is
    not among the source files (section 4.1): with an offsets buffer the
    slice starts at entry [index] and ends at entry [index + 1]; otherwise
    it is the [index]-th block of [fixedCount] elements; supplying neither
    is an error. *)
Definition computeSlice (index : Z) (offsetsBuffer : option Buffer)
    (offsetType : string) (fixedCount : option Z) : result (Z * Z) :=
  match offsetsBuffer, fixedCount with
  | Some buffer, _ =>
      start ← getNumericFromBuffer buffer index offsetType;
      next ← getNumericFromBuffer buffer (index + 1) offsetType;
      Ok (start, next - start)
  | None, Some fixedCount =>
      if 0 <=? index then Ok (index * fixedCount, fixedCount) else Throw IndexError
  | None, None => Throw (MetadataError "neither offsets nor count")
  end.

End BinaryPropertyModels.

(** StringPropertyModel.ts.  [decode] is [TextDecoder.decode]. *)
Module StringPropertyModel.

Record t : Type := make {
  _valuesBuffer : Buffer;
  _stringOffsetsBuffer : Buffer;
  _stringOffsetType : string }.

(** [arrayBuffer.slice(begin, end)] for non-negative bounds. *)
Definition slice (bytes : list Z) (begin_ end_ : Z) : list Z :=
  take (Z.to_nat (end_ - begin_)) (drop (Z.to_nat begin_) bytes).

Definition getPropertyValue (decode : list Z -> JSString) (this : t) (index : Z)
  : result JSString :=
  '(stringOffset, stringLength) ←
    BinaryPropertyModels.computeSlice index (Some (_stringOffsetsBuffer this))
      (_stringOffsetType this) None;
  Ok (decode (slice (_valuesBuffer this) stringOffset (stringOffset + stringLength))).

End StringPropertyModel.

(* ===================================================================== *)
(** ** BinaryMetadataEntityModel.ts                                       *)
(* ===================================================================== *)

(** The [PropertyTableModel] interface, as far as the entity model uses it. *)
Module PropertyTableModel.
Record t (Value : Type) : Type := make {
  getClassProperty : string -> option ClassProperty;
  getPropertyTableProperty : string -> option (PropertyTableProperty Value);
  getPropertyModel : string -> option (PropertyModel.t Value) }.
Arguments make {Value}.
Arguments getClassProperty {Value}.
Arguments getPropertyTableProperty {Value}.
Arguments getPropertyModel {Value}.
End PropertyTableModel.

(** [MetadataValues.processValue], whose file is not among the sources:
    the post-processing of a raw value with the offset and scale overrides. *)
Class MetadataValues (Value : Type) : Type := {
  processValue : ClassProperty -> option Value -> option Value -> Value -> result Value
}.

Module BinaryMetadataEntityModel.

Record t (Value : Type) : Type := make {
  _propertyTableModel : PropertyTableModel.t Value;
  _entityIndex : Z;
  _semanticToPropertyId : gmap string string }.
Arguments make {Value}.
Arguments _propertyTableModel {Value}.
Arguments _entityIndex {Value}.
Arguments _semanticToPropertyId {Value}.

Definition getPropertyValue {Value : Type} `{MetadataValues Value}
    (this : t Value) (propertyId : string) : result Value :=
  let propertyTableModel := _propertyTableModel this in
  match PropertyTableModel.getClassProperty propertyTableModel propertyId with
  | None =>
      Throw (MetadataError ("The class does not define a property " ++ propertyId))
  | Some classProperty =>
      match PropertyTableModel.getPropertyTableProperty propertyTableModel propertyId with
      | None =>
          Throw (MetadataError
                   ("The property table does not define a property " ++ propertyId))
      | Some propertyTableProperty =>
          match PropertyTableModel.getPropertyModel propertyTableModel propertyId with
          | None =>
              Throw (MetadataError
                       ("The property table does not define a property model for "
                          ++ propertyId))
          | Some propertyModel =>
              value ← PropertyModel.getPropertyValue propertyModel (_entityIndex this);
              let offsetOverride := offset propertyTableProperty in
              let scaleOverride := scale propertyTableProperty in
              processValue classProperty offsetOverride scaleOverride value
          end
      end
  end.


End BinaryMetadataEntityModel.

(* ===================================================================== *)
(** ** StringArrayPropertyModel.ts                                        *)
(* ===================================================================== *)

Module StringArrayPropertyModel.

Record t : Type := make {
  _valuesBuffer : Buffer;
  _arrayOffsetsBuffer : option Buffer;
  _arrayOffsetType : string;
  _stringOffsetsBuffer : Buffer;
  _stringOffsetType : string;
  _count : option Z }.

(** [new Array(arrayLength)]: a RangeError unless the length is an integer
    from 0 to 2^32 - 1. *)
Definition newArray (arrayLength : Z) : result nat :=
  if (0 <=? arrayLength) && (arrayLength <? 2 ^ 32) then Ok (Z.to_nat arrayLength)
  else Throw RangeError.

(** The body of the loop: element [i] of the row. *)
Definition element (decode : list Z -> JSString) (this : t) (arrayOffset : Z) (i : nat)
  : result JSString :=
  let n := arrayOffset + Z.of_nat i in
  '(stringOffset, stringLength) ←
    BinaryPropertyModels.computeSlice n (Some (_stringOffsetsBuffer this))
      (_stringOffsetType this) None;
  Ok (decode (StringPropertyModel.slice (_valuesBuffer this) stringOffset
                (stringOffset + stringLength))).

Definition getPropertyValue (decode : list Z -> JSString) (this : t) (index : Z)
  : result (list JSString) :=
  '(arrayOffset, arrayLength) ←
    BinaryPropertyModels.computeSlice index (_arrayOffsetsBuffer this)
      (_arrayOffsetType this) (_count this);
  length ← newArray arrayLength;
  BinaryPropertyTables.mapM (element decode this arrayOffset) (seq 0 length).

End StringArrayPropertyModel.

(* ===================================================================== *)
(** ** BinaryPropertyTables.ts: the schema and table builders             *)
(* ===================================================================== *)

(** [structure/Metadata/MetadataClass], the whole [Schema] document (the
    record [Schema] above is its [enums] member, which is all that the
    buffer builders read), and [structure/PropertyTable]. *)
Record MetadataClass : Type := mkMetadataClass {
  className : option string;
  classProperties : option (gmap string ClassProperty) }.

Record SchemaDocument : Type := mkSchemaDocument {
  schemaId : string;
  schemaName : option string;
  schemaClasses : option (gmap string MetadataClass);
  schemaEnums : option (gmap string MetadataEnum) }.

Record PropertyTable : Type := mkPropertyTable {
  tableName : option string;
  tableClass : string;
  tableCount : Z;
  tableProperties : gmap string (PropertyTableProperty JValue) }.

(** [BinaryBuffers.createBinaryBufferStructure] and
    [MetadataUtilities.computeBinaryEnumInfo], whose files are not among
    the sources: what they return for the created buffers and for the
    schema.  (The first also fills the buffer data that it is handed.) *)
Class TableAssembly (Structure Data EnumInfo : Type) : Type := {
  createBinaryBufferStructure : list Buffer -> Structure * Data;
  computeBinaryEnumInfo : SchemaDocument -> EnumInfo
}.

Record BinaryPropertyTable (Structure Data EnumInfo : Type) : Type :=
  mkBinaryPropertyTable {
    metadataClass : MetadataClass;
    propertyTable : PropertyTable;
    binaryEnumInfo : EnumInfo;
    binaryBufferStructure : Structure;
    binaryBufferData : Data }.
Arguments mkBinaryPropertyTable {Structure Data EnumInfo}.
Arguments metadataClass {Structure Data EnumInfo}.
Arguments propertyTable {Structure Data EnumInfo}.
Arguments binaryEnumInfo {Structure Data EnumInfo}.
Arguments binaryBufferStructure {Structure Data EnumInfo}.
Arguments binaryBufferData {Structure Data EnumInfo}.

(** The dictionaries that the builders fill are plain objects, filled by
    assignment.  (Assigning to the name [__proto__] stores the value as the
    prototype of the dictionary, where a lookup of that name finds it: for
    the lookups of this file it is the same as a property of its own.) *)
Module BinaryPropertyTableBuilders.

Import BinaryPropertyTables.

Definition asSchema (schema : SchemaDocument) : Schema :=
  mkSchema (schemaEnums schema).

Definition createMetadataClassFromClassProperty (propertyName : string)
    (classProperty : ClassProperty) : MetadataClass :=
  mkMetadataClass (Some "testMetadataClass"%string)
    (Some {[ propertyName := classProperty ]}).

Definition createSchemaFromMetadataClass (className : string)
    (metadataClass : MetadataClass) : SchemaDocument :=
  mkSchemaDocument "testMetadataMetadataSchemaId" (Some "testMetadataSchema"%string)
    (Some {[ className := metadataClass ]}) None.

Definition createPropertyTableFromProperty (className propertyName : string)
    (count : Z) (propertyTableProperty : PropertyTableProperty JValue) : PropertyTable :=
  mkPropertyTable (Some "testPropertyTable"%string) className count
    {[ propertyName := propertyTableProperty ]}.

Definition createSchemaFromClassProperty (propertyName : string)
    (classProperty : ClassProperty) (metadataEnum : option MetadataEnum)
  : SchemaDocument :=
  let className := "testMetadataClass"%string in
  let metadataClass := createMetadataClassFromClassProperty propertyName classProperty in
  let schema := createSchemaFromMetadataClass className metadataClass in
  match metadataEnum with
  | Some metadataEnum =>
      mkSchemaDocument (schemaId schema) (schemaName schema) (schemaClasses schema)
        (Some {[ "testMetadataEnum"%string := metadataEnum ]})
  | None => schema
  end.

(** [createBinaryPropertyTable].  The classes of the schema and the
    properties of a class are plain objects.  A class name that names an
    inherited member finds that member, which has no [properties].  A
    property name that names an inherited member finds that member, which
    has no type, no enum type and no component type: building its values
    buffer ends in [createBuffer] with the component type [undefined]. *)
Definition createBinaryPropertyTable {Structure Data EnumInfo : Type}
    `{StringCoercions} `{TableAssembly Structure Data EnumInfo}
    (schema : SchemaDocument) (className propertyName : string) (values : list JValue)
    (arrayOffsetType stringOffsetType : option string)
  : result (BinaryPropertyTable Structure Data EnumInfo) :=
  match schemaClasses schema with
  | None => Throw (MetadataError "The schema does not define any classes")
  | Some classes =>
      match member classes className with
      | Undefined =>
          Throw (MetadataError ("The schema does not define the class " ++ className))
      | Inherited _ =>
          Throw (MetadataError ("The schema class " ++ className
                                  ++ " does not define any properties"))
      | Own metadataClass =>
          match classProperties metadataClass with
          | None =>
              Throw (MetadataError ("The schema class " ++ className
                                      ++ " does not define any properties"))
          | Some classProperties =>
              match member classProperties propertyName with
              | Undefined =>
                  Throw (MetadataError ("The schema class " ++ className
                                          ++ " does not define property " ++ propertyName))
              | Inherited _ =>
                  Throw (MetadataError "undefined is not a valid component type")
              | Own classProperty =>
                  '(propertyTableProperty, createdBufferViewsData) ←
                    createPropertyTableProperty classProperty (asSchema schema) values
                      arrayOffsetType stringOffsetType [];
                  let count := Z.of_nat (length values) in
                  let propertyTable :=
                    createPropertyTableFromProperty className propertyName count
                      propertyTableProperty in
                  let '(binaryBufferStructure, binaryBufferData) :=
                    createBinaryBufferStructure createdBufferViewsData in
                  let binaryEnumInfo := computeBinaryEnumInfo schema in
                  Ok (mkBinaryPropertyTable metadataClass propertyTable binaryEnumInfo
                        binaryBufferStructure binaryBufferData)
              end
          end
      end
  end.

Definition createBinaryPropertyTableFromProperty {Structure Data EnumInfo : Type}
    `{StringCoercions} `{TableAssembly Structure Data EnumInfo}
    (propertyName : string) (classProperty : ClassProperty) (values : list JValue)
    (arrayOffsetType stringOffsetType : option string)
    (metadataEnum : option MetadataEnum)
  : result (BinaryPropertyTable Structure Data EnumInfo) :=
  let schema := createSchemaFromClassProperty propertyName classProperty metadataEnum in
  let className := "testMetadataClass"%string in
  createBinaryPropertyTable schema className propertyName values
    arrayOffsetType stringOffsetType.

End BinaryPropertyTableBuilders.

(* ===================================================================== *)
(** ** getJsonBufferPadded.js                                             *)
(* ===================================================================== *)

(** The JSON object is a dictionary; [stringify] is [JSON.stringify].  The
    byte offset is an integer, and [%] is the remainder that takes the sign
    of the dividend.  The padding is made of spaces (code unit 32). *)
Module JsonBuffers.

Definition getJsonBufferPadded {J : Type} (stringify : gmap string J -> JSString)
    (json : option (gmap string J)) (byteOffset : option Z) : Buffer :=
  let byteOffset := default 0 byteOffset in
  match json with
  | None => []
  | Some object =>
      if (size object =? 0)%nat then []
      else
        let string := stringify object in
        let boundary := 8 in
        let byteLength := Z.of_nat (length (BinaryPropertyTables.encode string)) in
        let remainder := Z.rem (byteOffset + byteLength) boundary in
        let padding := if remainder =? 0 then 0 else boundary - remainder in
        let whitespace : JSString := replicate (Z.to_nat padding) 32 in
        BinaryPropertyTables.encode (string ++ whitespace)
  end.

End JsonBuffers.

(* ===================================================================== *)
(** ** An instance of the external functions, for concrete evaluation     *)
(* ===================================================================== *)

(** The closed examples below need concrete external functions.  This
    instance computes integer powers exactly by repeated multiplication,
    reads a token as the hexadecimal digits of an identifier, padded with
    zeros to sixteen digits, and lays S2 cell identifiers out as the S2
    geometry library does: 3 face bits, two position bits per level, a
    marker bit. *)
Module Sample.

Definition powInt (base exponent : float) : float :=
  match BigInt exponent with
  | Ok (Z.pos n) => Pos.iter (fun acc => (acc * base)%float) 1%float n
  | Ok (Z.neg n) => (1 / Pos.iter (fun acc => (acc * base)%float) 1%float n)%float
  | Ok Z0 => 1%float
  | Throw _ => nan
  end.

Definition hexDigit (c : ascii) : option Z :=
  let n := Z.of_nat (nat_of_ascii c) in
  if (48 <=? n) && (n <=? 57) then Some (n - 48)
  else if (97 <=? n) && (n <=? 102) then Some (n - 87)
  else if (65 <=? n) && (n <=? 70) then Some (n - 55)
  else None.

Fixpoint parseHex (s : string) (acc : Z) : option Z :=
  match s with
  | EmptyString => Some acc
  | String c rest =>
      match hexDigit c with
      | Some d => parseHex rest (16 * acc + d)
      | None => None
      end
  end.

Definition getIdFromToken (tok : string) : result Z :=
  let n := String.length tok in
  if (n <=? 16)%nat then
    match parseHex tok 0 with
    | Some v => Ok (Z.shiftl v (4 * Z.of_nat (16 - n)))
    | None => Throw SyntaxError
    end
  else Throw RangeError.

Definition fromFacePositionLevel (face position : Z) (level : float) : result Z :=
  match BigInt level with
  | Ok l =>
      if (0 <=? face) && (face <? 6) && (0 <=? l) && (l <=? 30)
         && (0 <=? position) && (position <? 4 ^ l)
      then Ok (Z.lor (Z.lor (Z.shiftl face 61)
                            (Z.shiftl position (2 * (30 - l) + 1)))
                     (Z.shiftl 1 (2 * (30 - l))))
      else Throw (DeveloperError "invalid cell")
  | Throw e => Throw e
  end.

Definition hexChar (d : Z) : ascii :=
  ascii_of_nat (Z.to_nat (if d <? 10 then 48 + d else 87 + d)).

Fixpoint hexDigits (n : nat) (v : Z) : list Z :=
  match n with
  | O => []
  | S n' => hexDigits n' (v / 16) ++ [v mod 16]
  end.

Fixpoint dropTrailingZeros (ds : list Z) : list Z :=
  match ds with
  | [] => []
  | d :: rest =>
      match dropTrailingZeros rest with
      | [] => if d =? 0 then [] else [d]
      | rest' => d :: rest'
      end
  end.

Definition getTokenFromId (cellId : Z) : string :=
  match dropTrailingZeros (hexDigits 16 cellId) with
  | [] => "X"
  | ds => string_of_list_ascii (map hexChar ds)
  end.

(** The Hilbert index of (x, y) in a 2^level by 2^level grid. *)
Fixpoint hilbert (bits : nat) (n x y d : Z) : Z :=
  match bits with
  | O => d
  | S bits' =>
      let s := 2 ^ Z.of_nat bits' in
      let rx := if 0 <? Z.land x s then 1 else 0 in
      let ry := if 0 <? Z.land y s then 1 else 0 in
      let d := d + s * s * Z.lxor (3 * rx) ry in
      let '(x, y) :=
        if ry =? 0
        then (let '(x, y) := if rx =? 1 then (n - 1 - x, n - 1 - y) else (x, y) in
              (y, x))
        else (x, y) in
      hilbert bits' n x y d
  end.

Definition encode2D (level x y : float) : result float :=
  match BigInt level, BigInt x, BigInt y with
  | Ok l, Ok xv, Ok yv =>
      if (1 <=? l) && (l <=? 26) && (0 <=? xv) && (xv <? 2 ^ l)
         && (0 <=? yv) && (yv <? 2 ^ l)
      then Ok (SF2Prim (binary_normalize prec emax
                          (hilbert (Z.to_nat l) (2 ^ l) xv yv 0) 0 false))
      else Throw (DeveloperError "invalid coordinates")
  | _, _, _ => Throw (DeveloperError "invalid coordinates")
  end.

#[export] Instance externals : Externals := {|
  Math_pow := powInt;
  S2Cell_getIdFromToken := getIdFromToken;
  S2Cell_fromFacePositionLevel := fromFacePositionLevel;
  S2Cell_getTokenFromId := getTokenFromId;
  HilbertOrder_encode2D := encode2D
|}.

(** String coercions for the closed examples: a string of decimal digits
    is the number it spells, any other string is not a number, and an
    integer is printed with all its decimal digits (as JavaScript prints
    the integers of the examples, which are small). *)
Fixpoint parseDecimal (s : JSString) (acc : Z) : option Z :=
  match s with
  | [] => Some acc
  | n :: rest =>
      if (48 <=? n) && (n <=? 57) then parseDecimal rest (10 * acc + (n - 48))
      else None
  end.

#[export] Instance coercions : StringCoercions := {|
  Number_ofString := fun s =>
    match parseDecimal s 0 with Some z => Int z | None => NaN end;
  BigInt_ofString := fun s =>
    match s, parseDecimal s 0 with
    | _ :: _, Some z => Ok z
    | _, _ => Throw SyntaxError
    end;
  Number_toString := fun z => str (NilZero.string_of_int (Z.to_int z))
|}.


(** An enum whose codes differ from the positions of its values. *)
Definition colorEnum : MetadataEnum :=
  mkMetadataEnum None [mkEnumValue "RED" 10; mkEnumValue "GREEN" 20].

Definition colorSchema : Schema :=
  mkSchema (Some {[ "testMetadataEnum"%string := colorEnum ]}).

Definition colorProperty : ClassProperty :=
  mkClassProperty "ENUM" None (Some "testMetadataEnum"%string) false None.


(** [TextDecoder.decode] on the bytes of an ASCII text: every byte is a
    code unit. *)
Definition decodeBytes (bytes : list Z) : JSString := bytes.

Definition nameProperty : ClassProperty :=
  mkClassProperty "STRING" None None false None.


(** Volumes of the examples: S2 root cells of face 0 (token "1") and of
    face 1 (token "3"), a box, two regions and a sphere. *)
Definition evenFaceCell : BoundingVolumeS2 := mkBoundingVolumeS2 "1" 0 10.
Definition oddFaceCell : BoundingVolumeS2 := mkBoundingVolumeS2 "3" 0 10.
Definition unitBox : list float := [0; 0; 0; 10; 0; 0; 0; 10; 0; 0; 0; 10]%float.
Definition someRegion : list float := [-1; -0.5; 1; 0.5; 0; 100]%float.
Definition wideRegion : list float := [4; 0; 0; 0; 0; 0]%float.

(** A region across the antimeridian (its east is less than its west), and
    the region of the whole globe. *)
Definition dateLineRegion : list float := [3; -0.5; -3; 0.5; 0; 100]%float.
Definition globe : list float := [- PI; - (PI / 2); PI; PI / 2; 0; 100]%float.
Definition someSphere : list float := [0; 0; 0; 5]%float.

(** Columns whose values buffer and string offsets disagree: a surrogate
    pair that is split over two strings, and a [null] between two strings. *)
Definition splitPairValues : list JValue :=
  [JLeaf (LString [55357; 56832]); JLeaf (LString "xyz")].
Definition splitPairParts : list JValue :=
  [JLeaf (LString [55357]); JLeaf (LString [56832]); JLeaf (LString "xyz")].
Definition nullValues : list JValue :=
  [JLeaf (LString "ab"); JLeaf LNull; JLeaf (LString "cde")].

(** A row of [n] elements of a variable-length array column. *)
Definition rowOf (n : nat) : JValue := JArray (replicate n (JLeaf (LNumber (Int 0)))).



(** An enum whose codes are the positions of its values, stored as bytes,
    a schema that defines it, and a property of that enum type. *)
Definition orderedEnum : MetadataEnum :=
  mkMetadataEnum (Some "UINT8"%string) [mkEnumValue "A" 0; mkEnumValue "B" 1].

Definition orderedSchema : Schema :=
  mkSchema (Some {[ "letters"%string := orderedEnum ]}).

Definition letterProperty : ClassProperty :=
  mkClassProperty "ENUM" None (Some "letters"%string) false None.

(** A property whose enum type is the name of a member that every object
    inherits. *)
Definition inheritedEnumProperty : ClassProperty :=
  mkClassProperty "ENUM" None (Some "constructor"%string) false None.

(** A column of two strings, and the rows of a column of string arrays. *)
Definition nameValues : list JValue := [JLeaf (LString "ab"); JLeaf (LString "cde")].

Definition tagRows : list (list Leaf) := [[LString "a"; LString "bc"]; []; [LString "d"]].

(** Assembly of the created buffers for the closed examples: the structure
    lists the byte length of each buffer, the data are the buffers, and the
    enum info maps each enum of the schema to its value type. *)
#[export] Instance assembly : TableAssembly (list nat) (list Buffer) (gmap string string) := {|
  createBinaryBufferStructure := fun buffers => (map length buffers, buffers);
  computeBinaryEnumInfo := fun schema =>
    (fun e => default "UINT16"%string (enumValueType e)) <$> default ∅ (schemaEnums schema)
|}.

(** A JSON text for the closed examples: the keys of the object, in
    braces. *)
Definition stringify (object : gmap string Z) : JSString :=
  str ("{" +:+ String.concat "," (map fst (map_to_list object)) +:+ "}").

End Sample.

(* ===================================================================== *)
(** ** What the specification says about the derivation                   *)
(* ===================================================================== *)

(** The child box as the specification words it: vectors are lists of
    three numbers, the half-axis matrix is given by its three columns. *)
Module BoxSpec.

Local Open Scope float_scope.

Definition vadd (u v : list float) : list float := zip_with add u v.

Definition vscale (v : list float) (k : float) : list float :=
  map (fun c => c * k) v.

(** The matrix with columns [a0 a1 a2], applied to the vector [o]. *)
Definition applyColumns (a0 a1 a2 : list float) (o : list float) : list float :=
  vadd (vadd (vscale a0 (index o 0)) (vscale a1 (index o 1)))
       (vscale a2 (index o 2)).

Definition modelSpaceOffset (scale : float) (x y : float) (z : option float)
  : list float :=
  [ -1 + (2 * x + 1) * scale;
    -1 + (2 * y + 1) * scale;
    match z with Some zv => -1 + (2 * zv + 1) * scale | None => 0 end ].

Definition scaleFactors (scale : float) (z : option float) : list float :=
  [ scale; scale; match z with Some _ => scale | None => 1 end ].

Definition childBox `{Externals} (center a0 a1 a2 : list float)
    (level x y : float) (z : option float) : list float :=
  let scale := Math_pow 2 (- level) in
  let s := scaleFactors scale z in
  vadd (applyColumns a0 a1 a2 (modelSpaceOffset scale x y z)) center
    ++ vscale a0 (index s 0) ++ vscale a1 (index s 1) ++ vscale a2 (index s 2).

End BoxSpec.

(** The value of a finite binary64 number, in units of 2^-1074 (the least
    positive number): an integer, since no finite number has a smaller
    exponent.  Zeros have the value 0 (as, for totality, do NaN and the
    infinities, which [SFfin] excludes). *)
Definition SFval (f : spec_float) : Z :=
  match f with
  | S754_finite s m e => (if s then - Z.pos m else Z.pos m) * 2 ^ (e + 1074)
  | _ => 0
  end.

Definition SFfin (f : spec_float) : bool :=
  match f with
  | S754_finite _ _ _ | S754_zero _ => true
  | _ => false
  end.

Definition val (x : float) : Z := SFval (Prim2SF x).

(** A mantissa and an exponent as binary64 stores them: 53 digits, or
    fewer digits at the least exponent. *)
Definition canonical (m : positive) (e : Z) : Prop :=
  canonical_mantissa prec emax m e = true.

(** The interval [-PI, PI] of JavaScript numbers. *)
Definition inMinusPiToPi (v : float) : Prop :=
  (- PI <=? v)%float = true /\ (v <=? PI)%float = true.

(** The four longitude and latitude entries of a region. *)
Definition lonLat (r : list float) : list float := take 4 r.

(** The angles that the derivation of a region renormalises, in the order
    west, south, east, north: the west and south of the child, and its east
    and north from the renormalised west and south. *)
Definition renormalisedAngles `{Externals} (root : list float) (level x y : float)
  : list float :=
  let rectangle := Rectangle_unpack root 0 in
  let tileScale := Math_pow 2 (- level)%float in
  let childWidth := (tileScale * Rectangle_width rectangle)%float in
  let childHeight := (tileScale * Rectangle_height rectangle)%float in
  let westAngle := (west rectangle + x * childWidth)%float in
  let southAngle := (south rectangle + y * childHeight)%float in
  [westAngle; southAngle;
   (negativePiToPi westAngle + childWidth)%float;
   (negativePiToPi southAngle + childHeight)%float].

(** The volume that the dispatch of [deriveBoundingVolume] selects from a
    root: the S2 extension if present, else the region, else the box. *)
Definition selectedVolume (root : BoundingVolume) : option BoundingVolume :=
  match BoundingVolumeDerivation.hasExtension root BoundingVolumeDerivation.S2_EXTENSION with
  | Some e => Some (BoundingVolumeDerivation.s2Volume e)
  | None =>
      match region root with
      | Some r => Some (BoundingVolumeDerivation.regionVolume r)
      | None =>
          match box root with
          | Some b => Some (BoundingVolumeDerivation.boxVolume b)
          | None => None
          end
      end
  end.

(** The coordinates that [deriveBoundingVolume] reads from the tuple. *)
Definition levelOf (coords : list float) : float := index coords 0.
Definition xOf (coords : list float) : float := index coords 1.
Definition yOf (coords : list float) : float := index coords 2.
Definition zOf (coords : list float) : option float :=
  if (3 <? length coords)%nat then Some (index coords 3) else None.

(** The cell that the specification describes for an S2 child: built from
    the face, the Hilbert position of the two given coordinates, and the level. *)
Definition s2ChildCell `{Externals} (face : Z) (level a b : float) : result Z :=
  position ← HilbertOrder_encode2D level a b;
  bigPosition ← BigInt position;
  S2Cell_fromFacePositionLevel face bigPosition level.

(** The sum of a list of counts, the cumulative counts that the
    specification describes (entry [i] is the sum of the first [i] counts),
    and what it means for the entries of a buffer not to decrease. *)
Definition sumZ (l : list Z) : Z := foldr Z.add 0 l.

Definition cumulative (counts : list Z) : list Z :=
  map (fun i => sumZ (take i counts)) (seq 0 (S (length counts))).

Definition nondecreasing (es : list Z) : Prop :=
  forall i a b, es !! i = Some a -> es !! S i = Some b -> a <= b.

(** A buffer holds the offsets of the given counts at the given width:
    one entry more than there are counts, the entries are the cumulative
    counts, the first is 0, no entry is less than the one before it, and
    consecutive entries differ by the count between them. *)
Definition holdsOffsets (width : nat) (counts : list Z) (buffer : Buffer) : Prop :=
  let es := TypedArrays.entries width (S (length counts)) buffer in
  length buffer = (width * S (length counts))%nat
  /\ es = cumulative counts
  /\ length es = S (length counts)
  /\ es !! 0%nat = Some 0
  /\ nondecreasing es
  /\ (forall i a b, es !! i = Some a -> es !! S i = Some b -> counts !! i = Some (b - a)).

(** What a buffer of offsets holds whatever the counts are: one entry more
    than there are counts, the first is 0, and every entry is the
    cumulative count modulo 2^(8 width). *)
Definition holdsWrappedOffsets (width : nat) (counts : list Z) (buffer : Buffer) : Prop :=
  let es := TypedArrays.entries width (S (length counts)) buffer in
  length buffer = (width * S (length counts))%nat
  /\ length es = S (length counts)
  /\ es !! 0%nat = Some 0
  /\ es = map (fun total => total mod 2 ^ (8 * Z.of_nat width)) (cumulative counts).

(** The bytes of the text of each leaf of a column. *)
Definition textChunks `{StringCoercions} (leaves : list Leaf) : list (list Z) :=
  map (fun leaf => BinaryPropertyTables.encode (BinaryPropertyTables.ToString leaf)) leaves.

(** A string that ends in a high surrogate: joined with a string that
    starts with a low surrogate, the two code units make one code point. *)
Definition endsWithHighSurrogate (s : JSString) : bool :=
  match last s with
  | Some unit => BinaryPropertyTables.isHighSurrogate unit
  | None => false
  end.

(** A leaf whose text is the same in a join and on its own, and cannot
    combine with the text that follows it: it is not [null], and its text
    does not end in a high surrogate. *)
Definition separable `{StringCoercions} (leaf : Leaf) : Prop :=
  leaf <> LNull
  /\ endsWithHighSurrogate (BinaryPropertyTables.ToString leaf) = false.

(** The values of a variable-length string array column: one array of
    strings per row. *)
Definition stringRows (rows : list (list Leaf)) : list JValue :=
  map (fun row => JArray (map JLeaf row)) rows.

(** Bit [p] of a bit-packed buffer: bit [p mod 8] of byte [p / 8]. *)
Definition bitAt (buffer : list Z) (p : nat) : bool :=
  Z.testbit (default 0 (buffer !! (p / 8)%nat)) (Z.of_nat (p mod 8)).

(** The width in bytes of the elements of each of the ten component types. *)
Definition componentByteSize (componentType : string) : option nat :=
  if String.eqb componentType "INT8" then Some 1%nat
  else if String.eqb componentType "UINT8" then Some 1%nat
  else if String.eqb componentType "INT16" then Some 2%nat
  else if String.eqb componentType "UINT16" then Some 2%nat
  else if String.eqb componentType "INT32" then Some 4%nat
  else if String.eqb componentType "UINT32" then Some 4%nat
  else if String.eqb componentType "INT64" then Some 8%nat
  else if String.eqb componentType "UINT64" then Some 8%nat
  else if String.eqb componentType "FLOAT32" then Some 4%nat
  else if String.eqb componentType "FLOAT64" then Some 8%nat
  else None.

Definition isByte (b : Z) : Prop := 0 <= b < 256.

(** A buffer of [count] elements of [width] bytes each. *)
Definition packs (width count : nat) (buffer : Buffer) : Prop :=
  length buffer = (width * count)%nat /\ Forall isByte buffer.

(** The code that an enum defines for a name: that of the first value with
    the name. *)
Fixpoint enumCode (enumValues : list EnumValue) (name : JSString) : option Z :=
  match enumValues with
  | [] => None
  | value :: rest =>
      if sameString (enumValueName value) name then Some (enumValueValue value)
      else enumCode rest name
  end.

(** The code of a leaf, and -1 for a leaf that is no name of the enum. *)
Definition leafCode (enumValues : list EnumValue) (leaf : Leaf) : Z :=
  match leaf with
  | LString name => default (-1) (enumCode enumValues name)
  | _ => -1
  end.

(** What an integer typed array of [width] bytes stores for a number. *)
Definition wrapped (width : nat) (n : number) : Z :=
  match n with
  | Int z => z mod 2 ^ (8 * Z.of_nat width)
  | NaN => 0
  end.

Import BoundingVolumeDerivation.

(* ===================================================================== *)
(** ** Binary64 arithmetic: rounding is monotone                          *)
(* ===================================================================== *)

(** The range of [CesiumMath.negativePiToPi] rests on three facts of
    binary64 arithmetic, proved here from the specification of the
    primitive operations: the comparison of finite numbers is the
    comparison of their values; a sum or a difference that lies between two
    finite numbers rounds to a number between them; and [%] gives a finite
    number that is not greater in magnitude than the divisor. *)

Section Binary64.

Lemma fexp_eq (x : Z) : fexp prec emax x = Z.max (x - 53) (-1074).
Proof. reflexivity. Qed.

Lemma digits2_size (m : positive) : digits2_pos m = Pos.size m.
Proof. induction m; simpl; congruence. Qed.

Lemma digits_bounds (m : positive) :
  2 ^ (Z.pos (digits2_pos m) - 1) <= Z.pos m < 2 ^ Z.pos (digits2_pos m).
Proof.
  rewrite digits2_size. split.
  - pose proof (Pos.size_le m) as Hle.
    apply Pos2Z.pos_le_pos in Hle. rewrite Pos2Z.inj_pow in Hle.
    replace (Z.pos (Pos.size m)) with (Z.succ (Z.pos (Pos.size m) - 1)) in Hle by lia.
    rewrite Z.pow_succ_r in Hle by lia. lia.
  - pose proof (Pos.size_gt m) as Hgt.
    apply Pos2Z.pos_lt_pos in Hgt. now rewrite Pos2Z.inj_pow in Hgt.
Qed.

Lemma canonical_spec (m : positive) (e : Z) :
  canonical m e <-> Z.max (Z.pos (digits2_pos m) + e - 53) (-1074) = e.
Proof.
  unfold canonical, canonical_mantissa. rewrite fexp_eq. apply Z.eqb_eq.
Qed.

Lemma pow2_pos (n : Z) : 0 <= n -> 0 < 2 ^ n.
Proof. intros. apply Z.pow_pos_nonneg; lia. Qed.

Lemma pow2_split (a b : Z) : 0 <= a -> 0 <= b -> 2 ^ (a + b) = 2 ^ a * 2 ^ b.
Proof. intros. apply Z.pow_add_r; lia. Qed.

Lemma canonical_facts (m : positive) (e : Z) :
  canonical m e ->
  -1074 <= e /\ Z.pos m < 2 ^ 53 /\ (-1074 < e -> 2 ^ 52 <= Z.pos m).
Proof.
  intros Hc. apply canonical_spec in Hc.
  pose proof (digits_bounds m) as [Hlow Hhigh].
  assert (Hd : 0 < Z.pos (digits2_pos m)) by lia.
  split; [lia |]. split.
  - eapply Z.lt_le_trans; [exact Hhigh |]. apply Z.pow_le_mono_r; lia.
  - intros He. eapply Z.le_trans; [| exact Hlow]. apply Z.pow_le_mono_r; lia.
Qed.

(** Of two canonical numbers, the one with the smaller exponent is
    smaller. *)
Lemma canonical_lt (m1 m2 : positive) (e1 e2 : Z) :
  canonical m1 e1 -> canonical m2 e2 -> e1 < e2 ->
  Z.pos m1 * 2 ^ (e1 + 1074) < Z.pos m2 * 2 ^ (e2 + 1074).
Proof.
  intros H1 H2 Hlt.
  apply canonical_facts in H1 as (He1 & Hm1 & _).
  apply canonical_facts in H2 as (He2 & _ & Hm2). specialize (Hm2 ltac:(lia)).
  pose proof (pow2_pos (e1 + 1074) ltac:(lia)) as Hp1.
  replace (e2 + 1074) with ((e1 + 1074) + (e2 - e1)) by lia.
  rewrite (pow2_split (e1 + 1074) (e2 - e1)) by lia.
  assert (Hk : 2 <= 2 ^ (e2 - e1)).
  { change 2 with (2 ^ 1) at 1. apply Z.pow_le_mono_r; lia. }
  change (2 ^ 53) with (2 * 2 ^ 52) in Hm1.
  apply Z.lt_le_trans with (2 * 2 ^ 52 * 2 ^ (e1 + 1074)).
  - apply Z.mul_lt_mono_pos_r; assumption.
  - rewrite Z.mul_assoc.
    transitivity (Z.pos m2 * 2 ^ (e1 + 1074) * 2); [nia |].
    apply Z.mul_le_mono_nonneg_l; [nia | exact Hk].
Qed.

Lemma valid_finite (s : bool) (m : positive) (e : Z) :
  valid_binary (S754_finite s m e) = true -> canonical m e /\ e <= 971.
Proof.
  cbn [SpecFloat.valid_binary]. unfold bounded. intros Hb.
  apply andb_true_iff in Hb as [Hc He]. split; [exact Hc |].
  apply Z.leb_le in He. exact He.
Qed.

Lemma unit_pos (m : positive) (e : Z) : -1074 <= e -> 0 < Z.pos m * 2 ^ (e + 1074).
Proof. intros He. pose proof (pow2_pos (e + 1074) ltac:(lia)). nia. Qed.

(** On valid finite numbers, the comparison of binary64 is the comparison
    of the values. *)
Lemma SFcompare_val (x y : spec_float) :
  valid_binary x = true -> valid_binary y = true ->
  SFfin x = true -> SFfin y = true ->
  SFcompare x y = Some (SFval x ?= SFval y).
Proof.
  intros Hx Hy Hfx Hfy.
  destruct x as [sx | sx | | sx mx ex]; try discriminate;
    destruct y as [sy | sy | | sy my ey]; try discriminate.
  - reflexivity.
  - apply valid_finite in Hy as [Hy _]. apply canonical_facts in Hy as (Hy & _).
    pose proof (unit_pos my ey Hy) as Hpos.
    cbn [SFcompare SFval]. f_equal. symmetry.
    destruct sy; [apply Z.compare_gt_iff | apply Z.compare_lt_iff]; lia.
  - apply valid_finite in Hx as [Hx _]. apply canonical_facts in Hx as (Hx & _).
    pose proof (unit_pos mx ex Hx) as Hpos.
    cbn [SFcompare SFval]. f_equal. symmetry.
    destruct sx; [apply Z.compare_lt_iff | apply Z.compare_gt_iff]; lia.
  - apply valid_finite in Hx as [Hx _]. apply valid_finite in Hy as [Hy _].
    pose proof (canonical_facts _ _ Hx) as (Hex & _).
    pose proof (canonical_facts _ _ Hy) as (Hey & _).
    pose proof (unit_pos mx ex Hex) as Hpx. pose proof (unit_pos my ey Hey) as Hpy.
    cbn [SFcompare SFval]. f_equal. symmetry.
    destruct sx, sy.
    + destruct (Z.compare_spec ex ey) as [Heq | Hlt | Hgt].
      * subst ey. change (Pos.compare_cont Eq mx my) with (mx ?= my)%positive.
        rewrite <- Pos.compare_antisym.
        pose proof (pow2_pos (ex + 1074) ltac:(lia)) as Hu.
        destruct (Pos.compare_spec my mx) as [Hm | Hm | Hm].
        -- subst. apply Z.compare_refl.
        -- apply Z.compare_lt_iff. apply Pos2Z.pos_lt_pos in Hm. nia.
        -- apply Z.compare_gt_iff. apply Pos2Z.pos_lt_pos in Hm. nia.
      * apply Z.compare_gt_iff. pose proof (canonical_lt _ _ _ _ Hx Hy Hlt). lia.
      * apply Z.compare_lt_iff. pose proof (canonical_lt _ _ _ _ Hy Hx Hgt). lia.
    + apply Z.compare_lt_iff. lia.
    + apply Z.compare_gt_iff. lia.
    + destruct (Z.compare_spec ex ey) as [Heq | Hlt | Hgt].
      * subst ey. change (Pos.compare_cont Eq mx my) with (mx ?= my)%positive.
        pose proof (pow2_pos (ex + 1074) ltac:(lia)) as Hu.
        destruct (Pos.compare_spec mx my) as [Hm | Hm | Hm].
        -- subst. apply Z.compare_refl.
        -- apply Z.compare_lt_iff. apply Pos2Z.pos_lt_pos in Hm. nia.
        -- apply Z.compare_gt_iff. apply Pos2Z.pos_lt_pos in Hm. nia.
      * apply Z.compare_lt_iff. exact (canonical_lt _ _ _ _ Hx Hy Hlt).
      * apply Z.compare_gt_iff. exact (canonical_lt _ _ _ _ Hy Hx Hgt).
Qed.

Lemma SFleb_val (x y : spec_float) :
  valid_binary x = true -> valid_binary y = true ->
  SFfin x = true -> SFfin y = true ->
  SFleb x y = (SFval x <=? SFval y).
Proof.
  intros Hx Hy Hfx Hfy. unfold SFleb, Z.leb.
  rewrite (SFcompare_val x y Hx Hy Hfx Hfy). now destruct (SFval x ?= SFval y).
Qed.

Lemma SFltb_val (x y : spec_float) :
  valid_binary x = true -> valid_binary y = true ->
  SFfin x = true -> SFfin y = true ->
  SFltb x y = (SFval x <? SFval y).
Proof.
  intros Hx Hy Hfx Hfy. unfold SFltb, Z.ltb.
  rewrite (SFcompare_val x y Hx Hy Hfx Hfy). now destruct (SFval x ?= SFval y).
Qed.

Lemma SFeqb_val (x y : spec_float) :
  valid_binary x = true -> valid_binary y = true ->
  SFfin x = true -> SFfin y = true ->
  SFeqb x y = (SFval x =? SFval y).
Proof.
  intros Hx Hy Hfx Hfy. unfold SFeqb.
  rewrite (SFcompare_val x y Hx Hy Hfx Hfy).
  destruct (Z.compare_spec (SFval x) (SFval y)) as [Heq | Hlt | Hgt]; symmetry.
  - now apply Z.eqb_eq.
  - apply Z.eqb_neq. lia.
  - apply Z.eqb_neq. lia.
Qed.


(** *** Shifting a mantissa to the right *)

Lemma iter_pos_nat {A : Type} (f : A -> A) (p : positive) (x : A) :
  SpecFloat.iter_pos f p x = Nat.iter (Pos.to_nat p) f x.
Proof.
  revert x. induction p as [p IH | p IH |]; intros x; cbn [SpecFloat.iter_pos].
  - rewrite !IH, Pos2Nat.inj_xI, Nat.iter_succ_r.
    replace (2 * Pos.to_nat p)%nat with (Pos.to_nat p + Pos.to_nat p)%nat by lia.
    now rewrite Nat.iter_add.
  - rewrite !IH, Pos2Nat.inj_xO.
    replace (2 * Pos.to_nat p)%nat with (Pos.to_nat p + Pos.to_nat p)%nat by lia.
    now rewrite Nat.iter_add.
  - reflexivity.
Qed.

Lemma shr_1_nonneg (m : Z) (r s : bool) :
  0 <= m ->
  shr_1 {| shr_m := m; shr_r := r; shr_s := s |}
  = {| shr_m := m / 2; shr_r := Z.odd m; shr_s := r || s |}.
Proof.
  intros Hm. rewrite <- Z.div2_div.
  destruct m as [| p | p]; [reflexivity | | lia].
  destruct p; reflexivity.
Qed.

(** After [n] shifts the mantissa is divided by 2^n, and no bit is
    recorded as lost when none was set. *)
Lemma shr_iter (n : nat) (m : Z) :
  0 <= m ->
  let mrs := Nat.iter n shr_1 {| shr_m := m; shr_r := false; shr_s := false |} in
  shr_m mrs = m / 2 ^ Z.of_nat n
  /\ (m mod 2 ^ Z.of_nat n = 0 -> shr_r mrs = false /\ shr_s mrs = false).
Proof.
  intros Hm. induction n as [| n IH].
  - cbn. split; [now rewrite Z.div_1_r | easy].
  - cbn zeta in *. rewrite Nat.iter_succ.
    destruct (Nat.iter n shr_1 _) as [mn rn sn]. cbn [shr_m shr_r shr_s] in IH.
    destruct IH as [Hmn Hexact].
    assert (Hpow : 0 < 2 ^ Z.of_nat n) by (apply pow2_pos; lia).
    assert (Hnonneg : 0 <= mn) by (subst mn; apply Z.div_pos; lia).
    rewrite shr_1_nonneg by exact Hnonneg. cbn [shr_m shr_r shr_s].
    rewrite Nat2Z.inj_succ, Z.pow_succ_r by lia.
    split.
    + subst mn. rewrite Z.div_div by lia. f_equal. lia.
    + intros Hmod. apply Z.mod_divide in Hmod as [k Hk]; [| lia].
      assert (Hm2 : m = (2 * k) * 2 ^ Z.of_nat n) by lia.
      assert (Hmodn : m mod 2 ^ Z.of_nat n = 0).
      { rewrite Hm2. apply Z.mod_mul. lia. }
      destruct (Hexact Hmodn) as [-> ->]. split; [| reflexivity].
      subst mn. rewrite Hm2, Z.div_mul by lia.
      rewrite Z.odd_mul. reflexivity.
Qed.

Lemma shr_spec (m : positive) (e n : Z) :
  (n <= 0 ->
     shr {| shr_m := Z.pos m; shr_r := false; shr_s := false |} e n
     = ({| shr_m := Z.pos m; shr_r := false; shr_s := false |}, e))
  /\ (0 < n ->
      exists mrs,
        shr {| shr_m := Z.pos m; shr_r := false; shr_s := false |} e n = (mrs, e + n)
        /\ shr_m mrs = Z.pos m / 2 ^ n
        /\ (Z.pos m mod 2 ^ n = 0 -> shr_r mrs = false /\ shr_s mrs = false)).
Proof.
  split; intros Hn.
  - destruct n as [| p | p]; [reflexivity | lia | reflexivity].
  - destruct n as [| p | p]; [lia | | lia].
    cbn [shr]. rewrite iter_pos_nat.
    pose proof (shr_iter (Pos.to_nat p) (Z.pos m) ltac:(lia)) as Hiter.
    cbn zeta in Hiter. rewrite positive_nat_Z in Hiter.
    eexists. split; [reflexivity | exact Hiter].
Qed.

(** *** Aligning a mantissa to the left *)

Lemma iter_xO_spec (m d : positive) :
  Z.pos (Pos.iter xO m d) = Z.pos m * 2 ^ Z.pos d
  /\ Z.pos (digits2_pos (Pos.iter xO m d)) = Z.pos (digits2_pos m) + Z.pos d.
Proof.
  induction d as [| d IH] using Pos.peano_ind.
  - cbn [Pos.iter]. rewrite Z.pow_1_r. cbn [digits2_pos]. lia.
  - rewrite Pos.iter_succ, Pos2Z.inj_succ, Z.pow_succ_r by lia.
    cbn [digits2_pos]. destruct IH as [IHv IHd].
    rewrite Pos2Z.inj_xO, IHv, Pos2Z.inj_succ, IHd. lia.
Qed.

Lemma shl_align_spec (mx : positive) (ex ex' : Z) :
  exists mz,
    shl_align mx ex ex' = (mz, Z.min ex ex')
    /\ Z.pos mz = Z.pos mx * 2 ^ (ex - Z.min ex ex')
    /\ Z.pos (digits2_pos mz) + Z.min ex ex' = Z.pos (digits2_pos mx) + ex.
Proof.
  unfold shl_align. destruct (ex' - ex) as [| d | d] eqn:Hd.
  - exists mx. replace (Z.min ex ex') with ex by lia.
    rewrite Z.sub_diag. split; [reflexivity | lia].
  - exists mx. replace (Z.min ex ex') with ex by lia.
    rewrite Z.sub_diag. split; [reflexivity | lia].
  - exists (Pos.iter xO mx d). replace (Z.min ex ex') with ex' by lia.
    destruct (iter_xO_spec mx d) as [Hv Hdig].
    replace (ex - ex') with (Z.pos d) by lia.
    split; [reflexivity | lia].
Qed.

Lemma digits_unique (m : positive) (d : Z) :
  2 ^ (d - 1) <= Z.pos m < 2 ^ d -> Z.pos (digits2_pos m) = d.
Proof.
  intros [Hlow Hhigh]. pose proof (digits_bounds m) as [Hlow' Hhigh'].
  assert (H1 : d - 1 < Z.pos (digits2_pos m)).
  { apply (Z.pow_lt_mono_r_iff 2); lia. }
  assert (H2 : Z.pos (digits2_pos m) - 1 < d).
  { destruct (Z.le_gt_cases d 0) as [Hd | Hd].
    - rewrite (Z.pow_neg_r 2 (d - 1)) in Hlow by lia.
      assert (2 ^ d <= 1).
      { destruct (Z.eq_dec d 0) as [-> | Hne]; [reflexivity |].
        rewrite Z.pow_neg_r by lia. lia. }
      lia.
    - apply (Z.pow_lt_mono_r_iff 2); lia. }
  lia.
Qed.

(** *** Rounding to the nearest number *)

Lemma round_nearest_even_bounds (mrs : shr_record) :
  shr_m mrs <= round_nearest_even (shr_m mrs) (loc_of_shr_record mrs) <= shr_m mrs + 1
  /\ (shr_r mrs = false /\ shr_s mrs = false ->
      round_nearest_even (shr_m mrs) (loc_of_shr_record mrs) = shr_m mrs).
Proof.
  destruct mrs as [q [|] [|]]; cbn [shr_m shr_r shr_s loc_of_shr_record round_nearest_even];
    try destruct (Z.even q); split; try lia; try reflexivity; intros [? ?]; discriminate.
Qed.

(** The second shift of [binary_round_aux] leaves a mantissa of 53 digits
    alone, and halves 2^53. *)
Lemma shr_fexp_canonical (m1 : positive) (E : Z) :
  -1074 <= E ->
  2 ^ 52 <= Z.pos m1 <= 2 ^ 53 ->
  exists (m' : positive) (e' : Z) (mrs : shr_record),
    shr_fexp prec emax (Z.pos m1) E loc_Exact = (mrs, e')
    /\ shr_m mrs = Z.pos m'
    /\ canonical m' e'
    /\ Z.pos m' * 2 ^ (e' + 1074) = Z.pos m1 * 2 ^ (E + 1074).
Proof.
  intros HE [Hlow Hhigh]. unfold shr_fexp. cbn [Zdigits2 shr_record_of_loc].
  rewrite (fexp_eq (Z.pos (digits2_pos m1) + E)).
  destruct (Z.eq_dec (Z.pos m1) (2 ^ 53)) as [Heq | Hne].
  - assert (Hd : Z.pos (digits2_pos m1) = 54).
    { apply digits_unique. rewrite Heq. split; [reflexivity | reflexivity]. }
    rewrite Hd. replace (Z.max (54 + E - 53) (-1074) - E) with 1 by lia.
    injection Heq as ->.
    exists (Z.to_pos (2 ^ 52)), (E + 1). eexists. split; [reflexivity |].
    split; [reflexivity |]. split.
    + apply canonical_spec.
      replace (Z.pos (digits2_pos (Z.to_pos (2 ^ 52)))) with 53 by reflexivity. lia.
    + replace (E + 1 + 1074) with (1 + (E + 1074)) by lia.
      rewrite pow2_split by lia.
      change (Z.pos (Z.to_pos (2 ^ 52))) with (2 ^ 52).
      change (Z.pos (Z.to_pos (2 ^ 53))) with (2 ^ 53).
      change (2 ^ 53) with (2 ^ 52 * 2 ^ 1). lia.
  - assert (Hd : Z.pos (digits2_pos m1) = 53).
    { apply digits_unique. change (53 - 1) with 52. lia. }
    rewrite Hd. replace (Z.max (53 + E - 53) (-1074) - E) with 0 by lia.
    exists m1, E. eexists. split; [reflexivity |]. split; [reflexivity |].
    split; [| reflexivity].
    apply canonical_spec. rewrite Hd. lia.
Qed.

Lemma binary_round_spec (s : bool) (m : positive) (e : Z) :
  -1074 <= e ->
  exists (m' : positive) (e' : Z),
    canonical m' e'
    /\ binary_round prec emax s m e
       = (if e' <=? 971 then S754_finite s m' e' else S754_infinity s)
    /\ (Z.pos m' * 2 ^ (e' + 1074) = Z.pos m * 2 ^ (e + 1074)
        \/ exists q E,
             2 ^ 52 <= q /\ -1074 <= E
             /\ q * 2 ^ (E + 1074) < Z.pos m * 2 ^ (e + 1074) < (q + 1) * 2 ^ (E + 1074)
             /\ q * 2 ^ (E + 1074) <= Z.pos m' * 2 ^ (e' + 1074)
                <= (q + 1) * 2 ^ (E + 1074)).
Proof.
  intros He. unfold binary_round.
  destruct (shl_align_spec m e (fexp prec emax (Z.pos (digits2_pos m) + e)))
    as (mz & Halign & Hmz & Hdz).
  rewrite Halign. rewrite fexp_eq in *.
  set (ez := Z.min e (Z.max (Z.pos (digits2_pos m) + e - 53) (-1074))) in *.
  assert (Hez : -1074 <= ez) by lia.
  assert (HX : Z.pos mz * 2 ^ (ez + 1074) = Z.pos m * 2 ^ (e + 1074)).
  { rewrite Hmz, <- Z.mul_assoc, <- pow2_split by lia. do 2 f_equal. lia. }
  rewrite <- HX. clear HX Hmz Halign.
  set (E := Z.max (Z.pos (digits2_pos mz) + ez - 53) (-1074)).
  assert (HEz : ez <= E) by lia.
  destruct (shr_spec mz ez (E - ez)) as [Hzero Hshift].
  destruct (Z.eq_dec E ez) as [Heq | Hne].
  - specialize (Hzero ltac:(lia)).
    exists mz, ez. split; [apply canonical_spec; fold E; lia |].
    split; [| now left].
    unfold binary_round_aux, shr_fexp. cbn [Zdigits2 shr_record_of_loc].
    rewrite (fexp_eq (Z.pos (digits2_pos mz) + ez)). fold E.
    rewrite Hzero. cbv beta iota.
    cbn [shr_m loc_of_shr_record round_nearest_even Zdigits2 shr_record_of_loc].
    rewrite (fexp_eq (Z.pos (digits2_pos mz) + ez)). fold E.
    rewrite Hzero. reflexivity.
  - destruct (Hshift ltac:(lia)) as (mrs & Hfirst & Hq & Hexact).
    replace (ez + (E - ez)) with E in Hfirst by lia.
    assert (HE : E = Z.pos (digits2_pos mz) + ez - 53) by lia.
    set (n := E - ez) in *.
    assert (Hn : 0 < n) by lia.
    pose proof (digits_bounds mz) as [Hdlow Hdhigh].
    assert (Hpn : 0 < 2 ^ n) by (apply pow2_pos; lia).
    assert (Hlow : 2 ^ 52 * 2 ^ n <= Z.pos mz).
    { rewrite <- pow2_split by lia. eapply Z.le_trans; [| exact Hdlow].
      apply Z.pow_le_mono_r; lia. }
    assert (Hhigh : Z.pos mz < 2 ^ 53 * 2 ^ n).
    { rewrite <- pow2_split by lia. eapply Z.lt_le_trans; [exact Hdhigh |].
      apply Z.pow_le_mono_r; lia. }
    assert (Hqlow : 2 ^ 52 <= shr_m mrs).
    { rewrite Hq. apply Z.div_le_lower_bound; lia. }
    assert (Hqhigh : shr_m mrs < 2 ^ 53).
    { rewrite Hq. apply Z.div_lt_upper_bound; lia. }
    destruct (round_nearest_even_bounds mrs) as [Hm1 Hm1exact].
    set (m1 := round_nearest_even (shr_m mrs) (loc_of_shr_record mrs)) in *.
    assert (Hm1pos : m1 = Z.pos (Z.to_pos m1)).
    { rewrite Z2Pos.id; [reflexivity |]. assert (0 < 2 ^ 52) by reflexivity. lia. }
    destruct (shr_fexp_canonical (Z.to_pos m1) E ltac:(lia)) as
      (m' & e' & mrs' & Hsecond & Hm' & Hcanon & Hvalue).
    { rewrite <- Hm1pos. lia. }
    rewrite <- Hm1pos in Hsecond, Hvalue.
    exists m', e'. split; [exact Hcanon |]. split.
    { unfold binary_round_aux. unfold shr_fexp at 1.
      cbn [Zdigits2 shr_record_of_loc].
      rewrite (fexp_eq (Z.pos (digits2_pos mz) + ez)). fold E. fold n.
      rewrite Hfirst. cbv beta iota. fold m1. rewrite Hsecond. cbv beta iota.
      rewrite Hm'. reflexivity. }
    rewrite Hvalue.
    assert (Hu : 2 ^ (E + 1074) = 2 ^ n * 2 ^ (ez + 1074)).
    { rewrite <- pow2_split by lia. f_equal. lia. }
    assert (Hpz : 0 < 2 ^ (ez + 1074)) by (apply pow2_pos; lia).
    pose proof (Z.div_mod (Z.pos mz) (2 ^ n) ltac:(lia)) as Hdivmod.
    pose proof (Z.mod_pos_bound (Z.pos mz) (2 ^ n) Hpn) as Hmod.
    rewrite <- Hq in Hdivmod.
    destruct (Z.eq_dec (Z.pos mz mod 2 ^ n) 0) as [Hr | Hr].
    + left. rewrite (Hm1exact (Hexact Hr)), Hu. nia.
    + right. exists (shr_m mrs), E. split; [exact Hqlow |]. split; [lia |].
      rewrite Hu. split; nia.
Qed.

(** No canonical number lies strictly between two neighbours of 53
    digits. *)
Lemma canonical_gap (mw : positive) (ew q E : Z) :
  canonical mw ew -> 2 ^ 52 <= q -> -1074 <= E ->
  Z.pos mw * 2 ^ (ew + 1074) <= q * 2 ^ (E + 1074)
  \/ (q + 1) * 2 ^ (E + 1074) <= Z.pos mw * 2 ^ (ew + 1074).
Proof.
  intros Hc Hq HE. pose proof (canonical_facts _ _ Hc) as (Hew & Hmw & _).
  pose proof (pow2_pos (E + 1074) ltac:(lia)) as Hu.
  destruct (Z.le_gt_cases E ew) as [Hge | Hlt].
  - replace (ew + 1074) with ((ew - E) + (E + 1074)) by lia.
    rewrite (pow2_split (ew - E) (E + 1074)) by lia. rewrite Z.mul_assoc.
    destruct (Z.le_gt_cases (Z.pos mw * 2 ^ (ew - E)) q) as [Hle | Hgt].
    + left. apply Z.mul_le_mono_nonneg_r; lia.
    + right. apply Z.mul_le_mono_nonneg_r; lia.
  - left. pose proof (pow2_pos (ew + 1074) ltac:(lia)) as Hw.
    transitivity (2 ^ 52 * 2 ^ (E + 1074)); [| apply Z.mul_le_mono_nonneg_r; lia].
    replace (E + 1074) with ((ew + 1074) + (E - ew)) by lia.
    rewrite (pow2_split (ew + 1074) (E - ew)) by lia.
    assert (Hk : 2 <= 2 ^ (E - ew)).
    { change 2 with (2 ^ 1) at 1. apply Z.pow_le_mono_r; lia. }
    change (2 ^ 53) with (2 ^ 52 * 2) in Hmw.
    transitivity (2 ^ 52 * 2 * 2 ^ (ew + 1074)).
    + apply Z.mul_le_mono_nonneg_r; lia.
    + assert (0 < 2 ^ 52) by reflexivity. nia.
Qed.

(** Rounding is monotone against canonical bounds: a positive number that
    is at most a finite binary64 number rounds to a finite number that is
    at most that number, and that is at least any canonical number below
    the number that is rounded. *)
Lemma binary_round_between (s : bool) (m : positive) (e : Z) (mu : positive) (eu : Z) :
  -1074 <= e ->
  canonical mu eu -> eu <= 971 ->
  Z.pos m * 2 ^ (e + 1074) <= Z.pos mu * 2 ^ (eu + 1074) ->
  exists (m' : positive) (e' : Z),
    binary_round prec emax s m e = S754_finite s m' e'
    /\ canonical m' e' /\ e' <= 971
    /\ Z.pos m' * 2 ^ (e' + 1074) <= Z.pos mu * 2 ^ (eu + 1074)
    /\ (forall (ml : positive) (el : Z),
          canonical ml el ->
          Z.pos ml * 2 ^ (el + 1074) <= Z.pos m * 2 ^ (e + 1074) ->
          Z.pos ml * 2 ^ (el + 1074) <= Z.pos m' * 2 ^ (e' + 1074)).
Proof.
  intros He Hu Heu Hupper.
  destruct (binary_round_spec s m e He) as (m' & e' & Hcanon & Hround & Hvalue).
  assert (Hle : Z.pos m' * 2 ^ (e' + 1074) <= Z.pos mu * 2 ^ (eu + 1074)).
  { destruct Hvalue as [-> | (q & E & Hq & HE & Hx & Hv)]; [exact Hupper |].
    destruct (canonical_gap mu eu q E Hu Hq HE); lia. }
  assert (He' : e' <= 971).
  { destruct (Z.le_gt_cases e' 971) as [Hok | Hbig]; [exact Hok |].
    pose proof (canonical_lt mu m' eu e' Hu Hcanon ltac:(lia)). lia. }
  exists m', e'. split.
  { rewrite Hround. apply Z.leb_le in He'. now rewrite He'. }
  split; [exact Hcanon |]. split; [exact He' |]. split; [exact Hle |].
  intros ml el Hl Hlower.
  destruct Hvalue as [-> | (q & E & Hq & HE & Hx & Hv)]; [exact Hlower |].
  destruct (canonical_gap ml el q E Hl Hq HE); lia.
Qed.

Lemma valid_of_canonical (s : bool) (m : positive) (e : Z) :
  canonical m e -> e <= 971 -> valid_binary (S754_finite s m e) = true.
Proof.
  intros Hc He. cbn [SpecFloat.valid_binary]. unfold bounded.
  apply andb_true_iff. split; [exact Hc | now apply Z.leb_le].
Qed.

(** The same for a number of either sign, between two finite binary64
    numbers. *)
Lemma binary_normalize_between (n e : Z) (l u : spec_float) :
  -1074 <= e ->
  valid_binary l = true -> valid_binary u = true ->
  SFfin l = true -> SFfin u = true ->
  SFval l <= n * 2 ^ (e + 1074) <= SFval u ->
  SFfin (binary_normalize prec emax n e false) = true
  /\ valid_binary (binary_normalize prec emax n e false) = true
  /\ SFval l <= SFval (binary_normalize prec emax n e false) <= SFval u.
Proof.
  intros He Hvl Hvu Hfl Hfu [Hlower Hupper].
  pose proof (pow2_pos (e + 1074) ltac:(lia)) as Hpe.
  destruct n as [| p | p]; cbn [binary_normalize].
  - split; [reflexivity |]. split; [reflexivity |]. cbn [SFval]. lia.
  - destruct u as [su | su | | su mu eu]; try discriminate.
    { cbn [SFval] in Hupper. lia. }
    apply valid_finite in Hvu as [Hcu Heu].
    pose proof (unit_pos mu eu (proj1 (canonical_facts _ _ Hcu))) as Hpu.
    destruct su; [cbn [SFval] in Hupper; lia |]. cbn [SFval] in Hupper.
    destruct (binary_round_between false p e mu eu He Hcu Heu Hupper)
      as (m' & e' & -> & Hc' & He' & Hle & Hge).
    pose proof (unit_pos m' e' (proj1 (canonical_facts _ _ Hc'))) as Hp'.
    split; [reflexivity |]. split; [now apply valid_of_canonical |].
    cbn [SFval]. split; [| exact Hle].
    destruct l as [sl | sl | | sl ml el]; try discriminate.
    { cbn [SFval]. lia. }
    apply valid_finite in Hvl as [Hcl _].
    pose proof (unit_pos ml el (proj1 (canonical_facts _ _ Hcl))) as Hpl.
    destruct sl; cbn [SFval] in *; [lia |]. now apply Hge.
  - destruct l as [sl | sl | | sl ml el]; try discriminate.
    { cbn [SFval] in Hlower. lia. }
    apply valid_finite in Hvl as [Hcl Hel].
    pose proof (unit_pos ml el (proj1 (canonical_facts _ _ Hcl))) as Hpl.
    destruct sl; [| cbn [SFval] in Hlower; lia]. cbn [SFval] in Hlower.
    assert (Hupper' : Z.pos p * 2 ^ (e + 1074) <= Z.pos ml * 2 ^ (el + 1074)) by lia.
    destruct (binary_round_between true p e ml el He Hcl Hel Hupper')
      as (m' & e' & -> & Hc' & He' & Hle & Hge).
    pose proof (unit_pos m' e' (proj1 (canonical_facts _ _ Hc'))) as Hp'.
    split; [reflexivity |]. split; [now apply valid_of_canonical |].
    cbn [SFval]. split; [lia |].
    destruct u as [su | su | | su mu eu]; try discriminate.
    { cbn [SFval]. lia. }
    apply valid_finite in Hvu as [Hcu _].
    pose proof (unit_pos mu eu (proj1 (canonical_facts _ _ Hcu))) as Hpu.
    destruct su; cbn [SFval] in *; [| lia].
    assert (Z.pos mu * 2 ^ (eu + 1074) <= Z.pos m' * 2 ^ (e' + 1074)); [| lia].
    apply Hge; [exact Hcu | lia].
Qed.

(** *** Sums and differences *)

Lemma aligned_value (s : bool) (m : positive) (e e' : Z) :
  e' <= e -> -1074 <= e' ->
  (if s then - Z.pos (shl_align m e e').1 else Z.pos (shl_align m e e').1)
    * 2 ^ (e' + 1074)
  = SFval (S754_finite s m e).
Proof.
  intros Hle He'. destruct (shl_align_spec m e e') as (mz & -> & Hmz & _).
  cbn [fst SFval]. replace (Z.min e e') with e' in Hmz by lia. rewrite Hmz.
  replace (e + 1074) with ((e - e') + (e' + 1074)) by lia.
  rewrite (pow2_split (e - e') (e' + 1074)) by lia.
  destruct s; lia.
Qed.

Lemma SFadd_between (x y l u : spec_float) :
  valid_binary x = true -> valid_binary y = true ->
  valid_binary l = true -> valid_binary u = true ->
  SFfin x = true -> SFfin y = true -> SFfin l = true -> SFfin u = true ->
  SFval l <= SFval x + SFval y <= SFval u ->
  SFfin (SFadd prec emax x y) = true
  /\ valid_binary (SFadd prec emax x y) = true
  /\ SFval l <= SFval (SFadd prec emax x y) <= SFval u.
Proof.
  intros Hvx Hvy Hvl Hvu Hfx Hfy Hfl Hfu Hsum.
  destruct x as [sx | sx | | sx mx ex]; try discriminate;
    destruct y as [sy | sy | | sy my ey]; try discriminate.
  - cbn [SFval] in Hsum. destruct sx, sy; cbn; (split; [reflexivity |]);
      (split; [reflexivity | lia]).
  - cbn [SFadd]. cbn [SFval] in Hsum |- *. split; [reflexivity |].
    split; [exact Hvy | lia].
  - cbn [SFadd]. cbn [SFval] in Hsum |- *. split; [reflexivity |].
    split; [exact Hvx | lia].
  - cbn [SFadd]. unfold cond_Zopp.
    pose proof (valid_finite _ _ _ Hvx) as [Hcx _].
    pose proof (valid_finite _ _ _ Hvy) as [Hcy _].
    apply canonical_facts in Hcx as (Hex & _). apply canonical_facts in Hcy as (Hey & _).
    apply binary_normalize_between; try assumption; [lia |].
    rewrite Z.mul_add_distr_r.
    rewrite (aligned_value sx mx ex (Z.min ex ey)) by lia.
    rewrite (aligned_value sy my ey (Z.min ex ey)) by lia.
    exact Hsum.
Qed.

Lemma SFsub_between (x y l u : spec_float) :
  valid_binary x = true -> valid_binary y = true ->
  valid_binary l = true -> valid_binary u = true ->
  SFfin x = true -> SFfin y = true -> SFfin l = true -> SFfin u = true ->
  SFval l <= SFval x - SFval y <= SFval u ->
  SFfin (SFsub prec emax x y) = true
  /\ valid_binary (SFsub prec emax x y) = true
  /\ SFval l <= SFval (SFsub prec emax x y) <= SFval u.
Proof.
  intros Hvx Hvy Hvl Hvu Hfx Hfy Hfl Hfu Hsum.
  destruct x as [sx | sx | | sx mx ex]; try discriminate;
    destruct y as [sy | sy | | sy my ey]; try discriminate.
  - cbn [SFval] in Hsum. destruct sx, sy; cbn; (split; [reflexivity |]);
      (split; [reflexivity | lia]).
  - cbn [SFsub]. cbn [SFval] in Hsum |- *. split; [reflexivity |].
    split; [exact Hvy |]. destruct sy; cbn [negb]; lia.
  - cbn [SFsub]. cbn [SFval] in Hsum |- *. split; [reflexivity |].
    split; [exact Hvx | lia].
  - cbn [SFsub]. unfold cond_Zopp.
    pose proof (valid_finite _ _ _ Hvx) as [Hcx _].
    pose proof (valid_finite _ _ _ Hvy) as [Hcy _].
    apply canonical_facts in Hcx as (Hex & _). apply canonical_facts in Hcy as (Hey & _).
    apply binary_normalize_between; try assumption; [lia |].
    rewrite Z.mul_sub_distr_r.
    rewrite (aligned_value sx mx ex (Z.min ex ey)) by lia.
    rewrite (aligned_value sy my ey (Z.min ex ey)) by lia.
    exact Hsum.
Qed.

(** *** JavaScript numbers *)

Lemma SFcompare_refl_finite (s : bool) (m : positive) (e : Z) :
  SFcompare (S754_finite s m e) (S754_finite s m e) = Some Eq.
Proof.
  cbn [SFcompare]. rewrite Z.compare_refl.
  change (Pos.compare_cont Eq m m) with (m ?= m)%positive.
  rewrite Pos.compare_refl. now destruct s.
Qed.

Lemma is_finite_SFfin (x : float) : is_finite x = SFfin (Prim2SF x).
Proof.
  unfold is_finite, is_nan, is_infinity.
  rewrite !FloatAxioms.eqb_spec, abs_spec.
  change (Prim2SF infinity) with (S754_infinity false).
  destruct (Prim2SF x) as [s | s | | s m e]; try reflexivity.
  - now destruct s.
  - unfold SFeqb. rewrite SFcompare_refl_finite. reflexivity.
Qed.

Lemma leb_val (x y : float) :
  is_finite x = true -> is_finite y = true -> (x <=? y)%float = (val x <=? val y).
Proof.
  rewrite !is_finite_SFfin, leb_spec. intros Hx Hy.
  apply SFleb_val; auto using Prim2SF_valid.
Qed.

Lemma ltb_val (x y : float) :
  is_finite x = true -> is_finite y = true -> (x <? y)%float = (val x <? val y).
Proof.
  rewrite !is_finite_SFfin, FloatAxioms.ltb_spec. intros Hx Hy.
  apply SFltb_val; auto using Prim2SF_valid.
Qed.

Lemma eqb_val (x y : float) :
  is_finite x = true -> is_finite y = true -> (x =? y)%float = (val x =? val y).
Proof.
  rewrite !is_finite_SFfin, FloatAxioms.eqb_spec. intros Hx Hy.
  apply SFeqb_val; auto using Prim2SF_valid.
Qed.

Lemma add_between (x y l u : float) :
  is_finite x = true -> is_finite y = true ->
  is_finite l = true -> is_finite u = true ->
  val l <= val x + val y <= val u ->
  is_finite (x + y) = true /\ val l <= val (x + y) <= val u.
Proof.
  rewrite !is_finite_SFfin. unfold val. rewrite add_spec. intros Hx Hy Hl Hu Hsum.
  destruct (SFadd_between (Prim2SF x) (Prim2SF y) (Prim2SF l) (Prim2SF u))
    as (Hfin & _ & Hbounds); auto using Prim2SF_valid.
Qed.

Lemma sub_between (x y l u : float) :
  is_finite x = true -> is_finite y = true ->
  is_finite l = true -> is_finite u = true ->
  val l <= val x - val y <= val u ->
  is_finite (x - y) = true /\ val l <= val (x - y) <= val u.
Proof.
  rewrite !is_finite_SFfin. unfold val. rewrite sub_spec. intros Hx Hy Hl Hu Hsum.
  destruct (SFsub_between (Prim2SF x) (Prim2SF y) (Prim2SF l) (Prim2SF u))
    as (Hfin & _ & Hbounds); auto using Prim2SF_valid.
Qed.

Lemma abs_val (x : float) :
  is_finite x = true -> is_finite (abs x) = true /\ val (abs x) = Z.abs (val x).
Proof.
  rewrite !is_finite_SFfin. unfold val. rewrite abs_spec.
  pose proof (Prim2SF_valid x) as Hvalid.
  destruct (Prim2SF x) as [s | s | | s m e]; try discriminate; intros _.
  - split; reflexivity.
  - apply valid_finite in Hvalid as [Hc _].
    pose proof (unit_pos m e (proj1 (canonical_facts _ _ Hc))).
    split; [reflexivity |]. cbn [SFabs SFval]. destruct s; lia.
Qed.

(** [n % d] for a finite dividend and a finite divisor other than zero: a
    finite number that is not greater in magnitude than the divisor, of
    the sign of the dividend. *)
Lemma remainder_finite (x d : float) (sd : bool) (md : positive) (ed : Z) :
  is_finite x = true ->
  Prim2SF d = S754_finite sd md ed ->
  is_finite (remainder x d) = true
  /\ Z.abs (val (remainder x d)) <= Z.abs (val d)
  /\ (0 <= val x -> 0 <= val (remainder x d)).
Proof.
  intros Hx Hd. pose proof (Prim2SF_valid d) as Hvd. rewrite Hd in Hvd.
  pose proof (valid_finite _ _ _ Hvd) as [Hcd Hed].
  pose proof (canonical_facts _ _ Hcd) as (Hed' & _).
  pose proof (unit_pos md ed Hed') as Hpd.
  assert (Habs : Z.abs (val d) = Z.pos md * 2 ^ (ed + 1074)).
  { unfold val. rewrite Hd. cbn [SFval]. destruct sd; lia. }
  rewrite Habs. unfold remainder. rewrite Hd.
  pose proof (Prim2SF_valid x) as Hvx.
  rewrite is_finite_SFfin in Hx.
  destruct (Prim2SF x) as [sx | sx | | sx mx ex] eqn:Hpx; try discriminate.
  - rewrite is_finite_SFfin, Hpx. unfold val. rewrite Hpx. cbn [SFval].
    split; [reflexivity |]. split; lia.
  - pose proof (valid_finite _ _ _ Hvx) as [Hcx _].
    pose proof (canonical_facts _ _ Hcx) as (Hex & _).
    set (e := Z.min ex ed).
    set (D := Z.pos md * 2 ^ (ed - e)).
    set (r := (Z.pos mx * 2 ^ (ex - e)) mod D).
    assert (HD : 0 < D).
    { unfold D. pose proof (pow2_pos (ed - e) ltac:(lia)). lia. }
    pose proof (Z.mod_pos_bound (Z.pos mx * 2 ^ (ex - e)) D HD) as Hr. fold r in Hr.
    assert (HDu : D * 2 ^ (e + 1074) = Z.pos md * 2 ^ (ed + 1074)).
    { unfold D. rewrite <- Z.mul_assoc, <- pow2_split by lia. do 2 f_equal. lia. }
    pose proof (pow2_pos (e + 1074) ltac:(lia)) as Hpe.
    assert (Hvalx : val x = SFval (S754_finite sx mx ex)) by (unfold val; now rewrite Hpx).
    destruct (Z.eqb_spec r 0) as [Hzero | Hnonzero].
    + assert (Hz : is_finite (if sx then - 0 else 0)%float = true
                   /\ val (if sx then - 0 else 0)%float = 0).
      { destruct sx; split; reflexivity. }
      destruct Hz as [-> ->]. split; [reflexivity |]. split; cbn [Z.abs]; lia.
    + set (l := if sx then S754_finite true md ed else S754_zero false).
      set (u := if sx then S754_zero false else S754_finite false md ed).
      destruct (binary_normalize_between (if sx then - r else r) e l u) as
        (Hfin & Hvalid & Hbounds); try (unfold l, u; destruct sx; assumption || reflexivity).
      { lia. }
      { unfold l, u. destruct sx; cbn [SFval]; nia. }
      rewrite is_finite_SFfin. unfold val.
      rewrite (Prim2SF_SF2Prim _ Hvalid). split; [exact Hfin |].
      unfold l, u in Hbounds. destruct sx; cbn [SFval] in Hbounds; split; try lia.
      intros Hnonneg. fold (val x) in Hnonneg. rewrite Hvalx in Hnonneg.
      cbn [SFval] in Hnonneg.
      pose proof (unit_pos mx ex Hex). lia.
Qed.

(** *** The renormalisation of CesiumJS *)

Lemma sign_positive (b : float) :
  is_finite b = true ->
  (CesiumMath_sign b =? CesiumMath_sign TWO_PI)%float = true -> 0 < val b.
Proof.
  intros Hb. change (CesiumMath_sign TWO_PI) with 1%float.
  unfold CesiumMath_sign. destruct ((b =? 0)%float || is_nan b) eqn:Hzero.
  - rewrite eqb_val by (assumption || reflexivity). intros Heq.
    apply Z.eqb_eq in Heq. rewrite Heq. reflexivity.
  - destruct (0 <? b)%float eqn:Hpos.
    + intros _. rewrite ltb_val in Hpos by (assumption || reflexivity).
      apply Z.ltb_lt in Hpos. exact Hpos.
    + intros Heq. vm_compute in Heq. discriminate.
Qed.

(** [CesiumMath.mod] by 2 PI of a finite number lies between 0 and 2 PI. *)
Lemma CesiumMath_mod_range (b : float) :
  is_finite b = true ->
  is_finite (CesiumMath_mod b TWO_PI) = true
  /\ 0 <= val (CesiumMath_mod b TWO_PI) <= val TWO_PI.
Proof.
  intros Hb. unfold CesiumMath_mod.
  destruct ((CesiumMath_sign b =? CesiumMath_sign TWO_PI)%float
            && (abs b <? abs TWO_PI)%float) eqn:Hsame.
  - apply andb_true_iff in Hsame as [Hsign Hless].
    apply sign_positive in Hsign; [| exact Hb].
    destruct (abs_val b Hb) as [Hfabs Habs].
    rewrite ltb_val in Hless by (assumption || reflexivity).
    apply Z.ltb_lt in Hless. rewrite Habs in Hless.
    change (val (abs TWO_PI)) with (val TWO_PI) in Hless.
    split; [exact Hb | lia].
  - assert (Hd : Prim2SF TWO_PI = S754_finite false 7074237752028440 (-50))
      by reflexivity.
    assert (Hpos : Z.abs (val TWO_PI) = val TWO_PI) by reflexivity.
    destruct (remainder_finite b TWO_PI _ _ _ Hb Hd) as (Hf1 & Hr1 & _).
    rewrite Hpos in Hr1.
    destruct (add_between (remainder b TWO_PI) TWO_PI 0 (2 * TWO_PI))
      as (Hfs & Hs); try (assumption || reflexivity).
    { change (val 0) with 0. change (val (2 * TWO_PI)) with (2 * val TWO_PI). lia. }
    change (val 0) with 0 in Hs.
    destruct (remainder_finite (remainder b TWO_PI + TWO_PI) TWO_PI _ _ _ Hfs Hd)
      as (Hf2 & Hr2 & Hsign2).
    rewrite Hpos in Hr2. split; [exact Hf2 |].
    specialize (Hsign2 ltac:(lia)). lia.
Qed.

Lemma zeroToTwoPi_range (b : float) :
  is_finite b = true ->
  is_finite (zeroToTwoPi b) = true /\ 0 <= val (zeroToTwoPi b) <= val TWO_PI.
Proof.
  intros Hb. unfold zeroToTwoPi.
  destruct ((0 <=? b)%float && (b <=? TWO_PI)%float) eqn:Hin.
  - apply andb_true_iff in Hin as [Hlow Hhigh].
    rewrite leb_val in Hlow, Hhigh by (assumption || reflexivity).
    apply Z.leb_le in Hlow, Hhigh. change (val 0) with 0 in Hlow.
    split; [exact Hb | lia].
  - cbv zeta.
    destruct ((abs (CesiumMath_mod b TWO_PI) <? EPSILON14)%float
              && (EPSILON14 <? abs b)%float).
    + split; [reflexivity |]. split; [discriminate | apply Z.le_refl].
    + now apply CesiumMath_mod_range.
Qed.

(** Adding PI to a finite number gives a finite number: the sum of the
    largest number and PI rounds to the largest number. *)
Lemma add_PI_finite (a : float) : is_finite a = true -> is_finite (a + PI) = true.
Proof.
  intros Ha.
  destruct (a <=? 0x1.ffffffffffffep+1023)%float eqn:Hbelow.
  - rewrite leb_val in Hbelow by (assumption || reflexivity).
    apply Z.leb_le in Hbelow.
    assert (Hroom : val 0x1.ffffffffffffep+1023 + val PI <= val MAX_VALUE).
    { apply Z.leb_le. vm_compute. reflexivity. }
    assert (Hpi : 0 <= val PI) by discriminate.
    destruct (add_between a PI a MAX_VALUE) as [Hfin _];
      try (assumption || reflexivity); lia.
  - rewrite leb_val in Hbelow by (assumption || reflexivity).
    apply Z.leb_gt in Hbelow.
    assert (Hmax : a = MAX_VALUE).
    { apply Prim2SF_inj. pose proof (Prim2SF_valid a) as Hvalid.
      rewrite is_finite_SFfin in Ha. unfold val in Hbelow.
      assert (Hpred : 0 < SFval (Prim2SF 0x1.ffffffffffffep+1023)) by reflexivity.
      destruct (Prim2SF a) as [s | s | | s m e]; try discriminate.
      apply valid_finite in Hvalid as [Hc He].
      pose proof (unit_pos m e (proj1 (canonical_facts _ _ Hc))) as Hpos.
      destruct s.
      { change (SFval (S754_finite true m e)) with (- Z.pos m * 2 ^ (e + 1074)) in Hbelow.
        lia. }
      clear Hpred.
      change (Z.pos 9007199254740990 * 2 ^ (971 + 1074) < Z.pos m * 2 ^ (e + 1074))
        in Hbelow.
      assert (Hcp : canonical 9007199254740990 971) by reflexivity.
      assert (He' : e = 971).
      { destruct (Z.eq_dec e 971) as [Heq | Hne]; [exact Heq |].
        pose proof (canonical_lt m 9007199254740990 e 971 Hc Hcp ltac:(lia)). lia. }
      subst e.
      pose proof (canonical_facts _ _ Hc) as (_ & Hm & _).
      change (2 ^ 53) with 9007199254740992 in Hm.
      assert (Hpu : 0 < 2 ^ (971 + 1074)) by (apply pow2_pos; lia).
      assert (Hmv : Z.pos m = 9007199254740991) by nia.
      injection Hmv as ->. reflexivity. }
    rewrite Hmax. reflexivity.
Qed.

(** [CesiumMath.negativePiToPi] maps every finite number into [-PI, PI],
    and every other number to NaN. *)
Lemma negativePiToPi_range (a : float) :
  is_finite a = true -> inMinusPiToPi (negativePiToPi a).
Proof.
  intros Ha. unfold negativePiToPi, inMinusPiToPi.
  destruct ((- PI <=? a)%float && (a <=? PI)%float) eqn:Hin.
  - now apply andb_true_iff in Hin.
  - pose proof (add_PI_finite a Ha) as Hb.
    destruct (zeroToTwoPi_range (a + PI) Hb) as [Hft Ht].
    destruct (sub_between (zeroToTwoPi (a + PI)) PI (- PI) PI) as [Hfin Hbounds];
      try (assumption || reflexivity).
    { change (val (- PI)) with (- val PI).
      change (val TWO_PI) with (2 * val PI) in Ht. lia. }
    rewrite !leb_val by (assumption || reflexivity).
    split; apply Z.leb_le; lia.
Qed.

Lemma negativePiToPi_not_finite (a : float) :
  is_finite a = false -> is_nan (negativePiToPi a) = true.
Proof.
  rewrite is_finite_SFfin. intros Ha. rewrite <- (SF2Prim_Prim2SF a).
  destruct (Prim2SF a) as [s | [|] | | s m e]; try discriminate; reflexivity.
Qed.

End Binary64.

Section FloatFacts.

Local Open Scope float_scope.

Lemma positive_is_not_zero (level : float) :
  (0 <? level) = true -> (level =? 0) = false.
Proof.
  rewrite FloatAxioms.ltb_spec, FloatAxioms.eqb_spec.
  change (Prim2SF 0) with (S754_zero false).
  destruct (Prim2SF level) as [s | s | | s m e]; try destruct s; cbn; congruence.
Qed.

End FloatFacts.

(** One step of a computation in [result]: case analysis on the call that
    is bound first; when it throws, both sides of the goal throw. *)
Ltac step_result call :=
  let v := fresh "v" in
  let err := fresh "err" in
  destruct call as [v | err]; cbn; [| reflexivity].

Section Derivation.

Context `{E : Externals}.
Local Open Scope float_scope.

(** C1. For a 12-number root box and a coordinate with level > 0, the
    derived box is the one the specification describes: its center is the
    root half-axis matrix applied to the model-space offset, plus the root
    center, and its half-axes are the root's scaled column by column.  In
    particular (given that [Math.pow(2, -1)] is 0.5) the box with center
    0 and half-axes 10 times the identity derives, at (1, 0, 0, 0), the
    box with center (-5, -5, -5) and half of the root's half-axes. *)
Theorem deriveBoundingBox_child :
  (forall c0 c1 c2 a00 a01 a02 a10 a11 a12 a20 a21 a22 level x y z,
      (0 <? level) = true ->
      deriveBoundingBox [c0; c1; c2; a00; a01; a02; a10; a11; a12; a20; a21; a22]
        level x y z
      = BoxSpec.childBox [c0; c1; c2] [a00; a01; a02] [a10; a11; a12] [a20; a21; a22]
          level x y z)
  /\ (Math_pow 2 (-1) = 0.5 ->
      deriveBoundingBox [0; 0; 0; 10; 0; 0; 0; 10; 0; 0; 0; 10] 1 0 0 (Some 0)
      = [-5; -5; -5; 5; 0; 0; 0; 5; 0; 0; 0; 5]).
Proof.
  split.
  - intros c0 c1 c2 a00 a01 a02 a10 a11 a12 a20 a21 a22 level x y z Hlevel.
    unfold deriveBoundingBox.
    rewrite (positive_is_not_zero level Hlevel).
    destruct z as [zv |]; reflexivity.
  - intros Hpow. unfold deriveBoundingBox.
    change (1 =? 0) with false. change (- (1)) with (-1). cbn iota.
    rewrite Hpow. reflexivity.
Qed.

Lemma hasExtension_s2Volume (e : ExtensionObject) :
  hasExtension (s2Volume e) S2_EXTENSION = Some e.
Proof. unfold hasExtension, s2Volume, S2_EXTENSION; cbn. apply lookup_insert_eq. Qed.

Lemma deriveBoundingVolume_level0 (root : BoundingVolume) (coords : list float) :
  (levelOf coords =? 0) = true ->
  deriveBoundingVolume root coords = Ok (selectedVolume root).
Proof.
  unfold levelOf. intros H0.
  unfold deriveBoundingVolume, selectedVolume, deriveBoundingVolumeS2,
    deriveBoundingRegion, deriveBoundingBox.
  rewrite H0.
  destruct (hasExtension root S2_EXTENSION) as [[s2 | json] |]; try reflexivity.
  destruct (region root); [reflexivity |].
  destruct (box root); reflexivity.
Qed.

(** C3 (as amended). For a coordinate whose level is not 0, the derived
    region has six entries, and each of its west, south, east and north is
    the renormalisation of an angle by CesiumJS's [negativePiToPi]: the
    entry lies in [-PI, PI] when the angle is finite, and is NaN when the
    angle is NaN or infinite.  So all four entries lie in [-PI, PI] when
    all four angles are finite.  At level 0 the derived region is the root
    region itself, which is not renormalised. *)
Theorem deriveBoundingRegion_renormalized
    (root : list float) (level x y : float) (z : option float) :
  ((level =? 0) = false ->
     length (deriveBoundingRegion root level x y z) = 6%nat
     /\ lonLat (deriveBoundingRegion root level x y z)
        = map negativePiToPi (renormalisedAngles root level x y)
     /\ (forall i angle entry,
           renormalisedAngles root level x y !! i = Some angle ->
           lonLat (deriveBoundingRegion root level x y z) !! i = Some entry ->
           (is_finite angle = true -> inMinusPiToPi entry)
           /\ (is_finite angle = false -> is_nan entry = true))
     /\ (Forall (fun angle => is_finite angle = true)
               (renormalisedAngles root level x y) ->
         Forall inMinusPiToPi (lonLat (deriveBoundingRegion root level x y z))))
  /\ ((level =? 0) = true -> deriveBoundingRegion root level x y z = root).
Proof.
  split; intros Hlevel.
  - assert (Hentries : lonLat (deriveBoundingRegion root level x y z)
                       = map negativePiToPi (renormalisedAngles root level x y)).
    { unfold deriveBoundingRegion. rewrite Hlevel. destruct z; reflexivity. }
    split; [| split; [exact Hentries | split]].
    + unfold deriveBoundingRegion. rewrite Hlevel. destruct z; reflexivity.
    + intros i angle entry Hangle Hentry.
      rewrite Hentries, list_lookup_fmap, Hangle in Hentry.
      injection Hentry as <-. split.
      * apply negativePiToPi_range.
      * apply negativePiToPi_not_finite.
    + intros Hfinite. rewrite Hentries. apply Forall_fmap.
      eapply Forall_impl; [exact Hfinite |]. intros angle.
      apply negativePiToPi_range.
  - unfold deriveBoundingRegion. now rewrite Hlevel.
Qed.

(** C4. Deriving at (0, 0, 0), and at (0, 0, 0, 0), from a root volume
    that is a box, a region or an S2 cell yields the root volume. *)
Theorem deriveBoundingVolume_identity :
  (forall b : list float,
      deriveBoundingVolume (boxVolume b) [0; 0; 0] = Ok (Some (boxVolume b)) /\
      deriveBoundingVolume (boxVolume b) [0; 0; 0; 0] = Ok (Some (boxVolume b)))
  /\ (forall r : list float,
      deriveBoundingVolume (regionVolume r) [0; 0; 0] = Ok (Some (regionVolume r)) /\
      deriveBoundingVolume (regionVolume r) [0; 0; 0; 0] = Ok (Some (regionVolume r)))
  /\ (forall s2 : BoundingVolumeS2,
      deriveBoundingVolume (s2Volume (ExtS2 s2)) [0; 0; 0]
        = Ok (Some (s2Volume (ExtS2 s2))) /\
      deriveBoundingVolume (s2Volume (ExtS2 s2)) [0; 0; 0; 0]
        = Ok (Some (s2Volume (ExtS2 s2)))).
Proof.
  repeat split; rewrite deriveBoundingVolume_level0 by reflexivity;
    unfold selectedVolume; try reflexivity;
    now rewrite hasExtension_s2Volume.
Qed.

(** C6. For an S2 root cell whose token parses to the identifier
    [cellId], and a coordinate with level > 0, the face is the top three
    bits of the 64-bit identifier and the derived token is that of the
    cell built from the face, the Hilbert position and the level, where
    the position is computed from (x, y) on an even face and from (y, x)
    on an odd face.  So at level 1 an even-face root uses, for (1, 0) and
    (0, 1), the positions that an odd-face root uses for (0, 1) and (1, 0). *)
Theorem deriveBoundingVolumeS2_cell
    (s2 : BoundingVolumeS2) (level x y : float) (z : option float) (cellId : Z) :
  (0 <? level) = true ->
  S2Cell_getIdFromToken (token s2) = Ok cellId ->
  let face := Z.shiftr cellId 61 in
  (forall i, (0 <= i)%Z -> Z.testbit face i = Z.testbit cellId (i + 61))
  /\ ((0 <= cellId < 2 ^ 64)%Z -> (0 <= face < 8)%Z)
  /\ token <$> deriveBoundingVolumeS2 s2 level x y z
     = S2Cell_getTokenFromId <$>
         (if Z.even face then s2ChildCell face level x y
          else s2ChildCell face level y x)
  /\ (forall z',
        token <$> deriveBoundingVolumeS2 s2 1 1 0 z'
        = S2Cell_getTokenFromId <$>
            (if Z.even face then s2ChildCell face 1 1 0 else s2ChildCell face 1 0 1)
        /\ token <$> deriveBoundingVolumeS2 s2 1 0 1 z'
           = S2Cell_getTokenFromId <$>
               (if Z.even face then s2ChildCell face 1 0 1 else s2ChildCell face 1 1 0)).
Proof.
  intros Hlevel Hid face.
  assert (Hgen : forall l a b z0, (l =? 0) = false ->
            token <$> deriveBoundingVolumeS2 s2 l a b z0
            = S2Cell_getTokenFromId <$>
                (if Z.even face then s2ChildCell face l a b
                 else s2ChildCell face l b a)).
  { intros l a b z0 Hl. unfold deriveBoundingVolumeS2, s2ChildCell.
    rewrite Hl, Hid. cbn. fold face.
    rewrite Zeven_mod.
    destruct (Z.eqb (face mod 2) 0);
      match goal with
      | |- context [HilbertOrder_encode2D ?l1 ?a1 ?b1] =>
          step_result (HilbertOrder_encode2D l1 a1 b1)
      end;
      match goal with
      | |- context [BigInt ?p] => step_result (BigInt p)
      end;
      match goal with
      | |- context [S2Cell_fromFacePositionLevel face ?bp ?l1] =>
          step_result (S2Cell_fromFacePositionLevel face bp l1)
      end;
      destruct z0; reflexivity. }
  split; [| split; [| split]].
  - intros i Hi. unfold face. now rewrite Z.shiftr_spec.
  - intros [Hlo Hhi]. unfold face. rewrite Z.shiftr_div_pow2 by lia. split.
    + apply Z.div_pos; lia.
    + apply Z.div_lt_upper_bound; lia.
  - apply Hgen. now apply positive_is_not_zero.
  - intros z'. split; apply Hgen; reflexivity.
Qed.

(** C8. From a root volume that is a bounding sphere, with no box, no
    region and no S2 extension (whatever other extensions it carries),
    the derivation returns [undefined] for every coordinate tuple: it
    neither throws nor returns a volume. *)
Theorem deriveBoundingVolume_sphere
    (s : list float) (exts : option (gmap string ExtensionObject))
    (coords : list float) :
  (forall m, exts = Some m -> m !! S2_EXTENSION = None) ->
  deriveBoundingVolume (mkBoundingVolume None None (Some s) exts) coords = Ok None.
Proof.
  intros Hno. unfold deriveBoundingVolume, hasExtension; cbn.
  destruct exts as [m |]; [| reflexivity].
  now rewrite (Hno m eq_refl).
Qed.

(** C9. When the level entry of the coordinate tuple is 0, the derivation
    returns the volume selected from the root, unchanged, whatever the
    other entries are (and however many there are): the result equals the
    one for (0, 0, 0) and for (0, 0, 0, 0). *)
Theorem deriveBoundingVolume_level0_ignores_xyz
    (root : BoundingVolume) (coords : list float) :
  (levelOf coords =? 0) = true ->
  deriveBoundingVolume root coords = Ok (selectedVolume root)
  /\ deriveBoundingVolume root coords = deriveBoundingVolume root [0; 0; 0]
  /\ deriveBoundingVolume root coords = deriveBoundingVolume root [0; 0; 0; 0].
Proof.
  intros H0. rewrite !deriveBoundingVolume_level0 by (exact H0 || reflexivity).
  repeat split.
Qed.

(** C10. The dispatch has a fixed priority.  A root that carries the S2
    extension is derived as an S2 cell, whatever region, box or sphere it
    also carries; otherwise a root with a region is derived as a region,
    whatever box or sphere it also carries; and a volume that is returned
    carries only the selected shape. *)
Theorem deriveBoundingVolume_priority (root : BoundingVolume) (coords : list float) :
  (forall s2, hasExtension root S2_EXTENSION = Some (ExtS2 s2) ->
      deriveBoundingVolume root coords
      = (child ← deriveBoundingVolumeS2 s2 (levelOf coords) (xOf coords)
                   (yOf coords) (zOf coords);
         Ok (Some (s2Volume (ExtS2 child))))
      /\ deriveBoundingVolume root coords
         = deriveBoundingVolume (s2Volume (ExtS2 s2)) coords)
  /\ (forall r, hasExtension root S2_EXTENSION = None -> region root = Some r ->
      deriveBoundingVolume root coords
      = Ok (Some (regionVolume
                    (deriveBoundingRegion r (levelOf coords) (xOf coords)
                       (yOf coords) (zOf coords))))
      /\ deriveBoundingVolume root coords
         = deriveBoundingVolume (regionVolume r) coords)
  /\ (forall v, deriveBoundingVolume root coords = Ok (Some v) ->
      (exists e, v = s2Volume e /\ hasExtension root S2_EXTENSION <> None)
      \/ (exists r, v = regionVolume r /\ hasExtension root S2_EXTENSION = None
                    /\ region root <> None)
      \/ (exists b, v = boxVolume b /\ hasExtension root S2_EXTENSION = None
                    /\ region root = None /\ box root <> None)).
Proof.
  split; [| split].
  - intros s2 Hs2. split.
    + unfold deriveBoundingVolume. now rewrite Hs2.
    + unfold deriveBoundingVolume.
      now rewrite Hs2, hasExtension_s2Volume.
  - intros r Hno Hr. unfold deriveBoundingVolume.
    rewrite Hno, Hr. split; reflexivity.
  - intros v. unfold deriveBoundingVolume.
    destruct (hasExtension root S2_EXTENSION) as [[s2 | json] |] eqn:Hext.
    + destruct (deriveBoundingVolumeS2 _ _ _ _ _) as [child | err]; cbn;
        intros Hv; inversion Hv; subst. left. eauto.
    + destruct (_ =? 0); intros Hv; inversion Hv; subst. left. eauto.
    + destruct (region root) as [r |] eqn:Hr.
      * intros Hv; inversion Hv; subst. right; left. eauto.
      * destruct (box root) as [b |] eqn:Hb; intros Hv; inversion Hv; subst.
        right; right. eauto.
Qed.

End Derivation.

(* ===================================================================== *)
(** ** What the specification says about the table builder                *)
(* ===================================================================== *)

Section LittleEndian.

Import TypedArrays.

Lemma length_leBytes (width : nat) (v : Z) : length (leBytes width v) = width.
Proof. revert v. induction width as [| w IH]; intros v; cbn; [| rewrite IH]; reflexivity. Qed.

Lemma leValue_leBytes (width : nat) (v : Z) :
  leValue (leBytes width v) = v mod 2 ^ (8 * Z.of_nat width).
Proof.
  revert v. induction width as [| w IH]; intros v.
  - cbn. now rewrite Z.mod_1_r.
  - cbn [leBytes leValue]. rewrite IH.
    replace (8 * Z.of_nat (S w)) with (8 + 8 * Z.of_nat w) by lia.
    rewrite Z.pow_add_r by lia. change (2 ^ 8) with 256.
    rewrite Z.rem_mul_r by lia. reflexivity.
Qed.

Lemma leValue_leBytes_small (width : nat) (v : Z) :
  0 <= v < 2 ^ (8 * Z.of_nat width) -> leValue (leBytes width v) = v.
Proof. intros Hv. rewrite leValue_leBytes. now apply Z.mod_small. Qed.

(** Reading back the entries of a buffer that was written element by element. *)
Lemma entries_concat (width : nat) (f : Z -> list Z) (vs : list Z) :
  (0 < width)%nat ->
  (forall v, length (f v) = width) ->
  entries width (length vs) (concat (map f vs)) = map (fun v => leValue (f v)) vs.
Proof.
  intros Hpos Hlen. induction vs as [| v vs IH]; [reflexivity |].
  cbn [map concat length entries].
  destruct (f v ++ concat (map f vs)) eqn:Hbuf.
  - apply (f_equal length) in Hbuf. rewrite length_app, Hlen in Hbuf. cbn in Hbuf. lia.
  - rewrite <- Hbuf. rewrite take_app_length', drop_app_length' by (symmetry; apply Hlen).
    now rewrite IH.
Qed.

End LittleEndian.

Section Cumulative.

Lemma sumZ_app (l k : list Z) : sumZ (l ++ k) = sumZ l + sumZ k.
Proof. unfold sumZ. induction l as [| x l IH]; cbn; [reflexivity | rewrite IH; lia]. Qed.

Lemma cumulative_cons (x : Z) (l : list Z) :
  cumulative (x :: l) = 0 :: map (Z.add x) (cumulative l).
Proof.
  unfold cumulative. cbn [length]. change (seq 0 (S (S (length l)))) with
    (0%nat :: seq 1 (S (length l))).
  cbn [map take]. f_equal. rewrite <- seq_shift, !map_map.
  apply map_ext. intros i. reflexivity.
Qed.

Lemma length_cumulative (l : list Z) : length (cumulative l) = S (length l).
Proof. unfold cumulative. now rewrite length_map, length_seq. Qed.

Lemma lookup_cumulative (l : list Z) (i : nat) :
  (i <= length l)%nat -> cumulative l !! i = Some (sumZ (take i l)).
Proof.
  intros Hi. unfold cumulative. rewrite list_lookup_fmap.
  rewrite lookup_seq_lt by lia. reflexivity.
Qed.

Lemma lookup_cumulative_inv (l : list Z) (i : nat) (s : Z) :
  cumulative l !! i = Some s -> (i <= length l)%nat /\ s = sumZ (take i l).
Proof.
  intros Hs. assert (Hi : (i < length (cumulative l))%nat)
    by (apply lookup_lt_is_Some; eauto).
  rewrite length_cumulative in Hi. split; [lia |].
  rewrite lookup_cumulative in Hs by lia. congruence.
Qed.

Lemma sumZ_nonneg (l : list Z) : Forall (fun c => 0 <= c) l -> 0 <= sumZ l.
Proof. unfold sumZ. induction 1; cbn; lia. Qed.

Lemma sumZ_take_bounds (l : list Z) (i : nat) :
  Forall (fun c => 0 <= c) l -> 0 <= sumZ (take i l) <= sumZ l.
Proof.
  intros Hl. rewrite <- (take_drop i l) at 3. rewrite sumZ_app.
  pose proof (sumZ_nonneg (take i l) (Forall_take _ i _ Hl)).
  pose proof (sumZ_nonneg (drop i l) (Forall_drop _ i _ Hl)). lia.
Qed.

(** The facts about offsets that the specification lists, for the
    cumulative sums of non-negative counts. *)
Lemma cumulative_offsets (counts : list Z) :
  Forall (fun c => 0 <= c) counts ->
  length (cumulative counts) = S (length counts)
  /\ cumulative counts !! 0%nat = Some 0
  /\ nondecreasing (cumulative counts)
  /\ (forall i a b, cumulative counts !! i = Some a ->
                    cumulative counts !! S i = Some b ->
                    counts !! i = Some (b - a)).
Proof.
  intros Hcounts.
  assert (Hstep : forall i a b, cumulative counts !! i = Some a ->
                    cumulative counts !! S i = Some b ->
                    counts !! i = Some (b - a)).
  { intros i a b Ha Hb.
    apply lookup_cumulative_inv in Ha as [_ ->].
    apply lookup_cumulative_inv in Hb as [Hi ->].
    destruct (lookup_lt_is_Some_2 counts i ltac:(lia)) as [c Hc].
    rewrite (take_S_r _ _ _ Hc), sumZ_app. rewrite Hc. f_equal.
    unfold sumZ at 2; cbn. lia. }
  split; [apply length_cumulative |].
  split; [rewrite lookup_cumulative by lia; reflexivity |].
  split; [| exact Hstep].
  intros i a b Ha Hb. pose proof (Hstep i a b Ha Hb) as Hc.
  pose proof (proj1 (Forall_lookup _ _) Hcounts i _ Hc) as Hnn. cbn in Hnn. lia.
Qed.

End Cumulative.

Section TableBuilder.

Context `{C : StringCoercions}.
Import TypedArrays BinaryPropertyTables.

Lemma flattenFully_numbers (ns : list number) :
  flattenFully (JArray (map (fun n => JLeaf (LNumber n)) ns)) = map LNumber ns.
Proof.
  cbn. induction ns as [| n ns IH]; [reflexivity |]. cbn. now rewrite IH.
Qed.

Lemma mapM_ToBigInt_ints (zs : list Z) :
  mapM ToBigInt (map LNumber (map Int zs)) = Ok zs.
Proof. induction zs as [| z zs IH]; [reflexivity |]. cbn. rewrite IH. reflexivity. Qed.

Lemma offsetsFrom_ints (start : Z) (counts : list Z) :
  offsetsFrom (Int start) (map Int counts)
  = map Int (map (Z.add start) (cumulative counts)).
Proof.
  revert start. induction counts as [| c counts IH]; intros start.
  - cbn. f_equal. f_equal. unfold sumZ. cbn. lia.
  - cbn [map offsetsFrom addNumber]. rewrite IH, cumulative_cons.
    cbn [map]. f_equal; [f_equal; lia |].
    rewrite !map_map. apply map_ext. intros s. f_equal. lia.
Qed.

(** The buffer that [createBuffer] packs for integers at an unsigned
    offset type. *)
Lemma createBuffer_offsets (offsetType : string) (width : nat) (zs : list Z) :
  BinaryPropertyModels.byteSizeForOffsetType offsetType = Some width ->
  createBuffer (map (fun n => JLeaf (LNumber n)) (map Int zs)) (Some offsetType)
  = Ok (concat (map (fun z => leBytes width (z mod 2 ^ (8 * Z.of_nat width))) zs))
  /\ (0 < width)%nat.
Proof.
  unfold BinaryPropertyModels.byteSizeForOffsetType, createBuffer, createBufferInternal.
  rewrite flattenFully_numbers.
  destruct (String.eqb_spec offsetType "UINT8") as [-> | _];
    [intros [= <-]; split; [| lia]; cbn; now rewrite !map_map |].
  destruct (String.eqb_spec offsetType "UINT16") as [-> | _];
    [intros [= <-]; split; [| lia]; cbn; now rewrite !map_map |].
  destruct (String.eqb_spec offsetType "UINT32") as [-> | _];
    [intros [= <-]; split; [| lia]; cbn; now rewrite !map_map |].
  destruct (String.eqb_spec offsetType "UINT64") as [-> | _]; [| discriminate].
  intros [= <-]; split; [| lia]. cbn. rewrite mapM_ToBigInt_ints. reflexivity.
Qed.

(** The entries of the buffer packed from the cumulative sums of counts:
    each is the sum modulo 2^(8 width). *)
Lemma offsets_buffer_wrapped (offsetType : option string) (width : nat)
    (counts : list Z) :
  BinaryPropertyModels.byteSizeForOffsetType (default "UINT32"%string offsetType)
    = Some width ->
  exists buffer,
    createBuffer (map (fun n => JLeaf (LNumber n)) (offsetsFrom (Int 0) (map Int counts)))
      (Some (default "UINT32"%string offsetType)) = Ok buffer
    /\ length buffer = (width * S (length counts))%nat
    /\ entries width (S (length counts)) buffer
       = map (fun total => total mod 2 ^ (8 * Z.of_nat width)) (cumulative counts).
Proof.
  intros Hwidth.
  rewrite offsetsFrom_ints.
  destruct (createBuffer_offsets _ _ (map (Z.add 0) (cumulative counts)) Hwidth)
    as [Hbuf Hpos].
  eexists. split; [exact Hbuf |].
  assert (Hsame : map (Z.add 0) (cumulative counts) = cumulative counts).
  { rewrite <- (map_id (cumulative counts)) at 2. apply map_ext. intros; lia. }
  rewrite Hsame. split.
  - rewrite length_concat, map_map.
    erewrite map_ext by (intros; apply length_leBytes).
    rewrite <- length_cumulative. generalize (cumulative counts) as l.
    induction l as [| x l IH]; [cbn; lia |].
    cbn [map length]. change (list_sum (width :: ?r)) with (width + list_sum r)%nat.
    nia.
  - rewrite <- length_cumulative.
    rewrite entries_concat by (auto using length_leBytes).
    apply map_ext. intros total.
    rewrite leValue_leBytes. apply Z.mod_mod. apply Z.pow_nonzero; lia.
Qed.

(** The entries of the buffer packed from the cumulative sums of counts
    whose total fits the offset type. *)
Lemma offsets_buffer_entries (offsetType : option string) (width : nat)
    (counts : list Z) :
  BinaryPropertyModels.byteSizeForOffsetType (default "UINT32"%string offsetType)
    = Some width ->
  Forall (fun c => 0 <= c) counts ->
  sumZ counts < 2 ^ (8 * Z.of_nat width) ->
  exists buffer,
    createBuffer (map (fun n => JLeaf (LNumber n)) (offsetsFrom (Int 0) (map Int counts)))
      (Some (default "UINT32"%string offsetType)) = Ok buffer
    /\ length buffer = (width * S (length counts))%nat
    /\ entries width (S (length counts)) buffer = cumulative counts.
Proof.
  intros Hwidth Hcounts Htotal.
  destruct (offsets_buffer_wrapped offsetType width counts Hwidth)
    as (buffer & Hbuf & Hlen & Hes).
  exists buffer. split; [exact Hbuf |]. split; [exact Hlen |].
  rewrite Hes. rewrite <- (map_id (cumulative counts)) at 2.
  apply map_ext_in. intros s Hs.
  apply list_elem_of_In, list_elem_of_lookup in Hs as [i Hi].
  apply lookup_cumulative_inv in Hi as [_ ->].
  pose proof (sumZ_take_bounds counts i Hcounts).
  apply Z.mod_small. lia.
Qed.

Lemma holdsOffsets_intro (width : nat) (counts : list Z) (buffer : Buffer) :
  Forall (fun c => 0 <= c) counts ->
  length buffer = (width * S (length counts))%nat ->
  entries width (S (length counts)) buffer = cumulative counts ->
  holdsOffsets width counts buffer.
Proof.
  intros Hcounts Hlen Hes. unfold holdsOffsets. cbn zeta. rewrite Hes.
  destruct (cumulative_offsets counts Hcounts) as (H1 & H2 & H3 & H4).
  repeat split; assumption.
Qed.

Lemma holdsWrappedOffsets_intro (width : nat) (counts : list Z) (buffer : Buffer) :
  length buffer = (width * S (length counts))%nat ->
  entries width (S (length counts)) buffer
  = map (fun total => total mod 2 ^ (8 * Z.of_nat width)) (cumulative counts) ->
  holdsWrappedOffsets width counts buffer.
Proof.
  intros Hlen Hes. unfold holdsWrappedOffsets. cbn zeta. rewrite Hes.
  split; [exact Hlen |]. split; [| split; [| reflexivity]].
  - now rewrite length_map, length_cumulative.
  - rewrite list_lookup_fmap, lookup_cumulative by lia. reflexivity.
Qed.

Lemma counts_nonneg {A : Type} (f : A -> nat) (l : list A) :
  Forall (fun c => 0 <= c) (map (fun a => Z.of_nat (f a)) l).
Proof. apply Forall_forall. intros c Hc. apply list_elem_of_In, in_map_iff in Hc as (a & <- & _). lia. Qed.

(** The lengths of rows that are arrays. *)
Lemma mapM_lengthOf_arrays (rows : list (list JValue)) :
  mapM lengthOf (map JArray rows)
  = Ok (map Int (map (fun row => Z.of_nat (length row)) rows)).
Proof.
  induction rows as [| row rows IH]; [reflexivity |].
  cbn [map mapM lengthOf]. rewrite IH. reflexivity.
Qed.

(** C5 (as amended). When the offset type (UINT32 unless another is
    requested) is an unsigned integer type, the array-offsets buffer built
    for rows that are arrays, and the string-offsets buffer built for any
    values, hold rowCount + 1, respectively stringCount + 1 entries; the
    first entry is 0, and every entry is the cumulative element count,
    respectively the cumulative UTF-8 byte length of the strings, modulo
    2^(8 width).  When the total count is below 2^(8 width), the entries
    are the cumulative counts themselves, and none is less than the one
    before it. *)
Theorem offset_buffers_cumulative (offsetType : option string) (width : nat) :
  BinaryPropertyModels.byteSizeForOffsetType (default "UINT32"%string offsetType)
    = Some width ->
  (forall rows : list (list JValue),
      let counts := map (fun row => Z.of_nat (length row)) rows in
      exists buffer,
        createArrayOffsetBuffer (map JArray rows) offsetType = Ok buffer
        /\ length counts = length rows
        /\ holdsWrappedOffsets width counts buffer
        /\ (sumZ counts < 2 ^ (8 * Z.of_nat width) -> holdsOffsets width counts buffer))
  /\ (forall values : list JValue,
      let strings := flattenFully (JArray values) in
      let byteLengths := map (fun s => Z.of_nat (length (encode (ToString s)))) strings in
      exists buffer,
        createStringOffsetBuffer values offsetType = Ok buffer
        /\ length byteLengths = length strings
        /\ holdsWrappedOffsets width byteLengths buffer
        /\ (sumZ byteLengths < 2 ^ (8 * Z.of_nat width) ->
            holdsOffsets width byteLengths buffer)).
Proof.
  intros Hwidth.
  assert (Hgen : forall counts : list Z,
    Forall (fun c => 0 <= c) counts ->
    exists buffer,
      createBuffer (map (fun n => JLeaf (LNumber n)) (offsetsFrom (Int 0) (map Int counts)))
        (Some (default "UINT32"%string offsetType)) = Ok buffer
      /\ holdsWrappedOffsets width counts buffer
      /\ (sumZ counts < 2 ^ (8 * Z.of_nat width) -> holdsOffsets width counts buffer)).
  { intros counts Hnn.
    destruct (offsets_buffer_wrapped offsetType width counts Hwidth)
      as (buffer & Hbuf & Hlen & Hes).
    exists buffer. split; [exact Hbuf |]. split.
    - now apply holdsWrappedOffsets_intro.
    - intros Htotal.
      destruct (offsets_buffer_entries offsetType width counts Hwidth Hnn Htotal)
        as (buffer' & Hbuf' & _ & Hes').
      assert (buffer' = buffer) as -> by congruence.
      now apply holdsOffsets_intro. }
  split.
  - intros rows counts.
    destruct (Hgen counts (counts_nonneg (fun row : list JValue => length row) rows))
      as (buffer & Hbuf & Hwrapped & Hholds).
    exists buffer. split; [| split; [| split; assumption]].
    + unfold createArrayOffsetBuffer. rewrite mapM_lengthOf_arrays. exact Hbuf.
    + unfold counts. now rewrite length_map.
  - intros values strings byteLengths.
    destruct (Hgen byteLengths
                (counts_nonneg (fun s => length (encode (ToString s))) strings))
      as (buffer & Hbuf & Hwrapped & Hholds).
    exists buffer. split; [| split; [| split; assumption]].
    + unfold createStringOffsetBuffer. fold strings.
      rewrite <- (map_map (fun s => Z.of_nat (length (encode (ToString s)))) Int).
      exact Hbuf.
    + unfold byteLengths. now rewrite length_map.
Qed.

End TableBuilder.

(** C5, as the specification states it, fails: with the offset type UINT8,
    two rows of 200 and of 100 elements give the entries 0, 200, 44, the
    last of which is less than the one before it. *)
Lemma createArrayOffsetBuffer_wraps :
  exists buffer,
    BinaryPropertyTables.createArrayOffsetBuffer (H:=Sample.coercions)
      [Sample.rowOf 200; Sample.rowOf 100] (Some "UINT8"%string) = Ok buffer
    /\ TypedArrays.entries 1 3 buffer = [0; 200; 44]
    /\ ~ nondecreasing (TypedArrays.entries 1 3 buffer).
Proof.
  exists [0; 200; 44]. split; [vm_compute; reflexivity |].
  split; [reflexivity |].
  intros Hmono. specialize (Hmono 1%nat 200 44 eq_refl eq_refl). lia.
Qed.

Lemma offset_buffers_cumulative_witness :
  (exists buffer,
      BinaryPropertyTables.createArrayOffsetBuffer (H:=Sample.coercions)
        [Sample.rowOf 2; Sample.rowOf 0; Sample.rowOf 1] (Some "UINT16"%string) = Ok buffer
      /\ holdsOffsets 2 [2; 0; 1] buffer)
  /\ (exists buffer,
      BinaryPropertyTables.createStringOffsetBuffer (H:=Sample.coercions)
        [JLeaf (LString "ab"); JLeaf (LString "cde")] None = Ok buffer
      /\ holdsOffsets 4 [2; 3] buffer).
Proof.
  split.
  - destruct (offset_buffers_cumulative (C:=Sample.coercions) (Some "UINT16"%string) 2
                eq_refl) as [Harray _].
    destruct (Harray [replicate 2 (JLeaf (LNumber (Int 0))); [];
                      replicate 1 (JLeaf (LNumber (Int 0)))])
      as (buffer & Hbuf & _ & _ & Hoffsets).
    exists buffer. split; [exact Hbuf | exact (Hoffsets eq_refl)].
  - destruct (offset_buffers_cumulative (C:=Sample.coercions) None 4 eq_refl)
      as [_ Hstring].
    destruct (Hstring [JLeaf (LString "ab"); JLeaf (LString "cde")])
      as (buffer & Hbuf & _ & _ & Hoffsets).
    exists buffer. split; [exact Hbuf | exact (Hoffsets eq_refl)].
Defined.

(** C2. The code does not do what the claim says.  With the enum
    RED = 10, GREEN = 20 (storage UINT16), the name "GREEN" is packed as
    its position 1 in the value list, not as its code 20; and the name
    "BLUE", which the enum does not define, is packed as -1 (the bytes
    255, 255) without any error. *)
Lemma createValuesBuffer_enum_packs_position :
  BinaryPropertyTables.createValuesBuffer (H:=Sample.coercions)
    Sample.colorProperty Sample.colorSchema [JLeaf (LString "GREEN")] = Ok [1; 0]
  /\ TypedArrays.intElement 2 (Int 20) = [20; 0]
  /\ BinaryPropertyTables.createValuesBuffer (H:=Sample.coercions)
       Sample.colorProperty Sample.colorSchema [JLeaf (LString "BLUE")] = Ok [255; 255].
Proof. repeat split; vm_compute; reflexivity. Qed.

(* ===================================================================== *)
(** ** What the specification says about the entity model                 *)
(* ===================================================================== *)

Section EntityModel.

Context {Value : Type} `{M : MetadataValues Value}.
Import BinaryMetadataEntityModel.


End EntityModel.



(* ===================================================================== *)
(** ** The derivation on concrete inputs                                  *)
(* ===================================================================== *)

Section DerivationExamples.

Local Open Scope float_scope.

Import Sample.

Lemma deriveBoundingBox_child_witness :
  deriveBoundingBox (H:=Sample.externals) unitBox 1 0 0 (Some 0)
  = [-5; -5; -5; 5; 0; 0; 0; 5; 0; 0; 0; 5]
  /\ deriveBoundingBox (H:=Sample.externals) [1; 2; 3; 10; 0; 0; 0; 10; 0; 0; 0; 10]
       2 1 3 None
     = BoxSpec.childBox (H:=Sample.externals)
         [1; 2; 3] [10; 0; 0] [0; 10; 0] [0; 0; 10] 2 1 3 None.
Proof.
  destruct (deriveBoundingBox_child (E:=Sample.externals)) as [Hgeneral Hscenario].
  split.
  - apply Hscenario. reflexivity.
  - apply Hgeneral. reflexivity.
Defined.

(** C3, as the specification states it, fails.  At level 0 the derived
    region is the root region, and a root whose west is 4 is handed back
    with that west, which is greater than PI.  At level 1 a coordinate
    whose x is NaN derives a west and an east that are NaN: the angles
    that are renormalised are NaN, and CesiumJS hands NaN back.  And
    finite inputs can make an angle infinite: on the whole globe at level
    1, the x coordinate 2^1023 times the width PI of a child overflows. *)
Lemma deriveBoundingRegion_leaves_interval :
  (deriveBoundingRegion (H:=Sample.externals) wideRegion 0 0 0 None = wideRegion
   /\ ~ Forall inMinusPiToPi
          (lonLat (deriveBoundingRegion (H:=Sample.externals) wideRegion 0 0 0 None)))
  /\ (lonLat (deriveBoundingRegion (H:=Sample.externals) someRegion 1 nan 0 None)
      = [nan; -0.5; nan; 0]
      /\ ~ Forall inMinusPiToPi
             (lonLat (deriveBoundingRegion (H:=Sample.externals) someRegion 1 nan 0 None)))
  /\ (Forall (fun v => is_finite v = true) (globe ++ [1; 0x1p+1023; 0])
      /\ renormalisedAngles (H:=Sample.externals) globe 1 0x1p+1023 0
         = [infinity; - (PI / 2); nan; 0]
      /\ lonLat (deriveBoundingRegion (H:=Sample.externals) globe 1 0x1p+1023 0 None)
         = [nan; - (PI / 2); nan; 0]
      /\ ~ Forall inMinusPiToPi
             (lonLat (deriveBoundingRegion (H:=Sample.externals) globe 1 0x1p+1023 0
                        None))).
Proof.
  split; [| split].
  - split; [reflexivity |].
    intros Hall. apply Forall_cons_1 in Hall as [[_ Hwest] _].
    vm_compute in Hwest. discriminate.
  - split; [reflexivity |].
    intros Hall. apply Forall_cons_1 in Hall as [[Hwest _] _].
    vm_compute in Hwest. discriminate.
  - split; [repeat constructor |]. split; [reflexivity |]. split; [reflexivity |].
    intros Hall. apply Forall_cons_1 in Hall as [[Hwest _] _].
    vm_compute in Hwest. discriminate.
Qed.

Lemma deriveBoundingRegion_renormalized_witness :
  (deriveBoundingRegion (H:=Sample.externals) someRegion 1 1 0 (Some 1)
   = [0; -0.5; 1; 0; 50; 100]
   /\ Forall inMinusPiToPi
        (lonLat (deriveBoundingRegion (H:=Sample.externals) someRegion 1 1 0 (Some 1))))
  /\ (renormalisedAngles (H:=Sample.externals) dateLineRegion 1 1 0
      = [PI; -0.5; 0x1.a43f6a8885a3p+1; 0]
      /\ deriveBoundingRegion (H:=Sample.externals) dateLineRegion 1 1 0 None
         = [PI; -0.5; -3; 0; 0; 100]
      /\ Forall inMinusPiToPi
           (lonLat (deriveBoundingRegion (H:=Sample.externals) dateLineRegion 1 1 0
                      None))).
Proof.
  split.
  - split; [reflexivity |].
    destruct (deriveBoundingRegion_renormalized (E:=Sample.externals)
                someRegion 1 1 0 (Some 1)) as [Hchild _].
    destruct (Hchild eq_refl) as (_ & _ & _ & Hrange).
    apply Hrange. repeat constructor.
  - split; [reflexivity |]. split; [reflexivity |].
    destruct (deriveBoundingRegion_renormalized (E:=Sample.externals)
                dateLineRegion 1 1 0 None) as [Hchild _].
    destruct (Hchild eq_refl) as (_ & _ & _ & Hrange).
    apply Hrange. repeat constructor.
Defined.

Lemma deriveBoundingVolumeS2_cell_witness :
  token <$> deriveBoundingVolumeS2 (H:=Sample.externals) evenFaceCell 1 1 0 None
  = Ok "1c"%string
  /\ token <$> deriveBoundingVolumeS2 (H:=Sample.externals) oddFaceCell 1 0 1 None
     = S2Cell_getTokenFromId <$> s2ChildCell (H:=Sample.externals) 1 1 1 0.
Proof.
  split; [reflexivity |].
  destruct (deriveBoundingVolumeS2_cell (E:=Sample.externals) oddFaceCell 1 0 1 None
              3458764513820540928%Z eq_refl eq_refl) as (_ & _ & Hcell & _).
  exact Hcell.
Defined.

Lemma deriveBoundingVolume_sphere_witness :
  deriveBoundingVolume (H:=Sample.externals)
    (mkBoundingVolume None None (Some someSphere)
       (Some {[ "VENDOR_extension"%string := ExtOther "{}" ]}))
    [2; 1; 3] = Ok None.
Proof.
  apply (deriveBoundingVolume_sphere (E:=Sample.externals)).
  intros m [= <-]. reflexivity.
Defined.

Lemma deriveBoundingVolume_level0_ignores_xyz_witness :
  deriveBoundingVolume (H:=Sample.externals)
    (mkBoundingVolume (Some unitBox) (Some someRegion) None None) [0; 7; 9; 4]
  = Ok (Some (regionVolume someRegion)).
Proof.
  destruct (deriveBoundingVolume_level0_ignores_xyz (E:=Sample.externals)
              (mkBoundingVolume (Some unitBox) (Some someRegion) None None)
              [0; 7; 9; 4] eq_refl) as (Hselected & _ & _).
  exact Hselected.
Defined.

Lemma deriveBoundingVolume_priority_witness :
  deriveBoundingVolume (H:=Sample.externals)
    (mkBoundingVolume (Some unitBox) (Some someRegion) None
       (Some {[ S2_EXTENSION := ExtS2 evenFaceCell ]}))
    [1; 1; 0]
  = deriveBoundingVolume (H:=Sample.externals) (s2Volume (ExtS2 evenFaceCell)) [1; 1; 0]
  /\ deriveBoundingVolume (H:=Sample.externals)
       (mkBoundingVolume (Some unitBox) (Some someRegion) None None) [1; 1; 0]
     = deriveBoundingVolume (H:=Sample.externals) (regionVolume someRegion) [1; 1; 0].
Proof.
  split.
  - destruct (deriveBoundingVolume_priority (E:=Sample.externals)
                (mkBoundingVolume (Some unitBox) (Some someRegion) None
                   (Some {[ S2_EXTENSION := ExtS2 evenFaceCell ]}))
                [1; 1; 0]) as (Hs2 & _ & _).
    destruct (Hs2 evenFaceCell eq_refl) as [_ Hsame]. exact Hsame.
  - destruct (deriveBoundingVolume_priority (E:=Sample.externals)
                (mkBoundingVolume (Some unitBox) (Some someRegion) None None)
                [1; 1; 0]) as (_ & Hregion & _).
    destruct (Hregion someRegion eq_refl eq_refl) as [_ Hsame]. exact Hsame.
Defined.

End DerivationExamples.

(* ===================================================================== *)
(** ** Further properties of the table builder and of the property models *)
(* ===================================================================== *)

Section Chunks.

Import TypedArrays.

(** The [i]-th chunk of a concatenation, cut out again. *)
Lemma concat_chunk {A : Type} (ls : list (list A)) (i : nat) (l : list A) :
  ls !! i = Some l ->
  take (length l) (drop (length (concat (take i ls))) (concat ls)) = l.
Proof.
  intros Hi. rewrite <- (take_drop_middle ls i l Hi) at 2.
  rewrite concat_app, drop_app_length. cbn [concat].
  now rewrite take_app_length.
Qed.

Lemma length_concat_take_fixed {A : Type} (width : nat) (ls : list (list A)) (i : nat) :
  Forall (fun l => length l = width) ls -> (i <= length ls)%nat ->
  length (concat (take i ls)) = (i * width)%nat.
Proof.
  intros Hall. revert i. induction Hall as [| l ls Hl _ IH]; intros i Hi.
  - destruct i; cbn in *; lia.
  - destruct i as [| i]; [reflexivity |]. cbn in Hi. cbn [take concat].
    rewrite length_app, IH, Hl by lia. lia.
Qed.

Lemma sumZ_lengths {A : Type} (ls : list (list A)) :
  sumZ (map (fun l => Z.of_nat (length l)) ls) = Z.of_nat (length (concat ls)).
Proof.
  unfold sumZ. induction ls as [| l ls IH]; [reflexivity |].
  cbn [map foldr concat]. rewrite IH, length_app. lia.
Qed.

(** Entry [i] of a buffer, read at its byte position. *)
Lemma entries_lookup (width count : nat) (buffer : Buffer) (i : nat) :
  (i < count)%nat -> (i * width < length buffer)%nat ->
  entries width count buffer !! i
  = Some (leValue (take width (drop (i * width) buffer))).
Proof.
  revert count buffer. induction i as [| i IH]; intros count buffer Hcount Hlen.
  - destruct count as [| count]; [lia |]. destruct buffer; [cbn in Hlen; lia |].
    reflexivity.
  - destruct count as [| count]; [lia |]. destruct buffer as [| b buffer]; [cbn in Hlen; lia |].
    cbn [entries lookup list_lookup]. rewrite IH.
    + rewrite drop_drop. reflexivity.
    + lia.
    + rewrite length_drop. lia.
Qed.

End Chunks.

Section ReadingOffsets.

Import TypedArrays BinaryPropertyModels.

Lemma byteSizeForOffsetType_pos (offsetType : string) (width : nat) :
  byteSizeForOffsetType offsetType = Some width -> (0 < width)%nat.
Proof.
  unfold byteSizeForOffsetType.
  repeat match goal with
         | |- context [String.eqb ?a ?b] => destruct (String.eqb a b)
         end; intros [= <-]; lia.
Qed.

(** Reading one entry of an offsets buffer: the entry, or an IndexError
    outside the buffer. *)
Lemma getNumericFromBuffer_entry (offsetType : string) (width count : nat)
    (buffer : Buffer) :
  byteSizeForOffsetType offsetType = Some width ->
  length buffer = (width * count)%nat ->
  (forall i v, entries width count buffer !! i = Some v ->
               getNumericFromBuffer buffer (Z.of_nat i) offsetType = Ok v)
  /\ (forall index, index < 0 \/ Z.of_nat count <= index ->
                    getNumericFromBuffer buffer index offsetType = Throw IndexError).
Proof.
  intros Hwidth Hlen. pose proof (byteSizeForOffsetType_pos _ _ Hwidth) as Hpos.
  unfold getNumericFromBuffer. rewrite Hwidth. split.
  - intros i v Hv.
    assert (Hi : (i < count)%nat).
    { apply lookup_lt_Some in Hv.
      assert (Hle : forall c b, (length (entries width c b) <= c)%nat).
      { induction c as [| c IH]; intros b; cbn; [lia |].
        destruct b; cbn; [lia |]. specialize (IH (drop width (z :: b))). lia. }
      specialize (Hle count buffer). lia. }
    rewrite entries_lookup in Hv by nia. injection Hv as <-.
    replace ((0 <=? Z.of_nat i) && _) with true.
    + do 4 f_equal. lia.
    + symmetry. apply andb_true_iff. split; [apply Z.leb_le; lia |].
      apply Z.leb_le. rewrite Hlen. nia.
  - intros index Hindex.
    replace ((0 <=? index) && _) with false; [reflexivity |].
    symmetry. apply andb_false_iff. destruct Hindex as [Hneg | Hbig].
    + left. apply Z.leb_gt. lia.
    + right. apply Z.leb_gt. rewrite Hlen. nia.
Qed.

(** The slice of row [i] in a buffer that holds the offsets of [counts]. *)
Lemma computeSlice_offsets (offsetType : string) (width : nat) (counts : list Z)
    (buffer : Buffer) :
  byteSizeForOffsetType offsetType = Some width ->
  holdsOffsets width counts buffer ->
  (forall i c, counts !! i = Some c ->
               computeSlice (Z.of_nat i) (Some buffer) offsetType None
               = Ok (sumZ (take i counts), c))
  /\ (forall index, index < 0 \/ Z.of_nat (length counts) <= index ->
                    computeSlice index (Some buffer) offsetType None = Throw IndexError).
Proof.
  intros Hwidth (Hlen & Hes & _ & _ & _ & Hstep).
  destruct (getNumericFromBuffer_entry _ _ _ _ Hwidth Hlen) as [Hread Hout].
  cbn zeta in Hes, Hstep. unfold computeSlice. split.
  - intros i c Hc. pose proof (lookup_lt_Some _ _ _ Hc) as Hi.
    assert (Ha : entries width (S (length counts)) buffer !! i
                 = Some (sumZ (take i counts)))
      by (rewrite Hes; apply lookup_cumulative; lia).
    assert (Hb : entries width (S (length counts)) buffer !! S i
                 = Some (sumZ (take (S i) counts)))
      by (rewrite Hes; apply lookup_cumulative; lia).
    rewrite (Hread _ _ Ha). cbn.
    replace (Z.of_nat i + 1) with (Z.of_nat (S i)) by lia.
    rewrite (Hread _ _ Hb). cbn.
    pose proof (Hstep _ _ _ Ha Hb) as Hdiff. rewrite Hc in Hdiff.
    injection Hdiff as ->. reflexivity.
  - intros index [Hneg | Hbig].
    + rewrite (Hout index) by lia. reflexivity.
    + destruct (getNumericFromBuffer buffer index offsetType) as [v | e] eqn:Hfirst.
      * cbn. rewrite (Hout (index + 1)) by lia. reflexivity.
      * cbn. destruct (Z.eq_dec index (Z.of_nat (length counts))) as [-> | Hne].
        -- assert (Ha : entries width (S (length counts)) buffer !! length counts
                        = Some (sumZ (take (length counts) counts)))
             by (rewrite Hes; apply lookup_cumulative; lia).
           rewrite (Hread _ _ Ha) in Hfirst. discriminate.
        -- rewrite Hout in Hfirst by lia. congruence.
Qed.

End ReadingOffsets.

Section StringColumns.

Context `{C : StringCoercions}.
Import TypedArrays BinaryPropertyTables.

Lemma flattenFully_cons (v : JValue) (vs : list JValue) :
  flattenFully (JArray (v :: vs)) = flattenFully v ++ flattenFully (JArray vs).
Proof. reflexivity. Qed.

Lemma flattenFully_app (vs ws : list JValue) :
  flattenFully (JArray (vs ++ ws))
  = flattenFully (JArray vs) ++ flattenFully (JArray ws).
Proof.
  induction vs as [| v vs IH]; [reflexivity |].
  rewrite <- app_comm_cons, !flattenFully_cons, IH. now rewrite app_assoc.
Qed.

Lemma flattenFully_leaves (leaves : list Leaf) :
  flattenFully (JArray (map JLeaf leaves)) = leaves.
Proof.
  induction leaves as [| leaf leaves IH]; [reflexivity |].
  cbn [map]. rewrite flattenFully_cons, IH. reflexivity.
Qed.

Lemma flattenFully_map_leaf {A : Type} (f : A -> Leaf) (l : list A) :
  flattenFully (JArray (map (fun a => JLeaf (f a)) l)) = map f l.
Proof.
  rewrite <- (map_map f JLeaf). apply flattenFully_leaves.
Qed.

Lemma endsWithHighSurrogate_cons (unit next : Z) (rest : JSString) :
  endsWithHighSurrogate (unit :: next :: rest) = endsWithHighSurrogate (next :: rest).
Proof. reflexivity. Qed.

Lemma endsWithHighSurrogate_tail (unit : Z) (rest : JSString) :
  endsWithHighSurrogate (unit :: rest) = false -> endsWithHighSurrogate rest = false.
Proof. destruct rest; [reflexivity | now rewrite endsWithHighSurrogate_cons]. Qed.

Lemma low_is_not_high (unit : Z) :
  isLowSurrogate unit = true -> isHighSurrogate unit = false.
Proof. unfold isLowSurrogate, isHighSurrogate. lia. Qed.

(** The three steps of the encoder. *)
Lemma encode_pair (unit next : Z) (rest : JSString) :
  isHighSurrogate unit = true -> isLowSurrogate next = true ->
  encode (unit :: next :: rest)
  = utf8 (65536 + (unit - 55296) * 1024 + (next - 56320)) ++ encode rest.
Proof. intros Hhigh Hlow. simpl. now rewrite Hhigh, Hlow. Qed.

Lemma encode_lone_high (unit next : Z) (rest : JSString) :
  isHighSurrogate unit = true -> isLowSurrogate next = false ->
  encode (unit :: next :: rest) = replacement ++ encode (next :: rest).
Proof. intros Hhigh Hlow. simpl. now rewrite Hhigh, Hlow. Qed.

Lemma encode_unit (unit : Z) (rest : JSString) :
  isHighSurrogate unit = false ->
  encode (unit :: rest)
  = (if isLowSurrogate unit then replacement else utf8 unit) ++ encode rest.
Proof.
  intros Hhigh. destruct rest; simpl; rewrite Hhigh;
    now destruct (isLowSurrogate unit).
Qed.

(** The encoder works through a concatenation part by part, unless the
    first part ends in a high surrogate. *)
Lemma encode_app (s t : JSString) :
  endsWithHighSurrogate s = false -> encode (s ++ t) = encode s ++ encode t.
Proof.
  remember (length s) as n eqn:Hn. revert s Hn.
  induction n as [n IH] using lt_wf_ind. intros s Hn Hend.
  destruct s as [| unit rest]; [reflexivity |].
  destruct (isHighSurrogate unit) eqn:Hhigh.
  - destruct rest as [| next rest].
    + unfold endsWithHighSurrogate in Hend. cbn in Hend. congruence.
    + rewrite endsWithHighSurrogate_cons in Hend.
      change ((unit :: next :: rest) ++ t) with (unit :: next :: (rest ++ t)).
      destruct (isLowSurrogate next) eqn:Hlow.
      * rewrite !encode_pair by assumption. rewrite <- app_assoc. f_equal.
        apply (IH (length rest)); [cbn in Hn; lia | reflexivity |].
        destruct rest; [reflexivity |].
        now rewrite endsWithHighSurrogate_cons in Hend.
      * rewrite !encode_lone_high by assumption. rewrite <- app_assoc. f_equal.
        change (next :: rest ++ t) with ((next :: rest) ++ t).
        apply (IH (length (next :: rest))); [cbn in Hn |- *; lia | reflexivity |].
        exact Hend.
  - apply endsWithHighSurrogate_tail in Hend.
    change ((unit :: rest) ++ t) with (unit :: (rest ++ t)).
    rewrite !encode_unit by assumption. rewrite <- app_assoc. f_equal.
    apply (IH (length rest)); [cbn in Hn; lia | reflexivity | exact Hend].
Qed.

Lemma encode_concat (texts : list JSString) :
  Forall (fun s => endsWithHighSurrogate s = false) texts ->
  encode (concat texts) = concat (map encode texts).
Proof.
  induction 1 as [| s texts Hs _ IH]; [reflexivity |].
  cbn [concat map]. now rewrite encode_app, IH.
Qed.

(** The values buffer of a string column whose leaves are separable: the
    bytes of the texts of the leaves, one after the other. *)
Lemma createStringBuffer_chunks (values : list JValue) :
  Forall separable (flattenFully (JArray values)) ->
  createStringBuffer values
  = concat (map (fun leaf => encode (ToString leaf)) (flattenFully (JArray values))).
Proof.
  intros Hleaves. unfold createStringBuffer, createStringBufferInternal.
  assert (Hjoin : map joinText (flattenFully (JArray values))
                  = map ToString (flattenFully (JArray values))).
  { apply Forall_fmap_ext_1. eapply Forall_impl; [exact Hleaves |].
    intros leaf [Hnull _]. now destruct leaf. }
  rewrite Hjoin, encode_concat, map_map; [reflexivity |].
  apply Forall_fmap. eapply Forall_impl; [exact Hleaves |].
  intros leaf [_ Hend]. exact Hend.
Qed.

(** Cutting chunk [i] out of a concatenation at the cumulative lengths. *)
Lemma slice_chunk (chunks : list (list Z)) (i : nat) (chunk : list Z) :
  chunks !! i = Some chunk ->
  let lengths := map (fun l => Z.of_nat (length l)) chunks in
  StringPropertyModel.slice (concat chunks) (sumZ (take i lengths))
    (sumZ (take i lengths) + Z.of_nat (length chunk)) = chunk.
Proof.
  intros Hi lengths. unfold StringPropertyModel.slice, lengths.
  rewrite <- fmap_take. change (fmap ?f ?l) with (map f l).
  rewrite sumZ_lengths.
  replace (Z.to_nat (_ + _ - _)) with (length chunk) by lia.
  rewrite Nat2Z.id. now apply concat_chunk.
Qed.

End StringColumns.

Section RoundTrips.

Context `{C : StringCoercions}.
Import TypedArrays BinaryPropertyTables BinaryPropertyModels.

Lemma offsets_buffer_holds (offsetType : option string) (width : nat) (counts : list Z) :
  byteSizeForOffsetType (default "UINT32"%string offsetType) = Some width ->
  Forall (fun c => 0 <= c) counts ->
  sumZ counts < 2 ^ (8 * Z.of_nat width) ->
  exists buffer,
    createBuffer (map (fun n => JLeaf (LNumber n)) (offsetsFrom (Int 0) (map Int counts)))
      (Some (default "UINT32"%string offsetType)) = Ok buffer
    /\ holdsOffsets width counts buffer.
Proof.
  intros Hwidth Hnn Htotal.
  destruct (offsets_buffer_entries offsetType width counts Hwidth Hnn Htotal)
    as (buffer & Hbuf & Hlen & Hes).
  exists buffer. split; [exact Hbuf |]. now apply holdsOffsets_intro.
Qed.

Lemma createStringOffsetBuffer_holds (values : list JValue) (offsetType : option string)
    (width : nat) :
  let chunks := textChunks (flattenFully (JArray values)) in
  let byteLengths := map (fun l => Z.of_nat (length l)) chunks in
  byteSizeForOffsetType (default "UINT32"%string offsetType) = Some width ->
  sumZ byteLengths < 2 ^ (8 * Z.of_nat width) ->
  exists buffer,
    createStringOffsetBuffer values offsetType = Ok buffer
    /\ holdsOffsets width byteLengths buffer.
Proof.
  intros chunks byteLengths Hwidth Htotal.
  assert (Hnn : Forall (fun c => 0 <= c) byteLengths).
  { apply Forall_forall. intros c Hc.
    apply list_elem_of_In, in_map_iff in Hc as (l & <- & _). lia. }
  destruct (offsets_buffer_holds offsetType width byteLengths Hwidth Hnn Htotal)
    as (buffer & Hbuf & Hholds).
  exists buffer. split; [| exact Hholds].
  unfold createStringOffsetBuffer. rewrite <- Hbuf.
  unfold byteLengths, chunks, textChunks. now rewrite !map_map.
Qed.

(** Reading string [i] of a column from the two buffers built for it. *)
Lemma read_string (decode : list Z -> JSString) (leaves : list Leaf)
    (offsetType : string) (width : nat) (offsetsBuffer : Buffer) :
  let chunks := textChunks leaves in
  let byteLengths := map (fun l => Z.of_nat (length l)) chunks in
  let model := StringPropertyModel.make (concat chunks) offsetsBuffer offsetType in
  byteSizeForOffsetType offsetType = Some width ->
  holdsOffsets width byteLengths offsetsBuffer ->
  (forall i leaf, leaves !! i = Some leaf ->
      StringPropertyModel.getPropertyValue decode model (Z.of_nat i)
      = Ok (decode (encode (ToString leaf))))
  /\ (forall index, index < 0 \/ Z.of_nat (length leaves) <= index ->
      StringPropertyModel.getPropertyValue decode model index = Throw IndexError).
Proof.
  intros chunks byteLengths model Hwidth Hholds.
  destruct (computeSlice_offsets _ _ _ _ Hwidth Hholds) as [Hslice Hout].
  unfold StringPropertyModel.getPropertyValue, model.
  cbn [StringPropertyModel._valuesBuffer StringPropertyModel._stringOffsetsBuffer
       StringPropertyModel._stringOffsetType].
  split.
  - intros i leaf Hleaf.
    assert (Hchunk : chunks !! i = Some (encode (ToString leaf)))
      by (unfold chunks, textChunks; rewrite list_lookup_fmap, Hleaf; reflexivity).
    assert (Hlen : byteLengths !! i = Some (Z.of_nat (length (encode (ToString leaf)))))
      by (unfold byteLengths; rewrite list_lookup_fmap, Hchunk; reflexivity).
    rewrite (Hslice _ _ Hlen). cbn. f_equal. f_equal.
    now apply slice_chunk.
  - intros index Hindex. rewrite Hout; [reflexivity |].
    unfold byteLengths, chunks, textChunks. now rewrite !length_map.
Qed.

(** X1. Round trip of a string column.  For the offset types UINT8, UINT16
    and UINT32 (the default), when no leaf is [null], no text of a leaf
    ends in a high surrogate, and the UTF-8 bytes of all texts fit the
    offset type, a [StringPropertyModel] over the values buffer and the
    string-offsets buffer that the builder creates returns, for row [i],
    the decoded bytes of the text of the [i]-th leaf, and throws an
    IndexError for a row index that is negative or not less than the
    number of leaves. *)
Theorem string_column_round_trip (decode : list Z -> JSString) (values : list JValue)
    (offsetType : option string) (width : nat) :
  let leaves := flattenFully (JArray values) in
  Forall separable leaves ->
  byteSizeForOffsetType (default "UINT32"%string offsetType) = Some width ->
  (width <= 4)%nat ->
  sumZ (map (fun leaf => Z.of_nat (length (encode (ToString leaf)))) leaves)
    < 2 ^ (8 * Z.of_nat width) ->
  exists offsetsBuffer,
    createStringOffsetBuffer values offsetType = Ok offsetsBuffer
    /\ let model := StringPropertyModel.make (createStringBuffer values) offsetsBuffer
                      (default "UINT32"%string offsetType) in
       (forall i leaf, leaves !! i = Some leaf ->
           StringPropertyModel.getPropertyValue decode model (Z.of_nat i)
           = Ok (decode (encode (ToString leaf))))
       /\ (forall index, index < 0 \/ Z.of_nat (length leaves) <= index ->
           StringPropertyModel.getPropertyValue decode model index = Throw IndexError).
Proof.
  intros leaves Hleaves Hwidth _ Htotal.
  destruct (createStringOffsetBuffer_holds values offsetType width Hwidth)
    as (offsetsBuffer & Hbuf & Hholds).
  { unfold textChunks. now rewrite map_map. }
  exists offsetsBuffer. split; [exact Hbuf |].
  rewrite createStringBuffer_chunks by exact Hleaves.
  exact (read_string decode leaves _ width offsetsBuffer Hwidth Hholds).
Qed.

End RoundTrips.

Section StringArrays.

Context `{C : StringCoercions}.
Import TypedArrays BinaryPropertyTables BinaryPropertyModels.

Lemma concat_lookup {A : Type} (ls : list (list A)) (i k : nat) (l : list A) (a : A) :
  ls !! i = Some l -> l !! k = Some a ->
  concat ls !! (length (concat (take i ls)) + k)%nat = Some a.
Proof.
  intros Hi Hk. pose proof (take_drop_middle ls i l Hi) as Hmid.
  apply (f_equal (@concat A)) in Hmid. rewrite concat_app in Hmid. cbn [concat] in Hmid.
  rewrite <- Hmid, lookup_app_r by lia.
  replace (_ + k - _)%nat with k by lia.
  rewrite lookup_app_l by (now apply lookup_lt_Some in Hk).
  exact Hk.
Qed.

Lemma mapM_seq_lookup {A B : Type} (f : nat -> result B) (g : A -> B) (l : list A)
    (start : nat) :
  (forall k a, l !! k = Some a -> f (start + k)%nat = Ok (g a)) ->
  mapM f (seq start (length l)) = Ok (map g l).
Proof.
  revert start. induction l as [| a l IH]; intros start Hf; [reflexivity |].
  cbn [length seq mapM map].
  rewrite <- (Nat.add_0_r start) at 1. rewrite (Hf 0%nat a eq_refl). cbn.
  rewrite (IH (S start)); [reflexivity |].
  intros k b Hb. replace (S start + k)%nat with (start + S k)%nat by lia.
  now apply Hf.
Qed.

Lemma flattenFully_stringRows (rows : list (list Leaf)) :
  flattenFully (JArray (stringRows rows)) = concat rows.
Proof.
  induction rows as [| row rows IH]; [reflexivity |].
  unfold stringRows in *. cbn [map concat].
  rewrite flattenFully_cons, IH, flattenFully_leaves. reflexivity.
Qed.

Lemma createArrayOffsetBuffer_holds {A : Type} (toValue : list A -> list JValue)
    (rows : list (list A)) (offsetType : option string) (width : nat) :
  (forall row, length (toValue row) = length row) ->
  let counts := map (fun row => Z.of_nat (length row)) rows in
  byteSizeForOffsetType (default "UINT32"%string offsetType) = Some width ->
  sumZ counts < 2 ^ (8 * Z.of_nat width) ->
  exists buffer,
    createArrayOffsetBuffer (map (fun row => JArray (toValue row)) rows) offsetType
      = Ok buffer
    /\ holdsOffsets width counts buffer.
Proof.
  intros HtoValue counts Hwidth Htotal.
  assert (Hnn : Forall (fun c => 0 <= c) counts).
  { apply Forall_forall. intros c Hc.
    apply list_elem_of_In, in_map_iff in Hc as (l & <- & _). lia. }
  destruct (offsets_buffer_holds offsetType width counts Hwidth Hnn Htotal)
    as (buffer & Hbuf & Hholds).
  exists buffer. split; [| exact Hholds].
  unfold createArrayOffsetBuffer.
  rewrite <- (map_map toValue JArray), mapM_lengthOf_arrays.
  cbn [mbind result_bind JS.bind].
  rewrite <- Hbuf. unfold counts.
  rewrite !map_map. do 3 f_equal. apply map_ext. intros row.
  now rewrite HtoValue.
Qed.

(** X2. Round trip of a variable-length string array column.  For the
    offset types UINT8, UINT16 and UINT32 (the default), when no leaf is
    [null], no text of a leaf ends in a high surrogate, and the number of
    leaves and the number of the UTF-8 bytes of their texts fit the offset
    types, a [StringArrayPropertyModel] over the three buffers that the
    builder creates returns, for row [i], the decoded bytes of the texts
    of the leaves of that row, in order, and throws an IndexError for a
    row index that is negative or not less than the number of rows. *)
Theorem string_array_column_round_trip (decode : list Z -> JSString)
    (rows : list (list Leaf)) (arrayOffsetType stringOffsetType : option string)
    (arrayWidth stringWidth : nat) :
  let values := stringRows rows in
  let leaves := concat rows in
  Forall separable leaves ->
  byteSizeForOffsetType (default "UINT32"%string arrayOffsetType) = Some arrayWidth ->
  byteSizeForOffsetType (default "UINT32"%string stringOffsetType) = Some stringWidth ->
  (arrayWidth <= 4)%nat -> (stringWidth <= 4)%nat ->
  Z.of_nat (length leaves) < 2 ^ (8 * Z.of_nat arrayWidth) ->
  sumZ (map (fun leaf => Z.of_nat (length (encode (ToString leaf)))) leaves)
    < 2 ^ (8 * Z.of_nat stringWidth) ->
  exists arrayOffsets stringOffsets,
    createArrayOffsetBuffer values arrayOffsetType = Ok arrayOffsets
    /\ createStringOffsetBuffer values stringOffsetType = Ok stringOffsets
    /\ let model :=
         StringArrayPropertyModel.make (createStringBuffer values) (Some arrayOffsets)
           (default "UINT32"%string arrayOffsetType) stringOffsets
           (default "UINT32"%string stringOffsetType) None in
       (forall i row, rows !! i = Some row ->
           StringArrayPropertyModel.getPropertyValue decode model (Z.of_nat i)
           = Ok (map (fun leaf => decode (encode (ToString leaf))) row))
       /\ (forall index, index < 0 \/ Z.of_nat (length rows) <= index ->
           StringArrayPropertyModel.getPropertyValue decode model index
           = Throw IndexError).
Proof.
  intros values leaves Hleaves HarrayWidth HstringWidth HarraySmall _ Hcount Hbytes.
  destruct (createArrayOffsetBuffer_holds (map JLeaf) rows arrayOffsetType arrayWidth)
    as (arrayOffsets & Harray & HarrayHolds); try assumption.
  { intros row. apply length_map. }
  { rewrite sumZ_lengths. exact Hcount. }
  destruct (createStringOffsetBuffer_holds values stringOffsetType stringWidth HstringWidth)
    as (stringOffsets & Hstring & HstringHolds).
  { unfold values. rewrite flattenFully_stringRows. unfold textChunks.
    now rewrite map_map. }
  exists arrayOffsets, stringOffsets. split; [exact Harray |]. split; [exact Hstring |].
  unfold values in *.
  rewrite createStringBuffer_chunks by (now rewrite flattenFully_stringRows).
  rewrite flattenFully_stringRows in *.
  fold leaves in HstringHolds |- *.
  destruct (computeSlice_offsets _ _ _ _ HarrayWidth HarrayHolds) as [HarraySlice HarrayOut].
  destruct (read_string decode leaves _ stringWidth stringOffsets HstringWidth HstringHolds)
    as [Hread _].
  unfold StringArrayPropertyModel.getPropertyValue.
  cbn [StringArrayPropertyModel._arrayOffsetsBuffer StringArrayPropertyModel._arrayOffsetType
       StringArrayPropertyModel._count].
  split.
  - intros i row Hrow.
    assert (Hlen : map (fun r : list Leaf => Z.of_nat (length r)) rows !! i
                   = Some (Z.of_nat (length row)))
      by (rewrite list_lookup_fmap, Hrow; reflexivity).
    rewrite (HarraySlice _ _ Hlen). cbn.
    assert (Hrowlen : Z.of_nat (length row) < 2 ^ 32).
    { assert (length row <= length leaves)%nat.
      { unfold leaves. rewrite <- (take_drop_middle rows i row Hrow).
        rewrite concat_app, length_app. cbn [concat]. rewrite length_app. lia. }
      assert (2 ^ (8 * Z.of_nat arrayWidth) <= 2 ^ 32)
        by (apply Z.pow_le_mono_r; lia).
      lia. }
    unfold StringArrayPropertyModel.newArray.
    replace ((0 <=? Z.of_nat (length row)) && (Z.of_nat (length row) <? 2 ^ 32))
      with true
      by (symmetry; apply andb_true_iff; split; [apply Z.leb_le | apply Z.ltb_lt]; lia).
    cbn. rewrite Nat2Z.id.
    apply (mapM_seq_lookup _ (fun leaf => decode (encode (ToString leaf))) row 0%nat).
    intros k leaf Hleaf. unfold StringArrayPropertyModel.element.
    cbn [StringArrayPropertyModel._stringOffsetsBuffer
         StringArrayPropertyModel._stringOffsetType
         StringArrayPropertyModel._valuesBuffer].
    rewrite <- fmap_take. change (fmap ?f ?l) with (map f l).
    rewrite sumZ_lengths. rewrite <- Nat2Z.inj_add.
    pose proof (concat_lookup rows i k row leaf Hrow Hleaf) as Hflat.
    fold leaves in Hflat.
    specialize (Hread _ _ Hflat).
    unfold StringPropertyModel.getPropertyValue in Hread.
    cbn [StringPropertyModel._valuesBuffer StringPropertyModel._stringOffsetsBuffer
         StringPropertyModel._stringOffsetType] in Hread.
    exact Hread.
  - intros index Hindex. rewrite HarrayOut; [reflexivity |].
    now rewrite length_map.
Qed.

End StringArrays.

Section BooleanColumns.

Import TypedArrays BinaryPropertyTables.

Lemma testbit_one_shifted (b k : Z) :
  0 <= b -> 0 <= k -> Z.testbit (Z.shiftl 1 b) k = (k =? b).
Proof.
  intros Hb Hk. rewrite Z.shiftl_spec by lia.
  destruct (Z.eqb_spec k b) as [-> | Hne].
  - now rewrite Z.sub_diag.
  - destruct (Z.lt_ge_cases k b).
    + apply Z.testbit_neg_r. lia.
    + destruct (k - b) as [| d | d] eqn:Hd; [lia | reflexivity | lia].
Qed.

Lemma bitAt_alter (buffer : list Z) (i p : nat) :
  (i < 8 * length buffer)%nat ->
  bitAt (alter (fun byte => Z.lor byte (Z.shiftl 1 (Z.of_nat (i mod 8)))) (i / 8)%nat buffer) p
  = bitAt buffer p || Nat.eqb p i.
Proof.
  intros Hi. unfold bitAt.
  destruct (Nat.eq_dec (p / 8)%nat (i / 8)%nat) as [Heq | Hne].
  - rewrite Heq, list_lookup_alter_eq.
    assert (Hbound : (i / 8 < length buffer)%nat)
      by (apply Nat.Div0.div_lt_upper_bound; lia).
    destruct (lookup_lt_is_Some_2 buffer (i / 8)%nat Hbound) as [byte Hbyte].
    rewrite Hbyte. cbn [fmap option_fmap option_map from_option id].
    rewrite Z.lor_spec, testbit_one_shifted by lia.
    f_equal. destruct (Nat.eqb_spec p i) as [-> | Hpi].
    + apply Z.eqb_refl.
    + apply Z.eqb_neq. intros Hmod. apply Hpi.
      rewrite (Nat.div_mod_eq p 8), (Nat.div_mod_eq i 8). lia.
  - rewrite list_lookup_alter_ne by congruence.
    destruct (Nat.eqb_spec p i) as [-> | _]; [congruence |].
    now rewrite orb_false_r.
Qed.

Lemma setBits_spec (values : list Leaf) (i : nat) (buffer : list Z) :
  (i + length values <= 8 * length buffer)%nat ->
  length (setBits values i buffer) = length buffer
  /\ forall p, bitAt (setBits values i buffer) p
               = bitAt buffer p
                 || match values !! (p - i)%nat with
                    | Some leaf => Nat.leb i p && ToBoolean leaf
                    | None => false
                    end.
Proof.
  revert i buffer. induction values as [| v values IH]; intros i buffer Hfit.
  - split; [reflexivity |]. intros p. cbn. now rewrite orb_false_r.
  - cbn [length] in Hfit. cbn [setBits].
    set (buffer' := if ToBoolean v then _ else buffer).
    assert (Hlen : length buffer' = length buffer)
      by (unfold buffer'; destruct (ToBoolean v); [apply length_alter | reflexivity]).
    assert (Hbit : forall p, bitAt buffer' p
                             = bitAt buffer p || (Nat.eqb p i && ToBoolean v)).
    { intros p. unfold buffer'. destruct (ToBoolean v).
      - rewrite bitAt_alter by lia. now rewrite andb_true_r.
      - now rewrite andb_false_r, orb_false_r. }
    destruct (IH (S i) buffer') as [Hlen' Hbits']; [lia |].
    split; [lia |]. intros p. rewrite Hbits', Hbit, <- orb_assoc. f_equal.
    destruct (Nat.eqb_spec p i) as [-> | Hpi].
    + rewrite Nat.sub_diag. cbn [lookup list_lookup].
      rewrite Nat.leb_refl.
      replace (i - S i)%nat with 0%nat by lia.
      destruct (values !! 0%nat); [| now rewrite orb_false_r].
      replace (Nat.leb (S i) i) with false by (symmetry; apply Nat.leb_gt; lia).
      now rewrite orb_false_r.
    + cbn [andb orb]. destruct (Nat.le_gt_cases p i) as [Hle | Hgt].
      * replace (p - S i)%nat with 0%nat by lia.
        replace (p - i)%nat with 0%nat by lia. cbn [lookup list_lookup].
        replace (Nat.leb i p) with false by (symmetry; apply Nat.leb_gt; lia).
        destruct (values !! 0%nat); [| reflexivity].
        replace (Nat.leb (S i) p) with false by (symmetry; apply Nat.leb_gt; lia).
        reflexivity.
      * replace (p - i)%nat with (S (p - S i)) by lia. cbn [lookup list_lookup].
        destruct (values !! (p - S i)%nat); [| reflexivity].
        replace (Nat.leb (S i) p) with true by (symmetry; apply Nat.leb_le; lia).
        replace (Nat.leb i p) with true by (symmetry; apply Nat.leb_le; lia).
        reflexivity.
Qed.

(** X3. The boolean buffer has one byte per eight leaves (rounded up); bit
    [i mod 8] of byte [i / 8] is set exactly when leaf [i] is truthy; and
    every bit of the buffer past the last leaf is clear. *)
Theorem boolean_buffer_bits (values : list JValue) :
  let leaves := flattenFully (JArray values) in
  let buffer := createBooleanBuffer values in
  length buffer = ((length leaves + 7) / 8)%nat
  /\ (forall i leaf, leaves !! i = Some leaf -> bitAt buffer i = ToBoolean leaf)
  /\ (forall p, (length leaves <= p)%nat -> bitAt buffer p = false).
Proof.
  intros leaves buffer. unfold buffer, createBooleanBuffer, createBooleanBufferInternal.
  fold leaves.
  destruct (setBits_spec leaves 0 (replicate ((length leaves + 7) / 8) 0))
    as [Hlen Hbits].
  { rewrite length_replicate. pose proof (Nat.div_mod_eq (length leaves + 7) 8).
    pose proof (Nat.mod_upper_bound (length leaves + 7) 8). lia. }
  assert (Hzero : forall p, bitAt (replicate ((length leaves + 7) / 8) 0) p = false).
  { intros p. unfold bitAt.
    destruct (replicate _ 0 !! (p / 8)%nat) as [byte |] eqn:Hbyte.
    - apply lookup_replicate in Hbyte as [-> _]. apply Z.testbit_0_l.
    - apply Z.testbit_0_l. }
  split; [now rewrite Hlen, length_replicate |]. split.
  - intros i leaf Hleaf. rewrite Hbits, Hzero, Nat.sub_0_r, Hleaf. reflexivity.
  - intros p Hp. rewrite Hbits, Hzero, Nat.sub_0_r.
    now rewrite (lookup_ge_None_2 leaves p Hp).
Qed.

End BooleanColumns.

(** Case analysis on a component type name, one character and one bit at
    a time, until the [match] of [createBufferInternal] is decided. *)
Ltac decide_component_type :=
  repeat (cbv beta iota;
          match goal with
          | |- context [match ?x with _ => _ end] => is_var x; destruct x
          end);
  cbv beta iota.

Section PackedBuffers.

Context `{C : StringCoercions}.
Import TypedArrays BinaryPropertyTables.

Lemma leBytes_bytes (width : nat) (v : Z) : Forall isByte (leBytes width v).
Proof.
  revert v. induction width as [| w IH]; intros v; cbn; constructor.
  - unfold isByte. apply Z.mod_pos_bound. lia.
  - apply IH.
Qed.

Lemma packs_concat {A : Type} (width : nat) (f : A -> list Z) (l : list A) :
  (forall a, length (f a) = width /\ Forall isByte (f a)) ->
  packs width (length l) (concat (map f l)).
Proof.
  intros Hf. unfold packs. induction l as [| a l [IHlen IHbytes]].
  - cbn. split; [lia | constructor].
  - cbn [map concat length]. destruct (Hf a) as [Hlen Hbytes]. split.
    + rewrite length_app, IHlen, Hlen. lia.
    + apply Forall_app. split; assumption.
Qed.

Lemma intElement_packs (width : nat) (n : number) :
  length (intElement width n) = width /\ Forall isByte (intElement width n).
Proof. destruct n; cbn; split; auto using length_leBytes, leBytes_bytes. Qed.

Lemma floatElement_packs (width : nat) (prec emax : Z) (n : number) :
  length (floatElement width prec emax n) = width
  /\ Forall isByte (floatElement width prec emax n).
Proof. destruct n; cbn; split; auto using length_leBytes, leBytes_bytes. Qed.

Lemma length_mapM {A B : Type} (f : A -> result B) (l : list A) (bs : list B) :
  mapM f l = Ok bs -> length bs = length l.
Proof.
  revert bs. induction l as [| a l IH]; intros bs; cbn.
  - intros [= <-]. reflexivity.
  - destruct (f a) as [b | e]; cbn; [| discriminate].
    destruct (mapM f l) as [bs' | e]; cbn; [| discriminate].
    intros [= <-]. cbn. now rewrite (IH bs' eq_refl).
Qed.

(** What [createBuffer] returns: a buffer only for one of the ten component
    type names, and then one element of the type's width per leaf. *)
Lemma createBuffer_packs (values : list JValue) (componentType : option string)
    (buffer : Buffer) :
  createBuffer values componentType = Ok buffer ->
  exists name width,
    componentType = Some name
    /\ componentByteSize name = Some width
    /\ packs width (length (flattenFully (JArray values))) buffer.
Proof.
  unfold createBuffer, createBufferInternal.
  generalize (flattenFully (JArray values)) as leaves. intros leaves.
  set (bigints := zs ← mapM ToBigInt leaves;
                  Ok (concat (map (fun z => intElement 8 (Int z)) zs))).
  assert (Hbig : match bigints with
                 | Ok b => packs 8 (length leaves) b
                 | Throw _ => True
                 end).
  { unfold bigints.
    destruct (mapM ToBigInt leaves) as [zs | e] eqn:Hzs; cbn; [| exact I].
    rewrite <- (length_mapM _ _ _ Hzs).
    apply packs_concat. intros z. apply (intElement_packs 8 (Int z)). }
  clearbody bigints.
  destruct componentType as [name |]; [| discriminate].
  decide_component_type;
    intros Hresult; try discriminate Hresult;
    eexists _, _; (split; [reflexivity |]); (split; [reflexivity |]);
    first [ injection Hresult as <-; apply packs_concat; intros leaf;
            first [apply intElement_packs | apply floatElement_packs]
          | rewrite Hresult in Hbig; exact Hbig ].
Qed.

End PackedBuffers.

Section ColumnBuffers.

Context `{C : StringCoercions}.
Import TypedArrays BinaryPropertyTables.

Lemma utf8_bytes (codePoint : Z) : Forall isByte (utf8 codePoint).
Proof.
  unfold utf8, isByte.
  pose proof (Z.mod_pos_bound codePoint 128 ltac:(lia)).
  pose proof (Z.mod_pos_bound codePoint 64 ltac:(lia)).
  pose proof (Z.mod_pos_bound (codePoint / 64) 32 ltac:(lia)).
  pose proof (Z.mod_pos_bound (codePoint / 64) 64 ltac:(lia)).
  pose proof (Z.mod_pos_bound (codePoint / 4096) 16 ltac:(lia)).
  pose proof (Z.mod_pos_bound (codePoint / 4096) 64 ltac:(lia)).
  pose proof (Z.mod_pos_bound (codePoint / 262144) 8 ltac:(lia)).
  repeat match goal with |- context [if ?c then _ else _] => destruct c end;
    repeat (apply Forall_cons_2 || apply Forall_nil_2); lia.
Qed.

Lemma replacement_bytes : Forall isByte replacement.
Proof. unfold replacement, isByte. repeat (apply Forall_cons_2 || apply Forall_nil_2); lia. Qed.

Lemma encode_bytes (s : JSString) : Forall isByte (encode s).
Proof.
  remember (length s) as n eqn:Hn. revert s Hn.
  induction n as [n IH] using lt_wf_ind. intros s Hn.
  destruct s as [| unit rest]; [constructor |].
  destruct (isHighSurrogate unit) eqn:Hhigh.
  - destruct rest as [| next rest].
    + simpl. rewrite Hhigh. apply replacement_bytes.
    + destruct (isLowSurrogate next) eqn:Hlow.
      * rewrite encode_pair by assumption. apply Forall_app. split.
        -- apply utf8_bytes.
        -- apply (IH (length rest)); [cbn in Hn; lia | reflexivity].
      * rewrite encode_lone_high by assumption. apply Forall_app. split.
        -- apply replacement_bytes.
        -- apply (IH (length (next :: rest))); [cbn in Hn |- *; lia | reflexivity].
  - rewrite encode_unit by assumption. apply Forall_app. split.
    + destruct (isLowSurrogate unit); [apply replacement_bytes | apply utf8_bytes].
    + apply (IH (length rest)); [cbn in Hn; lia | reflexivity].
Qed.

Lemma lor_bit_byte (byte bit : Z) :
  isByte byte -> 0 <= bit < 8 -> isByte (Z.lor byte (Z.shiftl 1 bit)).
Proof.
  unfold isByte. intros Hbyte Hbit.
  assert (Hnn : 0 <= Z.lor byte (Z.shiftl 1 bit)).
  { apply Z.lor_nonneg. split; [lia |]. apply Z.shiftl_nonneg. lia. }
  split; [exact Hnn |].
  destruct (Z.eq_dec (Z.lor byte (Z.shiftl 1 bit)) 0) as [-> | Hne]; [lia |].
  change 256 with (2 ^ 8). apply Z.log2_lt_pow2; [lia |].
  rewrite Z.log2_lor by (try lia; apply Z.shiftl_nonneg; lia).
  rewrite Z.shiftl_1_l, Z.log2_pow2 by lia.
  apply Z.max_lub_lt; [| lia].
  destruct (Z.eq_dec byte 0) as [-> | Hb0]; [cbn; lia |].
  apply Z.log2_lt_pow2; lia.
Qed.

Lemma setBits_bytes (values : list Leaf) (i : nat) (buffer : list Z) :
  Forall isByte buffer -> Forall isByte (setBits values i buffer).
Proof.
  revert i buffer. induction values as [| v values IH]; intros i buffer Hbytes;
    [exact Hbytes |].
  cbn [setBits]. apply IH. destruct (ToBoolean v); [| exact Hbytes].
  apply Forall_alter; [exact Hbytes |]. intros byte _ Hbyte.
  apply lor_bit_byte; [exact Hbyte |].
  pose proof (Nat.mod_upper_bound i 8). lia.
Qed.

Lemma createValuesBuffer_bytes (classProperty : ClassProperty) (schema : Schema)
    (values : list JValue) (buffer : Buffer) :
  createValuesBuffer classProperty schema values = Ok buffer -> Forall isByte buffer.
Proof.
  unfold createValuesBuffer, flatten.
  destruct (String.eqb (propertyType classProperty) "STRING").
  { intros [= <-]. apply encode_bytes. }
  destruct (String.eqb (propertyType classProperty) "BOOLEAN").
  { intros [= <-]. apply setBits_bytes, Forall_replicate. unfold isByte. lia. }
  destruct (enumType classProperty) as [enumName |].
  - destruct (enums schema) as [metadataEnums |]; [| discriminate].
    destruct (member metadataEnums enumName) as [metadataEnum | name |];
      [| discriminate | discriminate].
    intros Hbuffer. apply createBuffer_packs in Hbuffer as (_ & _ & _ & _ & _ & Hbytes).
    exact Hbytes.
  - intros Hbuffer. apply createBuffer_packs in Hbuffer as (_ & _ & _ & _ & _ & Hbytes).
    exact Hbytes.
Qed.

Lemma createArrayOffsetBuffer_bytes (values : list JValue) (offsetType : option string)
    (buffer : Buffer) :
  createArrayOffsetBuffer values offsetType = Ok buffer -> Forall isByte buffer.
Proof.
  unfold createArrayOffsetBuffer.
  destruct (mapM lengthOf values) as [lengths | e]; cbn [mbind result_bind JS.bind];
    [| discriminate].
  intros Hbuffer. apply createBuffer_packs in Hbuffer as (_ & _ & _ & _ & _ & Hbytes).
  exact Hbytes.
Qed.

(** X4. [createPropertyTableProperty] appends to the array of buffers and
    leaves the buffers that were there untouched: first the values buffer,
    then the array-offsets buffer exactly when the property is an array
    without a count, then the string-offsets buffer exactly when the type
    is STRING.  Each index that the returned property holds is the position
    of the buffer that was built for it; the property carries no offset and
    no scale; and every appended buffer consists of bytes (0 to 255). *)
Theorem createPropertyTableProperty_views (classProperty : ClassProperty)
    (schema : Schema) (column : list JValue)
    (arrayOffsetType stringOffsetType : option string)
    (bufferViewsData : list Buffer)
    (property : PropertyTableProperty JValue) (created : list Buffer) :
  createPropertyTableProperty classProperty schema column arrayOffsetType
    stringOffsetType bufferViewsData = Ok (property, created) ->
  let variableLength :=
    isArray classProperty && negb (bool_decide (is_Some (count classProperty))) in
  let isString := String.eqb (propertyType classProperty) "STRING" in
  exists valuesBuffer arrayBuffers stringBuffers,
    createValuesBuffer classProperty schema column = Ok valuesBuffer
    /\ (if variableLength
        then exists b, createArrayOffsetBuffer column arrayOffsetType = Ok b
                       /\ arrayBuffers = [b]
        else arrayBuffers = [])
    /\ (if isString
        then exists b, createStringOffsetBuffer column stringOffsetType = Ok b
                       /\ stringBuffers = [b]
        else stringBuffers = [])
    /\ created = bufferViewsData ++ [valuesBuffer] ++ arrayBuffers ++ stringBuffers
    /\ values property = length bufferViewsData
    /\ arrayOffsets property
       = (if variableLength then Some (length bufferViewsData + 1)%nat else None)
    /\ stringOffsets property
       = (if isString
          then Some (length bufferViewsData + 1 + length arrayBuffers)%nat else None)
    /\ offset property = None /\ scale property = None
    /\ Forall (Forall isByte) ([valuesBuffer] ++ arrayBuffers ++ stringBuffers).
Proof.
  intros Hcreated variableLength isString. unfold createPropertyTableProperty in Hcreated.
  fold variableLength isString in Hcreated. clearbody variableLength isString.
  destruct (createValuesBuffer classProperty schema column) as [valuesBuffer | e]
    eqn:Hvalues; [| discriminate]. cbn [mbind result_bind JS.bind] in Hcreated.
  pose proof (createValuesBuffer_bytes _ _ _ _ Hvalues) as HvaluesBytes.
  assert (Hoffsets : forall vs ty b,
             createBuffer vs ty = Ok b -> Forall isByte b).
  { intros vs ty b Hb. apply createBuffer_packs in Hb as (_ & _ & _ & _ & _ & Hbytes).
    exact Hbytes. }
  exists valuesBuffer.
  destruct variableLength.
  - destruct (createArrayOffsetBuffer column arrayOffsetType) as [arrayBuffer | e]
      eqn:Harray; cbn [mbind result_bind JS.bind] in Hcreated; [| destruct isString; discriminate].
    pose proof (createArrayOffsetBuffer_bytes _ _ _ Harray) as HarrayBytes.
    destruct isString.
    + destruct (createStringOffsetBuffer column stringOffsetType) as [stringBuffer | e]
        eqn:Hstring; cbn [mbind result_bind JS.bind] in Hcreated; [| discriminate].
      pose proof (Hoffsets _ _ _ Hstring) as HstringBytes.
      injection Hcreated as <- <-. exists [arrayBuffer], [stringBuffer]. cbn.
      rewrite !length_app. cbn.
      repeat split; eauto; try (f_equal; lia);
        try (rewrite <- !app_assoc; reflexivity);
        try (repeat constructor; assumption).
    + cbn [mbind result_bind JS.bind] in Hcreated. injection Hcreated as <- <-. exists [arrayBuffer], []. cbn.
      rewrite !length_app. cbn.
      repeat split; eauto; try (f_equal; lia);
        try (rewrite <- !app_assoc; reflexivity);
        try (repeat constructor; assumption).
  - cbn [mbind result_bind JS.bind] in Hcreated. destruct isString.
    + destruct (createStringOffsetBuffer column stringOffsetType) as [stringBuffer | e]
        eqn:Hstring; cbn [mbind result_bind JS.bind] in Hcreated; [| discriminate].
      pose proof (Hoffsets _ _ _ Hstring) as HstringBytes.
      injection Hcreated as <- <-. exists [], [stringBuffer]. cbn.
      rewrite !length_app. cbn.
      repeat split; eauto; try (f_equal; lia);
        try (rewrite <- !app_assoc; reflexivity);
        try (repeat constructor; assumption).
    + cbn [mbind result_bind JS.bind] in Hcreated. injection Hcreated as <- <-. exists [], []. cbn.
      repeat split; eauto; try (repeat constructor; assumption).
Qed.

End ColumnBuffers.

Section ComponentTypes.

Context `{C : StringCoercions}.
Import TypedArrays BinaryPropertyTables.

Lemma createBuffer_small_types (values : list JValue) (name : string) (width : nat) :
  componentByteSize name = Some width ->
  name <> "INT64"%string -> name <> "UINT64"%string ->
  exists buffer, createBuffer values (Some name) = Ok buffer.
Proof.
  intros Hsize Hne64 Hneu64. revert Hsize. unfold componentByteSize.
  repeat match goal with
         | |- context [String.eqb name ?t] =>
             destruct (String.eqb_spec name t) as [-> | _];
             [intros _; try congruence; eexists; reflexivity |]
         end.
  discriminate.
Qed.

Lemma createBuffer_rejects (values : list JValue) (name : string) :
  componentByteSize name = None ->
  exists message, createBuffer values (Some name) = Throw (MetadataError message).
Proof.
  unfold createBuffer, createBufferInternal.
  generalize (flattenFully (JArray values)) as leaves. intros leaves.
  generalize (zs ← mapM ToBigInt leaves;
              Ok (concat (map (fun z => intElement 8 (Int z)) zs))) as bigints.
  intros bigints.
  decide_component_type; intros Hnone; try discriminate Hnone;
    eexists; reflexivity.
Qed.

(** X5. [createBuffer] returns a buffer only for one of the ten component
    type names, and the buffer then holds one element of the type's width
    for every leaf, all of it bytes.  For the eight names other than INT64
    and UINT64 it always returns a buffer, whatever the leaves are.  For a
    missing name or any other name it throws a MetadataError. *)
Theorem createBuffer_component_types (values : list JValue)
    (componentType : option string) :
  (forall buffer,
      createBuffer values componentType = Ok buffer ->
      exists name width,
        componentType = Some name
        /\ componentByteSize name = Some width
        /\ packs width (length (flattenFully (JArray values))) buffer)
  /\ (forall name width,
        componentType = Some name -> componentByteSize name = Some width ->
        name <> "INT64"%string -> name <> "UINT64"%string ->
        exists buffer, createBuffer values componentType = Ok buffer)
  /\ (componentType = None
      \/ (exists name, componentType = Some name /\ componentByteSize name = None) ->
      exists message, createBuffer values componentType = Throw (MetadataError message)).
Proof.
  split; [| split].
  - intros buffer. apply createBuffer_packs.
  - intros name width -> Hsize Hne64 Hneu64.
    exact (createBuffer_small_types values name width Hsize Hne64 Hneu64).
  - intros [-> | (name & -> & Hnone)]; [eexists; reflexivity |].
    now apply createBuffer_rejects.
Qed.

Lemma indexOfFrom_code (enumValues : list EnumValue) (name : JSString) (start : Z) :
  (forall i value, enumValues !! i = Some value ->
                   enumValueValue value = start + Z.of_nat i) ->
  indexOfFrom (map enumValueName enumValues) name start
  = default (-1) (enumCode enumValues name).
Proof.
  revert start. induction enumValues as [| value rest IH]; intros start Hcodes;
    [reflexivity |].
  cbn [map indexOfFrom enumCode].
  destruct (sameString (enumValueName value) name).
  - cbn. rewrite (Hcodes 0%nat value eq_refl). lia.
  - apply IH. intros i v Hv. rewrite (Hcodes (S i) v Hv). lia.
Qed.

(** X6. The values buffer of an ENUM column (a type other than STRING and
    BOOLEAN, with an enum that the schema defines) is packed at the enum's
    value type, UINT16 when it has none.  When the code of every value of
    the enum is its position in the value list, the buffer holds the
    enum-defined code of every leaf that is a name of the enum, and -1 for
    every other leaf. *)
Theorem createValuesBuffer_enum_codes (classProperty : ClassProperty) (schema : Schema)
    (column : list JValue) (enumName : string)
    (metadataEnums : gmap string MetadataEnum) (metadataEnum : MetadataEnum) :
  String.eqb (propertyType classProperty) "STRING" = false ->
  String.eqb (propertyType classProperty) "BOOLEAN" = false ->
  enumType classProperty = Some enumName ->
  enums schema = Some metadataEnums ->
  metadataEnums !! enumName = Some metadataEnum ->
  (forall i value, enumValues metadataEnum !! i = Some value ->
                   enumValueValue value = Z.of_nat i) ->
  createValuesBuffer classProperty schema column
  = createBuffer
      (map (fun leaf => JLeaf (LNumber (Int (leafCode (enumValues metadataEnum) leaf))))
           (flattenFully (JArray column)))
      (Some (default "UINT16"%string (enumValueType metadataEnum))).
Proof.
  intros Hstring Hboolean HenumType Henums Henum Hcodes.
  unfold createValuesBuffer, flatten, member.
  rewrite Hstring, Hboolean, HenumType, Henums, Henum.
  f_equal. apply map_ext. intros leaf. do 3 f_equal.
  destruct leaf as [name | n | b |]; try reflexivity.
  cbn [indexOf leafCode]. apply indexOfFrom_code.
  intros i value Hvalue. rewrite (Hcodes i value Hvalue). lia.
Qed.

(** X7. An ENUM column is never rejected for its values.  When the enum's
    value type is absent or one of the eight component types other than
    INT64 and UINT64, the builder returns a buffer with one element per
    leaf, whatever the leaves are: names that the enum does not define,
    numbers and booleans included. *)
Theorem createValuesBuffer_enum_never_rejects (classProperty : ClassProperty)
    (schema : Schema) (column : list JValue) (enumName : string)
    (metadataEnums : gmap string MetadataEnum) (metadataEnum : MetadataEnum)
    (width : nat) :
  String.eqb (propertyType classProperty) "STRING" = false ->
  String.eqb (propertyType classProperty) "BOOLEAN" = false ->
  enumType classProperty = Some enumName ->
  enums schema = Some metadataEnums ->
  metadataEnums !! enumName = Some metadataEnum ->
  componentByteSize (default "UINT16"%string (enumValueType metadataEnum)) = Some width ->
  default "UINT16"%string (enumValueType metadataEnum) <> "INT64"%string ->
  default "UINT16"%string (enumValueType metadataEnum) <> "UINT64"%string ->
  exists buffer,
    createValuesBuffer classProperty schema column = Ok buffer
    /\ packs width (length (flattenFully (JArray column))) buffer.
Proof.
  intros Hstring Hboolean HenumType Henums Henum Hsize Hne64 Hneu64.
  unfold createValuesBuffer, flatten, member.
  rewrite Hstring, Hboolean, HenumType, Henums, Henum.
  set (positions := map _ (flattenFully (JArray column))).
  destruct (createBuffer_small_types positions _ _ Hsize Hne64 Hneu64)
    as [buffer Hbuffer].
  exists buffer. split; [exact Hbuffer |].
  destruct (createBuffer_packs _ _ _ Hbuffer) as (name & w & [= <-] & Hw & Hp).
  rewrite Hsize in Hw. injection Hw as <-.
  unfold positions in Hp. now rewrite flattenFully_map_leaf, length_map in Hp.
Qed.

End ComponentTypes.

Section StringOffsets.

Context `{C : StringCoercions}.
Import TypedArrays BinaryPropertyTables BinaryPropertyModels.

(** X8. The two buffers of a string column agree when no leaf is [null]
    and no text of a leaf ends in a high surrogate.  Then, when the UTF-8
    bytes of all texts fit the offset type, consecutive entries of the
    string-offsets buffer delimit, in the values buffer, exactly the bytes
    of the text of the corresponding leaf, and the last entry is the
    length of the values buffer. *)
Theorem string_offsets_delimit_values (values : list JValue)
    (offsetType : option string) (width : nat) :
  let leaves := flattenFully (JArray values) in
  Forall separable leaves ->
  byteSizeForOffsetType (default "UINT32"%string offsetType) = Some width ->
  sumZ (map (fun leaf => Z.of_nat (length (encode (ToString leaf)))) leaves)
    < 2 ^ (8 * Z.of_nat width) ->
  exists offsetsBuffer,
    createStringOffsetBuffer values offsetType = Ok offsetsBuffer
    /\ let es := entries width (S (length leaves)) offsetsBuffer in
       es !! length leaves = Some (Z.of_nat (length (createStringBuffer values)))
       /\ (forall i leaf a b,
              leaves !! i = Some leaf -> es !! i = Some a -> es !! S i = Some b ->
              StringPropertyModel.slice (createStringBuffer values) a b
              = encode (ToString leaf)).
Proof.
  intros leaves Hleaves Hwidth Htotal.
  destruct (createStringOffsetBuffer_holds values offsetType width Hwidth)
    as (offsetsBuffer & Hbuf & Hholds).
  { unfold textChunks. now rewrite map_map. }
  exists offsetsBuffer. split; [exact Hbuf |].
  fold leaves in Hholds. destruct Hholds as (_ & Hes & _ & _ & _ & Hstep).
  cbn zeta in Hes, Hstep |- *.
  set (chunks := textChunks leaves) in *.
  assert (Hchunks : length chunks = length leaves)
    by (unfold chunks, textChunks; apply length_map).
  rewrite !length_map in Hes, Hstep. rewrite Hchunks in Hes, Hstep.
  rewrite createStringBuffer_chunks by exact Hleaves.
  fold leaves. fold (textChunks leaves). fold chunks.
  split.
  - rewrite Hes, lookup_cumulative by (rewrite length_map; lia).
    rewrite firstn_all2 by (rewrite length_map; lia).
    now rewrite sumZ_lengths.
  - intros i leaf a b Hleaf Ha Hb.
    assert (Hchunk : chunks !! i = Some (encode (ToString leaf)))
      by (unfold chunks, textChunks; rewrite list_lookup_fmap, Hleaf; reflexivity).
    pose proof (Hstep i a b Ha Hb) as Hdiff.
    rewrite list_lookup_fmap, Hchunk in Hdiff. injection Hdiff as Hdiff.
    rewrite Hes in Ha. apply lookup_cumulative_inv in Ha as [_ ->].
    replace b with (sumZ (take i (map (fun l : list Z => Z.of_nat (length l)) chunks))
                    + Z.of_nat (length (encode (ToString leaf)))) by lia.
    now apply slice_chunk.
Qed.

End StringOffsets.

Section SchemaBuilders.

Context `{C : StringCoercions}.
Context {Structure Data EnumInfo : Type} `{A : TableAssembly Structure Data EnumInfo}.
Import BinaryPropertyTables BinaryPropertyTableBuilders.

(** Lookups in a dictionary with one property. *)
Lemma member_singleton {V : Type} (key : string) (value : V) :
  member ({[ key := value ]} : gmap string V) key = Own value.
Proof. unfold member. now rewrite lookup_singleton_eq. Qed.

Lemma member_singleton_ne {V : Type} (key other : string) (value : V) :
  other <> key ->
  member ({[ key := value ]} : gmap string V) other
  = if bool_decide (other ∈ objectPrototype) then Inherited other else Undefined.
Proof. intros Hne. unfold member. now rewrite lookup_singleton_ne. Qed.

(** The enums of the schema that [createSchemaFromClassProperty] builds:
    the given enum under the fixed name, or no dictionary at all. *)
Lemma createSchemaFromClassProperty_enums (propertyName : string)
    (classProperty : ClassProperty) (metadataEnum : option MetadataEnum) :
  asSchema (createSchemaFromClassProperty propertyName classProperty metadataEnum)
  = mkSchema ((fun e => {[ "testMetadataEnum"%string := e ]}) <$> metadataEnum).
Proof. destruct metadataEnum; reflexivity. Qed.

Lemma createSchemaFromClassProperty_classes (propertyName : string)
    (classProperty : ClassProperty) (metadataEnum : option MetadataEnum) :
  schemaClasses (createSchemaFromClassProperty propertyName classProperty metadataEnum)
  = Some {[ "testMetadataClass"%string :=
              createMetadataClassFromClassProperty propertyName classProperty ]}.
Proof. destruct metadataEnum; reflexivity. Qed.


(** X10. The enum that is passed along is registered under the fixed name
    [testMetadataEnum], whatever enum type the property names.  For a
    property that is neither a string nor a boolean and that names an enum
    type: without an enum the call throws that the schema defines no enums;
    with an enum, but another enum type than the fixed name, the call
    throws that the schema does not define that enum, unless the enum
    type is the name of a member that every object inherits, for which it
    throws a TypeError. *)
Theorem createBinaryPropertyTableFromProperty_enum_name
    (propertyName : string) (classProperty : ClassProperty) (values : list JValue)
    (arrayOffsetType stringOffsetType : option string) (enumName : string) :
  String.eqb (propertyType classProperty) "STRING" = false ->
  String.eqb (propertyType classProperty) "BOOLEAN" = false ->
  enumType classProperty = Some enumName ->
  createBinaryPropertyTableFromProperty propertyName classProperty values
    arrayOffsetType stringOffsetType None
  = Throw (MetadataError "The schema does not define any enums")
  /\ (forall metadataEnum,
        enumName <> "testMetadataEnum"%string ->
        (enumName ∉ objectPrototype ->
           createBinaryPropertyTableFromProperty propertyName classProperty values
             arrayOffsetType stringOffsetType (Some metadataEnum)
           = Throw (MetadataError ("The schema does not define enum " ++ enumName)))
        /\ (enumName ∈ objectPrototype ->
           createBinaryPropertyTableFromProperty propertyName classProperty values
             arrayOffsetType stringOffsetType (Some metadataEnum)
           = Throw TypeError)).
Proof.
  intros Hstring Hboolean Henum.
  split; [| intros metadataEnum Hname; split; intros Hinherited];
    unfold createBinaryPropertyTableFromProperty, createBinaryPropertyTable;
    rewrite createSchemaFromClassProperty_classes, member_singleton;
    unfold createMetadataClassFromClassProperty at 1;
    cbn [classProperties]; rewrite member_singleton;
    rewrite createSchemaFromClassProperty_enums;
    unfold createPropertyTableProperty, createValuesBuffer;
    rewrite Hstring, Hboolean, Henum; cbn [enums fmap option_fmap option_map].
  - reflexivity.
  - rewrite member_singleton_ne by congruence.
    rewrite (bool_decide_eq_false_2 (enumName ∈ objectPrototype)) by exact Hinherited.
    reflexivity.
  - rewrite member_singleton_ne by congruence.
    rewrite (bool_decide_eq_true_2 (enumName ∈ objectPrototype)) by exact Hinherited.
    reflexivity.
Qed.

End SchemaBuilders.

Section JsonPadding.

Import BinaryPropertyTables JsonBuffers.

Lemma encode_spaces (n : nat) : encode (replicate n 32) = replicate n 32.
Proof.
  induction n as [| n IH]; [reflexivity |].
  cbn [replicate]. rewrite encode_unit by reflexivity. now rewrite IH.
Qed.

(** Spaces that follow a text are encoded on their own, whatever the text
    ends in: a space is no low surrogate. *)
Lemma encode_app_spaces (s : JSString) (n : nat) :
  encode (s ++ replicate n 32) = encode s ++ replicate n 32.
Proof.
  remember (length s) as m eqn:Hm. revert s Hm.
  induction m as [m IH] using lt_wf_ind. intros s Hm.
  destruct s as [| unit rest]; [apply encode_spaces |].
  destruct (isHighSurrogate unit) eqn:Hhigh.
  - destruct rest as [| next rest].
    + destruct n as [| n]; [cbn [replicate]; now rewrite !app_nil_r |].
      change ([unit] ++ replicate (S n) 32) with (unit :: 32 :: replicate n 32).
      rewrite encode_lone_high by (assumption || reflexivity).
      change (32 :: replicate n 32) with (replicate (S n) 32).
      rewrite encode_spaces. simpl. now rewrite Hhigh.
    + change ((unit :: next :: rest) ++ replicate n 32)
        with (unit :: next :: (rest ++ replicate n 32)).
      destruct (isLowSurrogate next) eqn:Hlow.
      * rewrite !encode_pair by assumption. rewrite <- app_assoc. f_equal.
        apply (IH (length rest)); [cbn in Hm; lia | reflexivity].
      * rewrite !encode_lone_high by assumption. rewrite <- app_assoc. f_equal.
        change (next :: rest ++ replicate n 32) with ((next :: rest) ++ replicate n 32).
        apply (IH (length (next :: rest))); [cbn in Hm |- *; lia | reflexivity].
  - change ((unit :: rest) ++ replicate n 32) with (unit :: (rest ++ replicate n 32)).
    rewrite !encode_unit by assumption. rewrite <- app_assoc. f_equal.
    apply (IH (length rest)); [cbn in Hm; lia | reflexivity].
Qed.

(** X11. The padded JSON buffer.  An absent object and an empty object give
    an empty buffer, whatever the byte offset.  For any other object the
    buffer is the UTF-8 bytes of the JSON text followed only by spaces, and
    the byte offset plus the length of the buffer is a multiple of 8, for
    every integer offset; no space is added when the end of the text is
    already aligned, and fewer than 8 are added when the offset is not
    negative. *)
Theorem getJsonBufferPadded_aligned {J : Type} (stringify : gmap string J -> JSString)
    (byteOffset : option Z) :
  getJsonBufferPadded stringify None byteOffset = []
  /\ getJsonBufferPadded stringify (Some ∅) byteOffset = []
  /\ (forall object : gmap string J,
        object <> ∅ ->
        let text := encode (stringify object) in
        let buffer := getJsonBufferPadded stringify (Some object) byteOffset in
        let offset := default 0 byteOffset in
        exists padding : nat,
          buffer = text ++ replicate padding 32
          /\ (offset + Z.of_nat (length buffer)) mod 8 = 0
          /\ ((offset + Z.of_nat (length text)) mod 8 = 0 -> padding = 0%nat)
          /\ (0 <= offset -> (padding < 8)%nat)).
Proof.
  split; [reflexivity |]. split; [reflexivity |].
  intros object Hnonempty text buffer offset.
  assert (Hsize : (size object =? 0)%nat = false).
  { apply Nat.eqb_neq. intros Hsize. now apply map_size_empty_iff in Hsize. }
  subst buffer. unfold getJsonBufferPadded. rewrite Hsize. cbn zeta.
  fold offset. fold text.
  set (total := offset + Z.of_nat (length text)).
  pose proof (Z.quot_rem' total 8) as Hdiv.
  assert (Hbound : - 8 < Z.rem total 8 < 8).
  { pose proof (Z.rem_bound_abs total 8 ltac:(lia)) as Habs. lia. }
  assert (Hsign : 0 <= total -> 0 <= Z.rem total 8).
  { intros Htotal. now apply Z.rem_nonneg. }
  set (remainder := Z.rem total 8) in *.
  set (padding := if remainder =? 0 then 0 else 8 - remainder).
  exists (Z.to_nat padding).
  rewrite encode_app_spaces. fold text.
  assert (Hpad : 0 <= padding) by (unfold padding; destruct (Z.eqb_spec remainder 0); lia).
  split; [reflexivity |]. split; [| split].
  - rewrite length_app, length_replicate, Nat2Z.inj_add, Z2Nat.id by lia.
    replace (offset + (Z.of_nat (length text) + padding)) with (total + padding)
      by (unfold total; lia).
    unfold padding. destruct (Z.eqb_spec remainder 0) as [Hzero | Hnonzero].
    + replace (total + 0) with (Z.quot total 8 * 8) by lia. apply Z_mod_mult.
    + replace (total + (8 - remainder)) with ((Z.quot total 8 + 1) * 8) by lia.
      apply Z_mod_mult.
  - intros Haligned.
    assert (Hzero : remainder = 0).
    { apply Z.rem_divide; [lia |]. apply Z.mod_divide; [lia | exact Haligned]. }
    unfold padding. rewrite Hzero. reflexivity.
  - intros Hoffset. specialize (Hsign ltac:(unfold total; lia)).
    unfold padding. destruct (Z.eqb_spec remainder 0); lia.
Qed.

End JsonPadding.

Section DerivationBehaviour.

Context `{E : Externals}.
Local Open Scope float_scope.

(** [(z & 1) === 0] tests the parity of the integer part of [z]. *)
Lemma ToInt32_parity (z : float) :
  (Z.land (ToInt32 z) 1 =? 0)%Z = Z.even (truncate z).
Proof.
  unfold ToInt32. set (t := truncate z).
  assert (Hwrap : Z.even (t mod 2 ^ 32) = Z.even t).
  { rewrite (Z.div_mod t (2 ^ 32)) at 2 by lia.
    rewrite Z.even_add, Z.even_mul. change (Z.even (2 ^ 32)) with true.
    now destruct (Z.even (t mod 2 ^ 32)). }
  assert (Hsigned : Z.even (if (2 ^ 31 <=? t mod 2 ^ 32)%Z
                            then (t mod 2 ^ 32 - 2 ^ 32)%Z else (t mod 2 ^ 32)%Z)
                    = Z.even t).
  { destruct (2 ^ 31 <=? t mod 2 ^ 32)%Z; [| exact Hwrap].
    rewrite Z.even_sub, Hwrap. now destruct (Z.even t). }
  rewrite <- Hsigned.
  set (v := if (2 ^ 31 <=? t mod 2 ^ 32)%Z then _ else _).
  change 1%Z with (Z.ones 1). rewrite Z.land_ones by lia.
  rewrite Zeven_mod. reflexivity.
Qed.

(** X12. The heights of a derived S2 cell.  At a level other than 0, a
    derivation that succeeds keeps both heights of the root when there is
    no z coordinate; with a z coordinate it halves the height range at the
    midpoint, and takes the lower half when the integer part of z is even
    (also when z is NaN or infinite) and the upper half when it is odd. *)
Theorem deriveBoundingVolumeS2_heights
    (s2 child : BoundingVolumeS2) (level x y : float) (z : option float) :
  (level =? 0) = false ->
  deriveBoundingVolumeS2 s2 level x y z = Ok child ->
  let midpoint := (maximumHeight s2 + minimumHeight s2) / 2 in
  match z with
  | None =>
      minimumHeight child = minimumHeight s2 /\ maximumHeight child = maximumHeight s2
  | Some zv =>
      if Z.even (truncate zv)
      then minimumHeight child = minimumHeight s2 /\ maximumHeight child = midpoint
      else minimumHeight child = midpoint /\ maximumHeight child = maximumHeight s2
  end.
Proof.
  intros Hlevel. unfold deriveBoundingVolumeS2. rewrite Hlevel.
  destruct (S2Cell_getIdFromToken (token s2)) as [baseCellId | err]; cbn;
    [| discriminate].
  destruct (if (_ =? 0)%Z then _ else _) as [position | err]; cbn; [| discriminate].
  destruct (BigInt position) as [bigPosition | err]; cbn; [| discriminate].
  destruct (S2Cell_fromFacePositionLevel _ _ _) as [cellId | err]; cbn;
    [| discriminate].
  destruct z as [zv |].
  - rewrite ToInt32_parity.
    destruct (Z.even (truncate zv)); intros [= <-]; split; reflexivity.
  - intros [= <-]; split; reflexivity.
Qed.


(** A volume that the derivation returns is selected as itself. *)
Lemma selectedVolume_derived (root v : BoundingVolume) (coords : list float) :
  deriveBoundingVolume root coords = Ok (Some v) ->
  selectedVolume v = Some v.
Proof.
  unfold deriveBoundingVolume.
  destruct (hasExtension root S2_EXTENSION) as [[s2 | json] |].
  - destruct (deriveBoundingVolumeS2 _ _ _ _ _) as [child | err]; cbn;
      intros [= <-]. unfold selectedVolume. now rewrite hasExtension_s2Volume.
  - destruct (_ =? 0); intros [= <-].
    unfold selectedVolume. now rewrite hasExtension_s2Volume.
  - destruct (region root); [intros [= <-]; reflexivity |].
    destruct (box root); intros [= <-]; reflexivity.
Qed.

(** X14. A volume that the derivation returns can be used as a root: at
    level 0 it derives itself, whatever the other entries of the
    coordinate tuple are. *)
Theorem deriveBoundingVolume_result_is_root
    (root v : BoundingVolume) (coords coords0 : list float) :
  deriveBoundingVolume root coords = Ok (Some v) ->
  (levelOf coords0 =? 0) = true ->
  deriveBoundingVolume v coords0 = Ok (Some v).
Proof.
  intros Hderived Hlevel0.
  rewrite (deriveBoundingVolume_level0 v coords0 Hlevel0).
  now rewrite (selectedVolume_derived root v coords Hderived).
Qed.

End DerivationBehaviour.

Section TableLookups.

Context `{C : StringCoercions}.
Context {Structure Data EnumInfo : Type} `{A : TableAssembly Structure Data EnumInfo}.
Import BinaryPropertyTables BinaryPropertyTableBuilders.


End TableLookups.

Section Quadtrees.

Context `{E : Externals}.
Local Open Scope float_scope.

(** X16. Quadtree coordinates leave the heights of a region alone.  For a
    coordinate tuple of at most three entries, a root that is derived as a
    region yields a region whose minimum and maximum height are those of
    the root, at every level. *)
Theorem deriveBoundingVolume_quadtree_region_heights
    (root : BoundingVolume) (rootRegion : list float) (coords : list float) :
  (length coords <= 3)%nat ->
  hasExtension root S2_EXTENSION = None ->
  region root = Some rootRegion ->
  exists childRegion,
    deriveBoundingVolume root coords = Ok (Some (regionVolume childRegion))
    /\ index childRegion 4 = index rootRegion 4
    /\ index childRegion 5 = index rootRegion 5.
Proof.
  intros Hlength Hno Hregion. unfold deriveBoundingVolume.
  rewrite Hno, Hregion.
  assert (Hz : (3 <? length coords)%nat = false) by (apply Nat.ltb_ge; lia).
  rewrite Hz. eexists. split; [reflexivity |].
  unfold deriveBoundingRegion.
  destruct (index coords 0 =? 0); split; reflexivity.
Qed.

End Quadtrees.

Section IntegerColumns.

Context `{C : StringCoercions}.
Import TypedArrays BinaryPropertyTables.

Lemma entries_concat_map {A : Type} (width : nat) (f : A -> list Z) (l : list A) :
  (0 < width)%nat ->
  (forall a, length (f a) = width) ->
  entries width (length l) (concat (map f l)) = map (fun a => leValue (f a)) l.
Proof.
  intros Hpos Hlen. induction l as [| a l IH]; [reflexivity |].
  cbn [map concat length entries].
  destruct (f a ++ concat (map f l)) eqn:Hbuf.
  - apply (f_equal length) in Hbuf. rewrite length_app, Hlen in Hbuf. cbn in Hbuf. lia.
  - rewrite <- Hbuf. rewrite take_app_length', drop_app_length' by (symmetry; apply Hlen).
    now rewrite IH.
Qed.

Lemma leValue_intElement (width : nat) (n : number) :
  leValue (intElement width n) = wrapped width n.
Proof.
  destruct n as [z |]; cbn [intElement wrapped]; rewrite leValue_leBytes.
  - apply Z.mod_mod. apply Z.pow_nonzero; lia.
  - apply Z.mod_0_l. apply Z.pow_nonzero; lia.
Qed.

(** X17. Integer columns of at most 32 bits are never rejected and never
    range-checked.  For INT8, UINT8, INT16, UINT16, INT32 and UINT32 the
    builder returns a buffer whose little-endian entries are the numbers of
    the leaves wrapped modulo 2^(8 width), with 0 for NaN; the signed and
    the unsigned type of a width give the same buffer; and a number from 0
    up to (not including) 2^(8 width) is read back as it is. *)
Theorem createBuffer_integers_wrap (values : list JValue) (name : string)
    (width : nat) :
  let leaves := flattenFully (JArray values) in
  In (name, width)
     [("INT8", 1); ("UINT8", 1); ("INT16", 2); ("UINT16", 2);
      ("INT32", 4); ("UINT32", 4)]%string%nat ->
  exists buffer,
    createBuffer values (Some name) = Ok buffer
    /\ entries width (length leaves) buffer
       = map (fun leaf => wrapped width (ToNumber leaf)) leaves
    /\ (forall other, In (other, width)
                         [("INT8", 1); ("UINT8", 1); ("INT16", 2); ("UINT16", 2);
                          ("INT32", 4); ("UINT32", 4)]%string%nat ->
                      createBuffer values (Some other) = Ok buffer)
    /\ (forall i leaf z,
          leaves !! i = Some leaf -> ToNumber leaf = Int z ->
          0 <= z < 2 ^ (8 * Z.of_nat width) ->
          entries width (length leaves) buffer !! i = Some z).
Proof.
  intros leaves Hname.
  exists (concat (map (fun v => intElement width (ToNumber v)) leaves)).
  assert (Hpos : (0 < width)%nat).
  { cbn in Hname. repeat (destruct Hname as [[= <- <-] | Hname]; [lia |]).
    contradiction. }
  assert (Hentries :
    entries width (length leaves)
      (concat (map (fun v => intElement width (ToNumber v)) leaves))
    = map (fun leaf => wrapped width (ToNumber leaf)) leaves).
  { rewrite (entries_concat_map width (fun v => intElement width (ToNumber v)))
      by (try exact Hpos; intros a; destruct (ToNumber a); apply length_leBytes).
    apply map_ext. intros leaf. apply leValue_intElement. }
  split; [| split; [exact Hentries | split]].
  - cbn in Hname. repeat (destruct Hname as [[= <- <-] | Hname]; [reflexivity |]).
    contradiction.
  - intros other Hother.
    assert (Hsame : createBuffer values (Some other) = createBuffer values (Some name)).
    { cbn in Hname, Hother.
      repeat (destruct Hname as [Hname | Hname]; [| try contradiction]);
        repeat (destruct Hother as [Hother | Hother]; [| try contradiction]);
        injection Hname as <- <-; inversion Hother; reflexivity. }
    rewrite Hsame. cbn in Hname.
    repeat (destruct Hname as [[= <- <-] | Hname]; [reflexivity |]).
    contradiction.
  - intros i leaf z Hleaf Hnumber Hrange.
    rewrite Hentries, list_lookup_fmap, Hleaf. cbn. rewrite Hnumber. cbn.
    f_equal. now apply Z.mod_small.
Qed.

End IntegerColumns.

(* ===================================================================== *)
(** ** The further properties on concrete inputs                          *)
(* ===================================================================== *)

Section ColumnExamples.

Import TypedArrays BinaryPropertyTables BinaryPropertyModels.
Import BinaryPropertyTableBuilders JsonBuffers.
Import Sample.

Lemma nameValues_separable :
  Forall (separable (H:=coercions)) (flattenFully (JArray nameValues)).
Proof.
  repeat (apply Forall_cons_2 || apply Forall_nil_2); (split; [discriminate | reflexivity]).
Qed.

Lemma tagRows_separable : Forall (separable (H:=coercions)) (concat tagRows).
Proof.
  repeat (apply Forall_cons_2 || apply Forall_nil_2); (split; [discriminate | reflexivity]).
Qed.

Lemma string_column_round_trip_witness :
  exists offsetsBuffer,
    createStringOffsetBuffer (H:=coercions) nameValues None = Ok offsetsBuffer
    /\ StringPropertyModel.getPropertyValue decodeBytes
         (StringPropertyModel.make (createStringBuffer nameValues) offsetsBuffer "UINT32")
         1 = Ok (str "cde")
    /\ StringPropertyModel.getPropertyValue decodeBytes
         (StringPropertyModel.make (createStringBuffer nameValues) offsetsBuffer "UINT32")
         2 = Throw IndexError.
Proof.
  destruct (string_column_round_trip (C:=coercions) decodeBytes nameValues None 4
              nameValues_separable eq_refl ltac:(lia) eq_refl)
    as (offsetsBuffer & Hbuffer & Hrow & Hout).
  exists offsetsBuffer. split; [exact Hbuffer |]. split.
  - exact (Hrow 1%nat (LString "cde") eq_refl).
  - apply Hout. right. cbn. lia.
Defined.

Lemma string_array_column_round_trip_witness :
  exists arrayOffsets stringOffsets,
    createArrayOffsetBuffer (H:=coercions) (stringRows tagRows) (Some "UINT8"%string)
      = Ok arrayOffsets
    /\ createStringOffsetBuffer (H:=coercions) (stringRows tagRows) None
       = Ok stringOffsets
    /\ StringArrayPropertyModel.getPropertyValue decodeBytes
         (StringArrayPropertyModel.make (createStringBuffer (stringRows tagRows))
            (Some arrayOffsets) "UINT8" stringOffsets "UINT32" None)
         0 = Ok [str "a"; str "bc"]
    /\ StringArrayPropertyModel.getPropertyValue decodeBytes
         (StringArrayPropertyModel.make (createStringBuffer (stringRows tagRows))
            (Some arrayOffsets) "UINT8" stringOffsets "UINT32" None)
         1 = Ok [].
Proof.
  destruct (string_array_column_round_trip (C:=coercions) decodeBytes tagRows
              (Some "UINT8"%string) None 1 4 tagRows_separable eq_refl eq_refl
              ltac:(lia) ltac:(lia) eq_refl eq_refl)
    as (arrayOffsets & stringOffsets & Harray & Hstring & Hrow & _).
  exists arrayOffsets, stringOffsets.
  split; [exact Harray |]. split; [exact Hstring |]. split.
  - exact (Hrow 0%nat [LString "a"; LString "bc"] eq_refl).
  - exact (Hrow 1%nat [] eq_refl).
Defined.

Lemma boolean_buffer_bits_witness :
  length (createBooleanBuffer
            [JLeaf (LBool true); JLeaf (LNumber (Int 0)); JLeaf (LString "x")]) = 1%nat
  /\ bitAt (createBooleanBuffer
              [JLeaf (LBool true); JLeaf (LNumber (Int 0)); JLeaf (LString "x")]) 2 = true
  /\ bitAt (createBooleanBuffer
              [JLeaf (LBool true); JLeaf (LNumber (Int 0)); JLeaf (LString "x")]) 5 = false.
Proof.
  destruct (boolean_buffer_bits
              [JLeaf (LBool true); JLeaf (LNumber (Int 0)); JLeaf (LString "x")])
    as (Hlength & Hbits & Hclear).
  split; [exact Hlength |]. split.
  - exact (Hbits 2%nat (LString "x") eq_refl).
  - apply Hclear. cbn. lia.
Defined.

Lemma createPropertyTableProperty_views_witness :
  createPropertyTableProperty (H:=coercions) nameProperty (mkSchema None) nameValues
    None None [[1]]
  = Ok (mkPropertyTableProperty 1%nat None (Some 2%nat) None None,
        [[1]; [97; 98; 99; 100; 101]; [0; 0; 0; 0; 2; 0; 0; 0; 5; 0; 0; 0]])
  /\ exists valuesBuffer arrayBuffers stringBuffers,
       [[1]; [97; 98; 99; 100; 101]; [0; 0; 0; 0; 2; 0; 0; 0; 5; 0; 0; 0]]
       = [[1]] ++ [valuesBuffer] ++ arrayBuffers ++ stringBuffers
       /\ Forall (Forall isByte) ([valuesBuffer] ++ arrayBuffers ++ stringBuffers).
Proof.
  split; [reflexivity |].
  destruct (createPropertyTableProperty_views (C:=coercions) nameProperty (mkSchema None)
              nameValues None None [[1]]
              (mkPropertyTableProperty 1%nat None (Some 2%nat) None None)
              [[1]; [97; 98; 99; 100; 101]; [0; 0; 0; 0; 2; 0; 0; 0; 5; 0; 0; 0]]
              eq_refl)
    as (valuesBuffer & arrayBuffers & stringBuffers & _ & _ & _ & Hcreated & _ & _ & _
        & _ & _ & Hbytes).
  exists valuesBuffer, arrayBuffers, stringBuffers.
  split; [exact Hcreated | exact Hbytes].
Defined.

Lemma createBuffer_component_types_witness :
  (exists buffer,
      createBuffer (H:=coercions) [JLeaf (LString "x"); JLeaf (LBool true)]
        (Some "FLOAT32"%string) = Ok buffer)
  /\ (exists message,
        createBuffer (H:=coercions) [JLeaf (LNumber (Int 1))] (Some "VEC3"%string)
        = Throw (MetadataError message))
  /\ (exists name width,
        Some "UINT16"%string = Some name
        /\ componentByteSize name = Some width
        /\ packs width
             (length (flattenFully (JArray [JLeaf (LNumber (Int 1)); JLeaf (LNumber (Int 2))])))
             [1; 0; 2; 0]).
Proof.
  split; [| split].
  - destruct (createBuffer_component_types (C:=coercions)
                [JLeaf (LString "x"); JLeaf (LBool true)] (Some "FLOAT32"%string))
      as (_ & Hreturns & _).
    apply (Hreturns "FLOAT32"%string 4%nat eq_refl eq_refl); discriminate.
  - destruct (createBuffer_component_types (C:=coercions)
                [JLeaf (LNumber (Int 1))] (Some "VEC3"%string)) as (_ & _ & Hrejects).
    apply Hrejects. right. exists "VEC3"%string. split; reflexivity.
  - destruct (createBuffer_component_types (C:=coercions)
                [JLeaf (LNumber (Int 1)); JLeaf (LNumber (Int 2))]
                (Some "UINT16"%string)) as (Hpacks & _ & _).
    exact (Hpacks [1; 0; 2; 0] eq_refl).
Defined.

Lemma ordered_codes (i : nat) (value : EnumValue) :
  enumValues orderedEnum !! i = Some value -> enumValueValue value = Z.of_nat i.
Proof.
  destruct i as [| [| i]]; cbn; intros [= <-]; reflexivity.
Qed.

Lemma createValuesBuffer_enum_codes_witness :
  createValuesBuffer (H:=coercions) letterProperty orderedSchema
    [JLeaf (LString "B"); JLeaf (LString "C")]
  = createBuffer (H:=coercions)
      [JLeaf (LNumber (Int 1)); JLeaf (LNumber (Int (-1)))] (Some "UINT8"%string).
Proof.
  exact (createValuesBuffer_enum_codes (C:=coercions) letterProperty orderedSchema
           [JLeaf (LString "B"); JLeaf (LString "C")] "letters"
           {[ "letters"%string := orderedEnum ]} orderedEnum
           eq_refl eq_refl eq_refl eq_refl eq_refl ordered_codes).
Defined.

Lemma createValuesBuffer_enum_never_rejects_witness :
  exists buffer,
    createValuesBuffer (H:=coercions) colorProperty colorSchema
      [JLeaf (LString "BLUE"); JLeaf (LBool true); JLeaf (LNumber NaN)] = Ok buffer
    /\ packs 2 3 buffer.
Proof.
  exact (createValuesBuffer_enum_never_rejects (C:=coercions) colorProperty colorSchema
           [JLeaf (LString "BLUE"); JLeaf (LBool true); JLeaf (LNumber NaN)]
           "testMetadataEnum" {[ "testMetadataEnum"%string := colorEnum ]} colorEnum 2
           eq_refl eq_refl eq_refl eq_refl eq_refl eq_refl
           ltac:(discriminate) ltac:(discriminate)).
Defined.

(** Without the condition on the leaves, the two buffers of a string
    column can disagree.  The join pairs a high surrogate that ends one
    string with the low surrogate that starts the next into one code point
    of four bytes, where each is encoded on its own as the three bytes of
    U+FFFD; and the join drops a [null], which the encoder spells out. *)
Lemma string_buffers_disagree :
  (createStringBuffer (H:=coercions) splitPairParts
   = createStringBuffer (H:=coercions) splitPairValues
   /\ length (createStringBuffer (H:=coercions) splitPairParts) = 7%nat
   /\ exists buffer,
        createStringOffsetBuffer (H:=coercions) splitPairParts (Some "UINT8"%string)
        = Ok buffer
        /\ entries 1 4 buffer = [0; 3; 6; 9])
  /\ (length (createStringBuffer (H:=coercions) nullValues) = 5%nat
      /\ exists buffer,
           createStringOffsetBuffer (H:=coercions) nullValues (Some "UINT8"%string)
           = Ok buffer
           /\ entries 1 4 buffer = [0; 2; 6; 9]).
Proof.
  split; [split; [reflexivity | split; [reflexivity |]] | split; [reflexivity |]];
    eexists; split; reflexivity.
Qed.

Lemma string_offsets_delimit_values_witness :
  exists offsetsBuffer,
    createStringOffsetBuffer (H:=coercions) nameValues (Some "UINT8"%string)
      = Ok offsetsBuffer
    /\ entries 1 3 offsetsBuffer !! 2%nat
       = Some (Z.of_nat (length (createStringBuffer nameValues))).
Proof.
  destruct (string_offsets_delimit_values (C:=coercions) nameValues
              (Some "UINT8"%string) 1 nameValues_separable eq_refl eq_refl)
    as (offsetsBuffer & Hbuffer & Hlast & _).
  exists offsetsBuffer. split; [exact Hbuffer | exact Hlast].
Defined.

Lemma createBinaryPropertyTableFromProperty_enum_name_witness :
  createBinaryPropertyTableFromProperty (H:=coercions) (H0:=assembly)
    "letter" letterProperty [JLeaf (LString "A")] None None None
  = Throw (MetadataError "The schema does not define any enums")
  /\ createBinaryPropertyTableFromProperty (H:=coercions) (H0:=assembly)
       "letter" letterProperty [JLeaf (LString "A")] None None (Some orderedEnum)
     = Throw (MetadataError "The schema does not define enum letters")
  /\ createBinaryPropertyTableFromProperty (H:=coercions) (H0:=assembly)
       "letter" inheritedEnumProperty [JLeaf (LString "A")] None None (Some orderedEnum)
     = Throw TypeError.
Proof.
  destruct (createBinaryPropertyTableFromProperty_enum_name (C:=coercions) (A:=assembly)
              "letter" letterProperty [JLeaf (LString "A")] None None "letters"
              eq_refl eq_refl eq_refl) as [Hnone Hother].
  destruct (createBinaryPropertyTableFromProperty_enum_name (C:=coercions) (A:=assembly)
              "letter" inheritedEnumProperty [JLeaf (LString "A")] None None
              "constructor" eq_refl eq_refl eq_refl) as [_ Hinherited].
  split; [exact Hnone |]. split.
  - apply (Hother orderedEnum); [discriminate |].
    intros Hin. exact (bool_decide_pack _ Hin).
  - apply (Hinherited orderedEnum); [discriminate |].
    apply (bool_decide_unpack _). reflexivity.
Defined.

Lemma getJsonBufferPadded_aligned_witness :
  exists padding : nat,
    getJsonBufferPadded stringify (Some {[ "a"%string := 1 ]}) (Some 3)
    = encode (str "{a}") ++ replicate padding 32
    /\ (3 + Z.of_nat (length (getJsonBufferPadded stringify
                                (Some {[ "a"%string := 1 ]}) (Some 3)))) mod 8 = 0
    /\ (padding < 8)%nat.
Proof.
  destruct (getJsonBufferPadded_aligned stringify (Some 3)) as (_ & _ & Hpadded).
  destruct (Hpadded {[ "a"%string := 1 ]}) as (padding & Hbuffer & Haligned & _ & Hfew).
  { apply map_non_empty_singleton. }
  exists padding. split; [exact Hbuffer |]. split; [exact Haligned |].
  apply Hfew. cbn. lia.
Defined.


Lemma createBuffer_integers_wrap_witness :
  exists buffer,
    createBuffer (H:=coercions)
      [JLeaf (LNumber (Int 300)); JLeaf (LNumber (Int (-1))); JLeaf (LNumber (Int 7))]
      (Some "UINT8"%string) = Ok buffer
    /\ entries 1 3 buffer = [44; 255; 7]
    /\ createBuffer (H:=coercions)
         [JLeaf (LNumber (Int 300)); JLeaf (LNumber (Int (-1))); JLeaf (LNumber (Int 7))]
         (Some "INT8"%string) = Ok buffer.
Proof.
  destruct (createBuffer_integers_wrap (C:=coercions)
              [JLeaf (LNumber (Int 300)); JLeaf (LNumber (Int (-1))); JLeaf (LNumber (Int 7))]
              "UINT8" 1) as (buffer & Hbuffer & Hentries & Hsame & _).
  { cbn. right. left. reflexivity. }
  exists buffer. split; [exact Hbuffer |]. split; [exact Hentries |].
  apply Hsame. cbn. left. reflexivity.
Defined.

End ColumnExamples.

Section DerivationBehaviourExamples.

Local Open Scope float_scope.
Import Sample.

Lemma deriveBoundingVolumeS2_heights_witness :
  deriveBoundingVolumeS2 (H:=externals) evenFaceCell 1 1 0 (Some 3)
  = Ok (mkBoundingVolumeS2 "1c" 5 10)
  /\ minimumHeight (mkBoundingVolumeS2 "1c" 5 10) = 5
  /\ maximumHeight (mkBoundingVolumeS2 "1c" 5 10) = maximumHeight evenFaceCell.
Proof.
  split; [reflexivity |].
  exact (deriveBoundingVolumeS2_heights (E:=externals) evenFaceCell
           (mkBoundingVolumeS2 "1c" 5 10) 1 1 0 (Some 3) eq_refl eq_refl).
Defined.


Lemma deriveBoundingVolume_result_is_root_witness :
  deriveBoundingVolume (H:=externals) (regionVolume someRegion) [1; 1; 0; 1]
  = Ok (Some (regionVolume [0; -0.5; 1; 0; 50; 100]))
  /\ deriveBoundingVolume (H:=externals) (regionVolume [0; -0.5; 1; 0; 50; 100])
       [0; 7; 7]
     = Ok (Some (regionVolume [0; -0.5; 1; 0; 50; 100])).
Proof.
  split; [reflexivity |].
  exact (deriveBoundingVolume_result_is_root (E:=externals) (regionVolume someRegion)
           (regionVolume [0; -0.5; 1; 0; 50; 100]) [1; 1; 0; 1] [0; 7; 7]
           eq_refl eq_refl).
Defined.

Lemma deriveBoundingVolume_quadtree_region_heights_witness :
  exists childRegion,
    deriveBoundingVolume (H:=externals)
      (mkBoundingVolume (Some unitBox) (Some someRegion) None None) [2; 1; 3]
    = Ok (Some (regionVolume childRegion))
    /\ index childRegion 4 = 0
    /\ index childRegion 5 = 100.
Proof.
  exact (deriveBoundingVolume_quadtree_region_heights (E:=externals)
           (mkBoundingVolume (Some unitBox) (Some someRegion) None None) someRegion
           [2; 1; 3] ltac:(cbn; lia) eq_refl eq_refl).
Defined.

End DerivationBehaviourExamples.
